(** * Policy rule engine of web/src/app/app.component.ts

    Shallow embedding of the rule normaliser ([normalizeParserResponse]),
    its condition synthesiser ([synthRuleCondition]), the category aligner
    ([alignParsedCategoriesWithDataset]), the condition evaluator
    ([evaluateRuleAgainstTx]) and the compliance aggregator
    ([applyPolicyToRows]); and the component's table and editor helpers:
    the token budget control, paging, sorting, row selection, the score
    filters, [normList], [formatLogPayload] and [applyParsedJson].

    Modelling conventions.
    - JavaScript strings are [string] of 8-bit characters (the Latin-1
      range of UTF-16); regular expressions are written out as functions
      that return what the corresponding [match]/[test]/[split] returns.
    - Finite JavaScript numbers are exact decimals [dmant / 10^dscale]
      (no rounding, no overflow); infinities and NaN are separate cases.
    - Values that come from [JSON.parse] or [fetch().json()] are trees
      ([jsval]); in-place mutation of such a tree is written as explicit
      state passing (the mutated tree is returned to the caller).
    - A thrown TypeError is the [Exc] case of [outcome]. *)

From Stdlib Require Import Strings.String Strings.Ascii Lists.List.
From Stdlib Require Import ZArith NArith QArith Bool Lia Sorting.Permutation.
Import ListNotations.
Set Warnings "-register-all".


Open Scope nat_scope.
Open Scope string_scope.

(** ** JavaScript numbers *)

Record dec := Dec { dmant : Z; dscale : nat }.

Inductive jsnum :=
| NFin (d : dec)
| NInf (neg : bool)
| NNaN.

Fixpoint pow10 (n : nat) : positive :=
  match n with
  | O => 1%positive
  | S k => (10 * pow10 k)%positive
  end.

Definition dec_Q (d : dec) : Q := Qmake (dmant d) (pow10 (dscale d)).

Definition num_zero : jsnum := NFin (Dec 0 0).
Definition num_one : jsnum := NFin (Dec 1 0).

(** Abstract relational comparison; [None] when a NaN is involved. *)
Definition num_cmp (a b : jsnum) : option comparison :=
  match a, b with
  | NFin x, NFin y => Some (Qcompare (dec_Q x) (dec_Q y))
  | NInf n1, NInf n2 =>
      Some (if Bool.eqb n1 n2 then Eq else if n1 then Lt else Gt)
  | NInf true, NFin _ => Some Lt
  | NInf false, NFin _ => Some Gt
  | NFin _, NInf true => Some Gt
  | NFin _, NInf false => Some Lt
  | _, _ => None
  end.

Definition num_lt (a b : jsnum) : bool :=
  match num_cmp a b with Some Lt => true | _ => false end.
Definition num_le (a b : jsnum) : bool :=
  match num_cmp a b with Some Lt | Some Eq => true | _ => false end.
Definition num_gt (a b : jsnum) : bool := num_lt b a.
Definition num_ge (a b : jsnum) : bool := num_le b a.
(** [===] on numbers *)
Definition num_seq (a b : jsnum) : bool :=
  match num_cmp a b with Some Eq => true | _ => false end.

Definition num_isNaN (a : jsnum) : bool :=
  match a with NNaN => true | _ => false end.

Definition num_truthy (a : jsnum) : bool :=
  match a with
  | NFin d => negb (Z.eqb (dmant d) 0)
  | NInf _ => true
  | NNaN => false
  end.

(** ** Decimal digits *)

(** Least significant digit first. *)
Fixpoint rdigits (fuel : nat) (p : N) : list nat :=
  match fuel with
  | O => []
  | S f =>
      match p with
      | N0 => []
      | _ => N.to_nat (p mod 10) :: rdigits f (p / 10)
      end
  end.

Definition digits_of (p : N) : list nat :=
  match p with
  | N0 => [0]
  | _ => rev (rdigits (S (N.size_nat p)) p)
  end.

Fixpoint drop_zeros (l : list nat) : list nat :=
  match l with
  | 0 :: t => drop_zeros t
  | _ => l
  end.

Definition digit_char (d : nat) : ascii := ascii_of_nat (48 + d).

Fixpoint digits_str (l : list nat) : string :=
  match l with
  | [] => ""
  | d :: t => String (digit_char d) (digits_str t)
  end.

(** Number::toString (ECMA-262 6.1.6.1.20) for [m / 10^sc], [m > 0]:
    [s] are the significant digits, [n] the decimal exponent. *)
Definition pos_to_string (m : positive) (sc : nat) : string :=
  let r := rdigits (S (Pos.size_nat m)) (Npos m) in
  let s := rev (drop_zeros r) in
  let k := length s in
  let n := (Z.of_nat (length r) - Z.of_nat sc)%Z in
  if (Z.of_nat k <=? n)%Z && (n <=? 21)%Z then
    digits_str (s ++ repeat 0 (Z.to_nat n - k))%list
  else if (0 <? n)%Z && (n <=? 21)%Z then
    digits_str (firstn (Z.to_nat n) s) ++ "." ++ digits_str (skipn (Z.to_nat n) s)
  else if (-6 <? n)%Z && (n <=? 0)%Z then
    "0." ++ digits_str (repeat 0 (Z.to_nat (- n)) ++ s)%list
  else
    let e := (n - 1)%Z in
    let es := (if (e <? 0)%Z then "-" else "+")
                ++ digits_str (digits_of (Z.to_N (Z.abs e))) in
    match s with
    | [d] => digits_str [d] ++ "e" ++ es
    | d :: rest => digits_str [d] ++ "." ++ digits_str rest ++ "e" ++ es
    | [] => "0"
    end.

Definition num_to_string (a : jsnum) : string :=
  match a with
  | NFin (Dec Z0 _) => "0"
  | NFin (Dec (Zpos p) sc) => pos_to_string p sc
  | NFin (Dec (Zneg p) sc) => "-" ++ pos_to_string p sc
  | NInf false => "Infinity"
  | NInf true => "-Infinity"
  | NNaN => "NaN"
  end.

(** ** Characters and strings *)

Definition code (c : ascii) : nat := nat_of_ascii c.

(** [\s] of a regular expression and the characters [String.prototype.trim]
    removes, restricted to the 8-bit range. *)
Definition is_ws (c : ascii) : bool :=
  let n := code c in
  (Nat.eqb (n) 9) || (Nat.eqb (n) 10) || (Nat.eqb (n) 11) || (Nat.eqb (n) 12) || (Nat.eqb (n) 13)
  || (Nat.eqb (n) 32) || (Nat.eqb (n) 160).

(** Line terminators, which [.] does not match. *)
Definition is_line_term (c : ascii) : bool :=
  let n := code c in (Nat.eqb (n) 10) || (Nat.eqb (n) 13).

Definition is_digit (c : ascii) : bool :=
  let n := code c in (Nat.leb 48 n) && (Nat.leb n 57).
Definition is_upper (c : ascii) : bool :=
  let n := code c in (Nat.leb 65 n) && (Nat.leb n 90).
Definition is_lower (c : ascii) : bool :=
  let n := code c in (Nat.leb 97 n) && (Nat.leb n 122).
Definition is_ident_start (c : ascii) : bool :=
  is_upper c || is_lower c || (Nat.eqb (code c) 95).
Definition is_word (c : ascii) : bool := is_ident_start c || is_digit c.
Definition is_quote (c : ascii) : bool := (Nat.eqb (code c) 39) || (Nat.eqb (code c) 34).

(** Case folding of the [i] flag.  Only ASCII letters fold onto the ASCII
    letters the patterns of this file are written with. *)
Definition canon (c : ascii) : nat :=
  if is_lower c then code c - 32 else code c.
Definition ci_eq (a b : ascii) : bool := Nat.eqb (canon a) (canon b).

(** [String.prototype.toLowerCase] on the 8-bit range. *)
Definition lower_char (c : ascii) : ascii :=
  let n := code c in
  if is_upper c || ((Nat.leb 192 n) && (Nat.leb n 222) && negb (Nat.eqb (n) 215))
  then ascii_of_nat (n + 32) else c.

Fixpoint lower (s : string) : string :=
  match s with
  | "" => ""
  | String c t => String (lower_char c) (lower t)
  end.

Fixpoint drop_ws (s : string) : string :=
  match s with
  | String c t => if is_ws c then drop_ws t else s
  | "" => ""
  end.

Fixpoint trim_end (s : string) : string :=
  match s with
  | "" => ""
  | String c t =>
      let t' := trim_end t in
      if String.eqb t' "" && is_ws c then "" else String c t'
  end.

(** [String.prototype.trim] *)
Definition js_trim (s : string) : string := trim_end (drop_ws s).

Fixpoint starts_with (pre s : string) : bool :=
  match pre, s with
  | "", _ => true
  | String a p, String b t => Ascii.eqb a b && starts_with p t
  | _, _ => false
  end.

(** [String.prototype.includes] *)
Fixpoint includes (s sub : string) : bool :=
  starts_with sub s ||
  match s with
  | "" => false
  | String _ t => includes t sub
  end.

(** Case-insensitive literal prefix; the rest of [s] after it. *)
Fixpoint strip_ci (kw s : string) : option string :=
  match kw with
  | "" => Some s
  | String k kt =>
      match s with
      | String c t => if ci_eq k c then strip_ci kt t else None
      | "" => None
      end
  end.

Fixpoint span_digits (s : string) : string * string :=
  match s with
  | String c t =>
      if is_digit c then let (d, r) := span_digits t in (String c d, r)
      else ("", s)
  | "" => ("", "")
  end.

Fixpoint span_word (s : string) : string * string :=
  match s with
  | String c t =>
      if is_word c then let (d, r) := span_word t in (String c d, r)
      else ("", s)
  | "" => ("", "")
  end.

Definition digit_val (c : ascii) : nat := code c - 48.

Fixpoint horner (acc : Z) (s : string) : Z :=
  match s with
  | "" => acc
  | String c t => horner (acc * 10 + Z.of_nat (digit_val c))%Z t
  end.

Fixpoint join (sep : string) (l : list string) : string :=
  match l with
  | [] => ""
  | [x] => x
  | x :: t => x ++ sep ++ join sep t
  end.

(** Decimal string of a natural number (array indices, object keys). *)
Definition nat_to_string (n : nat) : string := digits_str (digits_of (N.of_nat n)).

(** ** Outcomes: a result or a thrown TypeError *)

Inductive outcome (A : Type) :=
| Ret (a : A)
| Exc.
Arguments Ret {A} a.
Arguments Exc {A}.

Definition bind {A B} (m : outcome A) (f : A -> outcome B) : outcome B :=
  match m with
  | Ret a => f a
  | Exc => Exc
  end.

Notation "x <- m ;; k" := (bind m (fun x => k))
  (at level 61, m at next level, right associativity).

(** [l.map(f)] with a callback that may throw: the first exception ends
    the loop. *)
Fixpoint map_out {A B} (f : A -> outcome B) (l : list A) : outcome (list B) :=
  match l with
  | [] => Ret []
  | x :: t => y <- f x ;; ys <- map_out f t ;; Ret (y :: ys)
  end.

(** ** JavaScript values *)

(** [JFun name] stands for the native functions reachable through
    [Object.prototype]; everything else is JSON data. *)
Inductive jsval :=
| JUndef
| JNull
| JBool (b : bool)
| JNum (n : jsnum)
| JStr (s : string)
| JArr (l : list jsval)
| JObj (props : list (string * jsval))
| JFun (name : string).

Fixpoint assoc (k : string) (ps : list (string * jsval)) : option jsval :=
  match ps with
  | [] => None
  | (k', v) :: t => if String.eqb k k' then Some v else assoc k t
  end.

(** Own data property assignment: in place when the key exists, appended
    otherwise. *)
Fixpoint set_assoc (k : string) (v : jsval) (ps : list (string * jsval))
  : list (string * jsval) :=
  match ps with
  | [] => [(k, v)]
  | (k', v') :: t =>
      if String.eqb k k' then (k', v) :: t else (k', v') :: set_assoc k v t
  end.

(** Members of [Object.prototype], seen by a property read on an object
    without an own property of that name.  [__proto__] reads the prototype
    object itself, which has no own enumerable property. *)
Definition proto_prop (k : string) : jsval :=
  if String.eqb k "constructor" then JFun "Object"
  else if String.eqb k "__proto__" then JObj []
  else if existsb (String.eqb k)
    ["hasOwnProperty"; "isPrototypeOf"; "propertyIsEnumerable"; "toString";
     "valueOf"; "toLocaleString"; "__defineGetter__"; "__defineSetter__";
     "__lookupGetter__"; "__lookupSetter__"]
  then JFun k else JUndef.

Definition is_proto_name (k : string) : bool :=
  match proto_prop k with JUndef => false | _ => true end.

(** Canonical array index: digits without a leading zero. *)
Definition index_of (k : string) : option nat :=
  match span_digits k with
  | (String c t as d, "") =>
      if Ascii.eqb c "0"%char && negb (String.eqb t "") then None
      else Some (Z.to_nat (horner 0 d))
  | _ => None
  end.

Definition num_of_nat (n : nat) : jsnum := NFin (Dec (Z.of_nat n) 0).

(** Property read [v[k]].  Reading from [null] or [undefined] throws.
    Of the prototype members of arrays, strings, numbers and booleans only
    [length] and indices are modelled: the code reads no other. *)
Definition get_prop (v : jsval) (k : string) : outcome jsval :=
  match v with
  | JUndef | JNull => Exc
  | JObj ps =>
      match assoc k ps with Some x => Ret x | None => Ret (proto_prop k) end
  | JArr l =>
      if String.eqb k "length" then Ret (JNum (num_of_nat (length l)))
      else match index_of k with
           | Some i => Ret (nth i l JUndef)
           | None => Ret (proto_prop k)
           end
  | JStr s =>
      if String.eqb k "length" then Ret (JNum (num_of_nat (String.length s)))
      else match index_of k with
           | Some i =>
               match String.get i s with
               | Some c => Ret (JStr (String c ""))
               | None => Ret JUndef
               end
           | None => Ret JUndef
           end
  | _ => Ret JUndef
  end.

(** [k in v], for the object values the code applies it to. *)
Definition has_prop (v : jsval) (k : string) : outcome bool :=
  match v with
  | JObj ps =>
      Ret (match assoc k ps with Some _ => true | None => is_proto_name k end)
  | JArr l =>
      Ret (String.eqb k "length" ||
           match index_of k with Some i => Nat.ltb i (length l) | None => is_proto_name k end)
  | JFun _ => Ret false
  | _ => Exc
  end.

Definition truthy (v : jsval) : bool :=
  match v with
  | JUndef | JNull => false
  | JBool b => b
  | JNum n => num_truthy n
  | JStr s => negb (String.eqb s "")
  | _ => true
  end.

(** [a || b] and [a ?? b] *)
Definition js_or (a b : jsval) : jsval := if truthy a then a else b.
Definition js_coalesce (a b : jsval) : jsval :=
  match a with JUndef | JNull => b | _ => a end.

Definition is_object (v : jsval) : bool :=
  match v with JNull | JArr _ | JObj _ => true | _ => false end.
Definition is_string (v : jsval) : bool :=
  match v with JStr _ => true | _ => false end.
Definition is_array (v : jsval) : bool :=
  match v with JArr _ => true | _ => false end.

(** [String(v)] *)
Fixpoint js_to_string (v : jsval) : string :=
  match v with
  | JUndef => "undefined"
  | JNull => "null"
  | JBool b => if b then "true" else "false"
  | JNum n => num_to_string n
  | JStr s => s
  | JArr l =>
      join "," (map (fun x => match x with
                             | JUndef | JNull => ""
                             | _ => js_to_string x
                             end) l)
  | JObj _ => "[object Object]"
  | JFun name => "function " ++ name ++ "() { [native code] }"
  end.

(** [String(v)] as it runs: an object with an own [toString] member
    throws.  In JSON data that member is never callable, so
    OrdinaryToPrimitive goes on to [valueOf], which returns the object
    itself, and a TypeError follows.  An array converts through [join],
    element by element. *)
Fixpoint js_String (v : jsval) : outcome string :=
  match v with
  | JObj ps =>
      match assoc "toString" ps with
      | Some _ => Exc
      | None => Ret "[object Object]"
      end
  | JArr l =>
      parts <- map_out (fun x => match x with
                                 | JUndef | JNull => Ret ""
                                 | _ => js_String x
                                 end) l ;;
      Ret (join "," parts)
  | _ => Ret (js_to_string v)
  end.

(** [Array.prototype.join(sep)] *)
Definition js_join (sep : string) (l : list jsval) : outcome string :=
  parts <- map_out (fun x => match x with
                             | JUndef | JNull => Ret ""
                             | _ => js_String x
                             end) l ;;
  Ret (join sep parts).

(** ** [Number(v)] *)

(** [m / 10^sc * 10^e] *)
Definition scale_exp (m : Z) (sc : nat) (e : Z) : dec :=
  Dec (m * 10 ^ Z.max 0 e) (sc + Z.to_nat (Z.max 0 (- e))).

(** ExponentPart of a StrUnsignedDecimalLiteral, up to the end of the string;
    the empty string is exponent 0. *)
Definition exp_part (s : string) : option Z :=
  match s with
  | "" => Some 0%Z
  | String c r =>
      if Ascii.eqb c "e"%char || Ascii.eqb c "E"%char then
        let '(sg, r') :=
          match r with
          | String "+"%char r' => (1%Z, r')
          | String "-"%char r' => ((-1)%Z, r')
          | _ => (1%Z, r)
          end in
        let (d, rest) := span_digits r' in
        if String.eqb d "" || negb (String.eqb rest "") then None
        else Some (sg * horner 0 d)%Z
      else None
  end.

Definition unsigned_decimal (s : string) : option jsnum :=
  if String.eqb s "Infinity" then Some (NInf false) else
  let (d1, r1) := span_digits s in
  match r1 with
  | String "."%char r2 =>
      let (d2, r3) := span_digits r2 in
      if String.eqb d1 "" && String.eqb d2 "" then None
      else option_map (fun e => NFin (scale_exp (horner 0 (d1 ++ d2)) (String.length d2) e))
                      (exp_part r3)
  | _ =>
      if String.eqb d1 "" then None
      else option_map (fun e => NFin (scale_exp (horner 0 d1) 0 e)) (exp_part r1)
  end.

Definition num_neg (a : jsnum) : jsnum :=
  match a with
  | NFin (Dec m sc) => NFin (Dec (- m) sc)
  | NInf b => NInf (negb b)
  | NNaN => NNaN
  end.

Fixpoint radix_digits (radix : nat) (acc : Z) (s : string) : option Z :=
  match s with
  | "" => Some acc
  | String c t =>
      let n := code c in
      let v := if is_digit c then n - 48
               else if Nat.leb 97 n && Nat.leb n 122 then n - 87
               else if Nat.leb 65 n && Nat.leb n 90 then n - 55
               else 99 in
      if Nat.ltb v radix then radix_digits radix (acc * Z.of_nat radix + Z.of_nat v)%Z t
      else None
  end.

(** NonDecimalIntegerLiteral: 0x, 0o, 0b with at least one digit. *)
Definition non_decimal (s : string) : option jsnum :=
  match s with
  | String "0"%char (String p (String c t)) =>
      let radix := if Ascii.eqb p "x"%char || Ascii.eqb p "X"%char then 16
                   else if Ascii.eqb p "o"%char || Ascii.eqb p "O"%char then 8
                   else if Ascii.eqb p "b"%char || Ascii.eqb p "B"%char then 2
                   else 0 in
      if Nat.eqb radix 0 then None
      else option_map (fun z => NFin (Dec z 0)) (radix_digits radix 0 (String c t))
  | _ => None
  end.

(** StringToNumber (ECMA-262 7.1.4.1.1) *)
Definition str_to_number (s : string) : jsnum :=
  let t := js_trim s in
  if String.eqb t "" then num_zero else
  let r := match t with
           | String "+"%char u => unsigned_decimal u
           | String "-"%char u => option_map num_neg (unsigned_decimal u)
           | _ => match non_decimal t with
                  | Some n => Some n
                  | None => unsigned_decimal t
                  end
           end in
  match r with Some n => n | None => NNaN end.

(** [Number(v)]: objects convert through their string form. *)
Definition to_number (v : jsval) : jsnum :=
  match v with
  | JUndef => NNaN
  | JNull => num_zero
  | JBool b => if b then num_one else num_zero
  | JNum n => n
  | JStr s => str_to_number s
  | JArr _ => str_to_number (js_to_string v)
  | JObj _ | JFun _ => NNaN
  end.

(** ** The regular expressions of [evaluateRuleAgainstTx] *)

(** One match of [/\s+kw\s+/i] at the start of [s]; the rest after it.  The
    first [\s+] can only take the whole blank run (the keyword starts with a
    letter) and the last one is greedy. *)
Definition match_sep (kw s : string) : option string :=
  match s with
  | String c _ =>
      if is_ws c then
        match strip_ci kw (drop_ws s) with
        | Some (String c2 r) => if is_ws c2 then Some (drop_ws (String c2 r)) else None
        | _ => None
        end
      else None
  | "" => None
  end.

(** [s.split(/\s+kw\s+/i)] (ECMA-262 RegExp.prototype[@@split]): the
    leftmost match ends a piece; matching resumes after it. *)
Fixpoint split_fuel (fuel : nat) (kw s : string) : list string :=
  match fuel with
  | O => [s]
  | S f =>
      match s with
      | "" => [""]
      | String c t =>
          match match_sep kw s with
          | Some r => "" :: split_fuel f kw r
          | None =>
              match split_fuel f kw t with
              | p :: ps => String c p :: ps
              | [] => [String c ""]
              end
          end
      end
  end.

Definition js_split_kw (kw s : string) : list string :=
  split_fuel (S (String.length s)) kw s.

Fixpoint drop_last_paren (s : string) : string :=
  match s with
  | "" => ""
  | String c "" => if Ascii.eqb c ")"%char then "" else s
  | String c t => String c (drop_last_paren t)
  end.

(** [clause.replace(/^\(|\)$/g, '')] *)
Definition strip_parens (s : string) : string :=
  drop_last_paren (match s with String "("%char t => t | _ => s end).

Inductive cmpop := OpEq2 | OpEq1 | OpNe | OpLe | OpGe | OpLt | OpGt.

(** [(==|=|!=|<=|>=|<|>)], alternatives in order.  When a two-character
    operator is taken, falling back to its one-character prefix leaves an
    [=] in front of [\s*] and the operand, so that choice never matches:
    the first alternative that reads is the only candidate. *)
Definition read_num_op (s : string) : option (cmpop * string) :=
  match s with
  | String "="%char (String "="%char r) => Some (OpEq2, r)
  | String "="%char r => Some (OpEq1, r)
  | String "!"%char (String "="%char r) => Some (OpNe, r)
  | String "<"%char (String "="%char r) => Some (OpLe, r)
  | String ">"%char (String "="%char r) => Some (OpGe, r)
  | String "<"%char r => Some (OpLt, r)
  | String ">"%char r => Some (OpGt, r)
  | _ => None
  end.

(** [(==|=|!=)] *)
Definition read_str_op (s : string) : option (cmpop * string) :=
  match s with
  | String "="%char (String "="%char r) => Some (OpEq2, r)
  | String "="%char r => Some (OpEq1, r)
  | String "!"%char (String "="%char r) => Some (OpNe, r)
  | _ => None
  end.

(** [\d+(?:\.\d+)?$] and the value [Number] gives the matched text. *)
Definition numeral (s : string) : option dec :=
  let (d1, r1) := span_digits s in
  if String.eqb d1 "" then None else
  match r1 with
  | "" => Some (Dec (horner 0 d1) 0)
  | String "."%char r2 =>
      let (d2, r3) := span_digits r2 in
      if String.eqb d2 "" || negb (String.eqb r3 "") then None
      else Some (Dec (horner 0 (d1 ++ d2)) (String.length d2))
  | _ => None
  end.

(** [/^amount\s*(==|=|!=|<=|>=|<|>)\s*(\d+(?:\.\d+)?)$/i] *)
Definition match_amount_exact (c : string) : option (cmpop * dec) :=
  match strip_ci "amount" c with
  | Some r =>
      match read_num_op (drop_ws r) with
      | Some (op, r2) => option_map (pair op) (numeral (drop_ws r2))
      | None => None
      end
  | None => None
  end.

(** The last character of a string and what precedes it. *)
Fixpoint split_last (s : string) : option (string * ascii) :=
  match s with
  | "" => None
  | String c "" => Some ("", c)
  | String c t =>
      match split_last t with
      | Some (u, l) => Some (String c u, l)
      | None => None
      end
  end.

Fixpoint no_line_term (s : string) : bool :=
  match s with
  | "" => true
  | String c t => negb (is_line_term c) && no_line_term t
  end.

(** [/^([a-zA-Z_][a-zA-Z0-9_]* )\s*(==|=|!=)\s*(Q)(.* )\3$/i] (spaces added
    before the closing parentheses of the groups), where [Q] is
    the class of the single and the double quote: field, operator and the
    text between the quotes. *)
Definition match_field_cmp (c : string) : option (string * cmpop * string) :=
  match c with
  | String h _ =>
      if is_ident_start h then
        let (field, r) := span_word c in
        match read_str_op (drop_ws r) with
        | Some (op, r2) =>
            match drop_ws r2 with
            | String q body =>
                if is_quote q then
                  match split_last body with
                  | Some (v, l) =>
                      if Ascii.eqb l q && no_line_term v then Some (field, op, v) else None
                  | None => None
                  end
                else None
            | "" => None
            end
        | None => None
        end
      else None
  | "" => None
  end.

(** [amount\s*>\s*(\d+(?:\.\d+)?)] at the start of [s] (case-insensitive). *)
Definition loose_at (s : string) : option dec :=
  match strip_ci "amount" s with
  | Some r =>
      match drop_ws r with
      | String ">"%char r2 =>
          let (d1, r3) := span_digits (drop_ws r2) in
          if String.eqb d1 "" then None else
          match r3 with
          | String "."%char r4 =>
              let (d2, _) := span_digits r4 in
              if String.eqb d2 "" then Some (Dec (horner 0 d1) 0)
              else Some (Dec (horner 0 (d1 ++ d2)) (String.length d2))
          | _ => Some (Dec (horner 0 d1) 0)
          end
      | _ => None
      end
  | None => None
  end.

(** [/amount\s*>\s*(\d+(?:\.\d+)?)/i]: the leftmost match. *)
Fixpoint match_amount_loose (s : string) : option dec :=
  match loose_at s with
  | Some d => Some d
  | None =>
      match s with
      | String _ t => match_amount_loose t
      | "" => None
      end
  end.

(** ** [evaluateRuleAgainstTx] *)

(** [Number(tx.amount || 0)] *)
Definition tx_amount (tx : jsval) : outcome jsnum :=
  a <- get_prop tx "amount" ;;
  Ret (to_number (js_or a (JNum num_zero))).

Definition num_op_holds (op : cmpop) (a b : jsnum) : bool :=
  match op with
  | OpEq2 | OpEq1 => num_seq a b
  | OpNe => negb (num_seq a b)
  | OpLt => num_lt a b
  | OpLe => num_le a b
  | OpGt => num_gt a b
  | OpGe => num_ge a b
  end.

(** One pass of the clause loop: each [break] returns the current [andOk],
    each [continue] goes on with the next clause. *)
Fixpoint and_loop (tx : jsval) (andOk : bool) (clauses : list string)
  : outcome bool :=
  match clauses with
  | [] => Ret andOk
  | clause :: rest =>
      let c := js_trim (strip_parens clause) in
      match match_amount_exact c with
      | Some (op, val) =>
          aval <- tx_amount tx ;;
          let andOk := andOk && num_op_holds op aval (NFin val) in
          if negb andOk then Ret andOk else and_loop tx andOk rest
      | None =>
          match match_field_cmp c with
          | Some (field, op, val) =>
              x <- get_prop tx field ;;
              let fval := js_to_string (js_coalesce x (JStr "")) in
              let andOk :=
                match op with
                | OpEq2 | OpEq1 => andOk && String.eqb fval val
                | OpNe => andOk && negb (String.eqb fval val)
                | _ => false
                end in
              if negb andOk then Ret andOk else and_loop tx andOk rest
          | None =>
              match match_amount_loose c with
              | Some val =>
                  aval <- tx_amount tx ;;
                  if negb (num_gt aval (NFin val)) then Ret false
                  else and_loop tx andOk rest
              | None => Ret false
              end
          end
      end
  end.

Fixpoint or_loop (tx : jsval) (orParts : list string) : outcome bool :=
  match orParts with
  | [] => Ret false
  | orPart :: rest =>
      andOk <- and_loop tx true (map js_trim (js_split_kw "and" orPart)) ;;
      if andOk then Ret true else or_loop tx rest
  end.

Definition evaluateRuleAgainstTx (rule tx : jsval) : outcome bool :=
  c <- (if truthy rule then get_prop rule "condition" else Ret rule) ;;
  let cond := js_or c (JStr "") in
  if negb (truthy cond) then Ret false else
  s <- js_String cond ;;
  let s := js_trim s in
  or_loop tx (map js_trim (js_split_kw "or" s)).

(** ** Own property order and [JSON.stringify] *)

Fixpoint insert_idx {A} (p : nat * (string * A)) (l : list (nat * (string * A)))
  : list (nat * (string * A)) :=
  match l with
  | [] => [p]
  | q :: t => if Nat.leb (fst p) (fst q) then p :: l else q :: insert_idx p t
  end.

(** OrdinaryOwnPropertyKeys: array-index keys ascending, then the other
    keys in insertion order ([Object.keys], [for-in], [JSON.stringify]). *)
Definition ordered_props {A} (ps : list (string * A)) : list (string * A) :=
  let idx := fold_right (fun kv acc =>
                match index_of (fst kv) with
                | Some i => insert_idx (i, kv) acc
                | None => acc
                end) [] ps in
  map snd idx ++ filter (fun kv => match index_of (fst kv) with
                                   | Some _ => false
                                   | None => true
                                   end) ps.

Definition dq : string := String (ascii_of_nat 34) "".
Definition bs : ascii := ascii_of_nat 92.

Definition hex_digit (n : nat) : ascii :=
  if Nat.ltb n 10 then digit_char n else ascii_of_nat (87 + n).

(** QuoteJSONString, one character. *)
Definition quote_char (c : ascii) : string :=
  let n := code c in
  if Nat.eqb n 8 then String bs "b"
  else if Nat.eqb n 9 then String bs "t"
  else if Nat.eqb n 10 then String bs "n"
  else if Nat.eqb n 12 then String bs "f"
  else if Nat.eqb n 13 then String bs "r"
  else if Nat.eqb n 34 then String bs dq
  else if Nat.eqb n 92 then String bs (String bs "")
  else if Nat.ltb n 32 then
    String bs (String "u"%char (String "0"%char (String "0"%char
      (String (hex_digit (n / 16)) (String (hex_digit (n mod 16)) "")))))
  else String c "".

Fixpoint quote_body (s : string) : string :=
  match s with
  | "" => ""
  | String c t => quote_char c ++ quote_body t
  end.

Definition json_quote (s : string) : string := dq ++ quote_body s ++ dq.

Definition num_finite (n : jsnum) : bool :=
  match n with NFin _ => true | _ => false end.

(** SerializeJSONProperty; [None] is [undefined]. *)
Fixpoint json_stringify (v : jsval) : option string :=
  match v with
  | JUndef | JFun _ => None
  | JNull => Some "null"
  | JBool b => Some (if b then "true" else "false")
  | JNum n => Some (if num_finite n then num_to_string n else "null")
  | JStr s => Some (json_quote s)
  | JArr l =>
      Some ("[" ++ join "," (map (fun x => match json_stringify x with
                                           | Some t => t
                                           | None => "null"
                                           end) l) ++ "]")
  | JObj ps =>
      let fix members (ps : list (string * jsval)) : list (string * option string) :=
        match ps with
        | [] => []
        | (k, x) :: t => (k, json_stringify x) :: members t
        end in
      let parts := flat_map (fun kt => match snd kt with
                                       | Some t => [json_quote (fst kt) ++ ":" ++ t]
                                       | None => []
                                       end) (ordered_props (members ps)) in
      Some ("{" ++ join "," parts ++ "}")
  end.

(** ** [applyPolicyToRows] *)

(** [{ compliant, violated_rules: violated, reason: violated.join('; ') }];
    the join runs outside the [try] of the rule loop. *)
Definition verdict (compliant : bool) (violated : list jsval) : outcome jsval :=
  reason <- js_join "; " violated ;;
  Ret (JObj [("compliant", JBool compliant);
             ("violated_rules", JArr violated);
             ("reason", JStr reason)]).

(** The verdict of the branch without rules. *)
Definition verdict_compliant : jsval :=
  JObj [("compliant", JBool true); ("violated_rules", JArr []); ("reason", JStr "")].

(** [{ ...r, policy }] *)
Definition with_policy (r : list (string * jsval)) (policy : jsval) : jsval :=
  JObj (set_assoc "policy" policy r).

(** [rule.name || rule.violation_message || JSON.stringify(rule)] *)
Definition rule_label (rule : jsval) : outcome jsval :=
  n <- get_prop rule "name" ;;
  if truthy n then Ret n else
  m <- get_prop rule "violation_message" ;;
  if truthy m then Ret m else
  Ret (match json_stringify rule with Some s => JStr s | None => JUndef end).

(** The rule loop of one row; an exception of one rule is caught and the
    rule skipped. *)
Fixpoint violated_rules (rules : list jsval) (r : jsval) : list jsval :=
  match rules with
  | [] => []
  | rule :: rest =>
      let here :=
        match evaluateRuleAgainstTx rule r with
        | Ret true => match rule_label rule with Ret x => [x] | Exc => [] end
        | _ => []
        end in
      here ++ violated_rules rest r
  end.

(** [doc] is the value of [this.rulesDoc()]. *)
Definition applyPolicyToRows (doc : jsval) (rows : list (list (string * jsval)))
  : outcome (list jsval) :=
  rules <- (if truthy doc then get_prop doc "rules" else Ret JUndef) ;;
  match rules with
  | JArr ((_ :: _) as rs) =>
      map_out (fun r =>
                 let violated := violated_rules rs (JObj r) in
                 policy <- verdict (match violated with [] => true | _ => false end) violated ;;
                 Ret (with_policy r policy))
              rows
  | _ => Ret (map (fun r => with_policy r verdict_compliant) rows)
  end.

(** ** [synthRuleCondition] *)

(** [===].  The code compares an object only with the very value it read
    it from, where identity and structural equality agree. *)
Fixpoint js_strict_eq (a b : jsval) : bool :=
  match a, b with
  | JUndef, JUndef | JNull, JNull => true
  | JBool x, JBool y => Bool.eqb x y
  | JNum x, JNum y => num_seq x y
  | JStr x, JStr y => String.eqb x y
  | JFun x, JFun y => String.eqb x y
  | JArr l1, JArr l2 =>
      (fix go (l1 l2 : list jsval) : bool :=
         match l1, l2 with
         | [], [] => true
         | x :: t1, y :: t2 => js_strict_eq x y && go t1 t2
         | _, _ => false
         end) l1 l2
  | JObj p1, JObj p2 =>
      (fix go (p1 p2 : list (string * jsval)) : bool :=
         match p1, p2 with
         | [], [] => true
         | (k1, x) :: t1, (k2, y) :: t2 =>
             String.eqb k1 k2 && js_strict_eq x y && go t1 t2
         | _, _ => false
         end) p1 p2
  | _, _ => false
  end.

(** [\bkw\b] (case-insensitive) somewhere in [s]; [prev] tells whether the
    character before [s] is a word character. *)
Fixpoint has_word (kw : string) (prev : bool) (s : string) : bool :=
  (negb prev &&
   match strip_ci kw s with
   | Some (String c _) => negb (is_word c)
   | Some "" => true
   | None => false
   end)
  || match s with
     | String c t => has_word kw (is_word c) t
     | "" => false
     end.

Fixpoint has_cmp_char (s : string) : bool :=
  match s with
  | "" => false
  | String c t =>
      Ascii.eqb c ">"%char || Ascii.eqb c "<"%char || Ascii.eqb c "="%char
      || has_cmp_char t
  end.

(** [/[><=]|\band\b|\bor\b|==|!=/i.test(s)]; the last two alternatives
    contain [=] and add nothing to the first. *)
Definition looks_like_code (s : string) : bool :=
  has_cmp_char s || has_word "and" false s || has_word "or" false s.

(** [`category == '${cat}' and amount > ${thr}`]; the conversion of [cat]
    can throw. *)
Definition synth_template (cat : jsval) (thr : jsnum) : outcome string :=
  c <- js_String cat ;;
  Ret ("category == '" ++ c ++ "' and amount > " ++ num_to_string thr).

Definition synthRuleCondition (r : jsval) : outcome jsval :=
  let attempt : outcome (option jsval) :=
    early <- (if truthy r then
                c <- get_prop r "condition" ;;
                if truthy c then
                  match c with
                  | JStr s => Ret (if looks_like_code (js_trim s) then Some c else None)
                  | _ => Ret None
                  end
                else Ret None
              else Ret None) ;;
    match early with
    | Some c => Ret (Some c)
    | None =>
        if truthy r then
          th <- get_prop r "threshold" ;;
          match th with
          | JUndef | JNull => Ret None
          | _ =>
              cat <- get_prop r "category" ;;
              if truthy cat then
                let thr := to_number th in
                if num_isNaN thr then Ret None
                else s <- synth_template cat thr ;; Ret (Some (JStr s))
              else Ret None
          end
        else Ret None
    end in
  match attempt with
  | Ret (Some v) => Ret v
  | _ => get_prop r "condition"
  end.

(** The synthesis step of [normalizeParserResponse] on one rule [rr]: the
    new value of [rr] after [rr.condition = synthesized]. *)
Definition synth_in_place (rr : jsval) : outcome jsval :=
  c <- get_prop rr "condition" ;;
  if negb (truthy c) || is_string c then
    synthesized <- synthRuleCondition rr ;;
    c' <- get_prop rr "condition" ;;
    if truthy synthesized && negb (js_strict_eq synthesized c') then
      match rr with
      | JObj ps => Ret (JObj (set_assoc "condition" synthesized ps))
      | _ => Ret rr
      end
    else Ret rr
  else Ret rr.

Fixpoint synth_all (rules : list jsval) : outcome (list jsval) :=
  match rules with
  | [] => Ret []
  | rr :: t => rr' <- synth_in_place rr ;; t' <- synth_all t ;; Ret (rr' :: t')
  end.

(** ** [JSON.parse] *)

Definition is_jws (c : ascii) : bool :=
  let n := code c in
  Nat.eqb n 9 || Nat.eqb n 10 || Nat.eqb n 13 || Nat.eqb n 32.

Fixpoint skip_jws (s : string) : string :=
  match s with
  | String c t => if is_jws c then skip_jws t else s
  | "" => ""
  end.

Definition hex_val (c : ascii) : option nat :=
  let n := code c in
  if is_digit c then Some (n - 48)
  else if Nat.leb 97 n && Nat.leb n 102 then Some (n - 87)
  else if Nat.leb 65 n && Nat.leb n 70 then Some (n - 55)
  else None.

(** The body of a JSON string after its opening quote; the string and the
    rest after the closing quote.  A [\u] escape beyond the 8-bit range has
    no character in this model and is refused. *)
Fixpoint json_string_body (s : string) : option (string * string) :=
  match s with
  | "" => None
  | String c t =>
      let n := code c in
      if Nat.eqb n 34 then Some ("", t)
      else if Nat.ltb n 32 then None
      else if Nat.eqb n 92 then
        match t with
        | String e t' =>
            let simple (x : ascii) :=
              match json_string_body t' with
              | Some (u, r) => Some (String x u, r)
              | None => None
              end in
            let m := code e in
            if Nat.eqb m 34 || Nat.eqb m 92 || Nat.eqb m 47 then simple e
            else if Ascii.eqb e "b"%char then simple (ascii_of_nat 8)
            else if Ascii.eqb e "f"%char then simple (ascii_of_nat 12)
            else if Ascii.eqb e "n"%char then simple (ascii_of_nat 10)
            else if Ascii.eqb e "r"%char then simple (ascii_of_nat 13)
            else if Ascii.eqb e "t"%char then simple (ascii_of_nat 9)
            else if Ascii.eqb e "u"%char then
              match t' with
              | String h1 (String h2 (String h3 (String h4 t''))) =>
                  match hex_val h1, hex_val h2, hex_val h3, hex_val h4 with
                  | Some a, Some b, Some c3, Some d =>
                      let v := ((a * 16 + b) * 16 + c3) * 16 + d in
                      if Nat.ltb v 256 then
                        match json_string_body t'' with
                        | Some (u, r) => Some (String (ascii_of_nat v) u, r)
                        | None => None
                        end
                      else None
                  | _, _, _, _ => None
                  end
              | _ => None
              end
            else None
        | "" => None
        end
      else
        match json_string_body t with
        | Some (u, r) => Some (String c u, r)
        | None => None
        end
  end.

Definition json_string (s : string) : option (string * string) :=
  match s with
  | String c t => if Nat.eqb (code c) 34 then json_string_body t else None
  | "" => None
  end.

(** [-?(0|[1-9]\d* )(\.\d+)?([eE][+-]?\d+)?] *)
Definition json_number (s : string) : option (jsnum * string) :=
  let '(neg, s1) := match s with
                    | String "-"%char t => (true, t)
                    | _ => (false, s)
                    end in
  let (d1, r1) := span_digits s1 in
  let int_ok := match d1 with
                | String "0"%char t => String.eqb t ""
                | String _ _ => true
                | "" => false
                end in
  if negb int_ok then None else
  let '(d2, r2, frac_ok) :=
    match r1 with
    | String "."%char t =>
        let (d, r) := span_digits t in (d, r, negb (String.eqb d ""))
    | _ => ("", r1, true)
    end in
  if negb frac_ok then None else
  let '(e, r3, exp_ok) :=
    match r2 with
    | String x t =>
        if Ascii.eqb x "e"%char || Ascii.eqb x "E"%char then
          let '(sg, t1) := match t with
                           | String "+"%char u => (1%Z, u)
                           | String "-"%char u => ((-1)%Z, u)
                           | _ => (1%Z, t)
                           end in
          let (d, r) := span_digits t1 in
          ((sg * horner 0 d)%Z, r, negb (String.eqb d ""))
        else (0%Z, r2, true)
    | "" => (0%Z, r2, true)
    end in
  if negb exp_ok then None else
  let n := NFin (scale_exp (horner 0 (d1 ++ d2)) (String.length d2) e) in
  Some (if neg then num_neg n else n, r3).

Fixpoint json_value (fuel : nat) (s : string) : option (jsval * string) :=
  match fuel with
  | O => None
  | S f =>
      match skip_jws s with
      | String "{"%char r =>
          match skip_jws r with
          | String "}"%char r' => Some (JObj [], r')
          | r1 =>
              (fix members (g : nat) (acc : list (string * jsval)) (r1 : string) :=
                 match g with
                 | O => None
                 | S g' =>
                     match json_string r1 with
                     | Some (k, r2) =>
                         match skip_jws r2 with
                         | String ":"%char r3 =>
                             match json_value f r3 with
                             | Some (v, r4) =>
                                 let acc := set_assoc k v acc in
                                 match skip_jws r4 with
                                 | String ","%char r5 => members g' acc (skip_jws r5)
                                 | String "}"%char r5 => Some (JObj acc, r5)
                                 | _ => None
                                 end
                             | None => None
                             end
                         | _ => None
                         end
                     | None => None
                     end
                 end) f [] r1
          end
      | String "["%char r =>
          match skip_jws r with
          | String "]"%char r' => Some (JArr [], r')
          | r1 =>
              (fix elements (g : nat) (acc : list jsval) (r1 : string) :=
                 match g with
                 | O => None
                 | S g' =>
                     match json_value f r1 with
                     | Some (v, r2) =>
                         match skip_jws r2 with
                         | String ","%char r3 => elements g' (acc ++ [v])%list r3
                         | String "]"%char r3 => Some (JArr (acc ++ [v])%list, r3)
                         | _ => None
                         end
                     | None => None
                     end
                 end) f [] r1
          end
      | String c r as s' =>
          if Nat.eqb (code c) 34 then
            option_map (fun '(u, rest) => (JStr u, rest)) (json_string s')
          else if starts_with "true" s' then Some (JBool true, substring 4 (String.length s') s')
          else if starts_with "false" s' then Some (JBool false, substring 5 (String.length s') s')
          else if starts_with "null" s' then Some (JNull, substring 4 (String.length s') s')
          else option_map (fun '(n, rest) => (JNum n, rest)) (json_number s')
      | "" => None
      end
  end.

(** [JSON.parse(s)]; [None] when it throws. *)
Definition JSON_parse (s : string) : option jsval :=
  match json_value (S (String.length s)) s with
  | Some (v, r) => if String.eqb (skip_jws r) "" then Some v else None
  | None => None
  end.

(** ** [normalizeParserResponse] *)

(** [typeof x === 'object' && ('name' in x || 'condition' in x)] *)
Definition rule_like (x : jsval) : outcome bool :=
  if is_object x then
    b <- has_prop x "name" ;;
    if b then Ret true else has_prop x "condition"
  else Ret false.

(** [Array.isArray(v) && v.length>0 && typeof v[0] === 'object' && (...)] *)
Definition rule_array (v : jsval) : outcome bool :=
  match v with
  | JArr (x :: _) => rule_like x
  | _ => Ret false
  end.

(** [Object.keys(v)] paired with [v[k]]. *)
Definition own_entries (v : jsval) : list (string * jsval) :=
  match v with
  | JObj ps => ordered_props ps
  | JArr l => combine (map nat_to_string (seq 0 (length l))) l
  | _ => []
  end.

(** The loop [for(const k of Object.keys(p)) { ... break; }]: the first key
    whose value is an array of rule-like objects. *)
Fixpoint first_rule_key (es : list (string * jsval))
  : outcome (option (string * jsval)) :=
  match es with
  | [] => Ret None
  | (k, v) :: t =>
      b <- rule_array v ;;
      if b then Ret (Some (k, v)) else first_rule_key t
  end.

(** Where the rules array of the document comes from: the response itself
    ([doc = resp]), one of its keys, the response as an array, or a value
    parsed out of a string.  Only the first three share the rule objects
    with the caller's value. *)
Inductive origin := FromSelf | FromKey (k : string) | FromSelfArray | Fresh.

Definition doc_with_source (rules : jsval) (p : jsval) (k : string) : outcome jsval :=
  src <- get_prop p "source" ;;
  Ret (JObj [("rules", rules); ("source", js_or src (JStr k))]).

(** Shapes (a), (b), (c) tried on the response object. *)
Definition shape_of_response (resp : jsval) : outcome (option (jsval * origin)) :=
  if is_object resp then
    rs <- get_prop resp "rules" ;;
    if is_array rs then Ret (Some (resp, FromSelf)) else
    found <- first_rule_key (own_entries resp) ;;
    match found with
    | Some (k, v) => d <- doc_with_source v resp k ;; Ret (Some (d, FromKey k))
    | None =>
        b <- (if is_array resp then rule_array resp else Ret false) ;;
        if b then Ret (Some (JObj [("rules", resp)], FromSelfArray)) else Ret None
    end
  else Ret None.

(** The string fields [extracted], [output], [text], [content], in order. *)
Definition string_candidates (resp : jsval) : list string :=
  (match resp with JStr s => [s] | _ => [] end)
  ++ (if is_object resp then
        flat_map (fun f => match get_prop resp f with
                           | Ret (JStr s) => [s]
                           | _ => []
                           end) ["extracted"; "output"; "text"; "content"]
      else [])%list.

Fixpoint from_open (s : string) : option string :=
  match s with
  | "" => None
  | String c t => if Ascii.eqb c "{"%char then Some s else from_open t
  end.

Fixpoint upto_close (s : string) : option string :=
  match s with
  | "" => None
  | String c t =>
      match upto_close t with
      | Some u => Some (String c u)
      | None => if Ascii.eqb c "}"%char then Some (String c "") else None
      end
  end.

(** [s.match(/\{[\s\S]*\}/)[0]]: from the first [{] to the last [}]. *)
Definition brace_span (s : string) : option string :=
  match from_open s with
  | Some t => upto_close t
  | None => None
  end.

(** The [try] around the direct [JSON.parse(s)]: the new [doc] and whether
    the candidate loop breaks.  An exception abandons the block. *)
Definition direct_step (s : string) (doc : option jsval) : option jsval * bool :=
  match JSON_parse s with
  | Some p =>
      if truthy p && is_object p then
        match get_prop p "rules" with
        | Ret (JArr _) => (Some p, true)
        | _ =>
            if match p with JArr (x :: _) => is_object x | _ => false end
            then (Some (JObj [("rules", p)]), true)
            else
              match first_rule_key (own_entries p) with
              | Ret (Some (k, v)) =>
                  match doc_with_source v p k with
                  | Ret d => (Some d, false)
                  | Exc => (doc, false)
                  end
              | _ => (doc, false)
              end
        end
      else (doc, false)
  | None => (doc, false)
  end.

(** The [try] around the parse of the brace-delimited substring. *)
Definition substring_step (s : string) (doc : option jsval) : option jsval * bool :=
  match brace_span s with
  | Some m =>
      match JSON_parse m with
      | Some p =>
          if truthy p then
            match get_prop p "rules" with
            | Ret (JArr _) => (Some p, true)
            | _ => if is_array p then (Some (JObj [("rules", p)]), true) else (doc, false)
            end
          else (doc, false)
      | None => (doc, false)
      end
  | None => (doc, false)
  end.

Fixpoint candidate_loop (cands : list string) (doc : option jsval) : option jsval :=
  match cands with
  | [] => doc
  | s :: rest =>
      if String.eqb s "" then candidate_loop rest doc else
      let (doc1, brk1) := direct_step s doc in
      if brk1 then doc1 else
      let (doc2, brk2) := substring_step s doc1 in
      if brk2 then doc2 else candidate_loop rest doc2
  end.

(** The synthesis loop over [doc.rules]; the rules after it and whether
    it threw (a [null] rule), in which case the rules before have already
    been rewritten. *)
Fixpoint synth_loop (rules : list jsval) : list jsval * bool :=
  match rules with
  | [] => ([], false)
  | rr :: t =>
      match synth_in_place rr with
      | Ret rr' => let (t', threw) := synth_loop t in (rr' :: t', threw)
      | Exc => (rr :: t, true)
      end
  end.

Inductive norm_result :=
| NormError (e : string)
| NormDoc (doc : jsval).

Definition replace_rules (doc : jsval) (rules : list jsval) : jsval :=
  match doc with
  | JObj ps => JObj (set_assoc "rules" (JArr rules) ps)
  | _ => doc
  end.

Fixpoint replace_nth (i : nat) (x : jsval) (l : list jsval) : list jsval :=
  match l, i with
  | [], _ => []
  | _ :: t, O => x :: t
  | y :: t, S j => y :: replace_nth j x t
  end.

(** The caller's value after the rules array it shares with the document
    has been rewritten. *)
Definition write_back (resp : jsval) (o : origin) (rules : list jsval) : jsval :=
  match o with
  | FromSelf => replace_rules resp rules
  | FromKey k =>
      match resp with
      | JObj ps => JObj (set_assoc k (JArr rules) ps)
      | JArr l =>
          match index_of k with
          | Some i => JArr (replace_nth i (JArr rules) l)
          | None => resp
          end
      | _ => resp
      end
  | FromSelfArray => JArr rules
  | Fresh => resp
  end.

(** The result ([{doc}] or [{error}], or a thrown exception) together with
    the caller's [resp] after the call. *)
Definition normalizeParserResponse (resp : jsval) : outcome norm_result * jsval :=
  if negb (truthy resp) then (Ret (NormError "empty_response"), resp) else
  match shape_of_response resp with
  | Exc => (Exc, resp)
  | Ret found =>
      let found :=
        match found with
        | Some x => Some x
        | None => option_map (fun d => (d, Fresh))
                             (candidate_loop (string_candidates resp) None)
        end in
      match found with
      | None => (Ret (NormError "no_rules_found_in_response"), resp)
      | Some (doc, o) =>
          match get_prop doc "rules" with
          | Ret (JArr rules) =>
              let (rules', threw) := synth_loop rules in
              ((if threw then Exc else Ret (NormDoc (replace_rules doc rules'))),
               write_back resp o rules')
          | _ => (Ret (NormDoc doc), resp)
          end
      end
  end.

(** ** [alignParsedCategoriesWithDataset] *)

(** [JSON.parse(JSON.stringify(v))] on an object: own properties in key
    order with [undefined] and function members dropped, [undefined] and
    function array elements turned into [null], non-finite numbers into
    [null].  The JSON text of a finite number parses back to that number. *)
Fixpoint json_clone (v : jsval) : jsval :=
  match v with
  | JNum n => if num_finite n then v else JNull
  | JArr l =>
      JArr (map (fun x => match x with
                          | JUndef | JFun _ => JNull
                          | _ => json_clone x
                          end) l)
  | JObj ps =>
      let fix members (ps : list (string * jsval)) : list (string * jsval) :=
        match ps with
        | [] => []
        | (k, x) :: t =>
            match x with
            | JUndef | JFun _ => members t
            | _ => (k, json_clone x) :: members t
            end
        end in
      JObj (ordered_props (members ps))
  | _ => v
  end.

(** [lowerMap]: [lowerMap[c.toLowerCase()] = c] for each category in order.
    An assignment to [__proto__] with a string value does nothing. *)
Definition lower_map (cats : list string) : list (string * jsval) :=
  fold_left (fun m c =>
               let k := lower c in
               if String.eqb k "__proto__" then m else set_assoc k (JStr c) m)
            cats [].

(** [lowerMap[low]] *)
Definition lower_map_get (lm : list (string * jsval)) (low : string) : jsval :=
  match assoc low lm with Some v => v | None => proto_prop low end.

Definition mapCategory (cats : list string) (lm : list (string * jsval)) (v : jsval)
  : outcome jsval :=
  if negb (truthy v) then Ret v else
  s <- js_String v ;;
  let s := js_trim s in
  if String.eqb s "" then Ret v else
  let low := lower s in
  let hit := lower_map_get lm low in
  if truthy hit then Ret hit else
  match find (fun c => includes (lower c) low || includes low (lower c)) cats with
  | Some c => Ret (JStr c)
  | None => Ret v
  end.

Fixpoint span_nonquote (s : string) : string * string :=
  match s with
  | String c t =>
      if is_quote c then ("", s) else let (a, r) := span_nonquote t in (String c a, r)
  | "" => ("", "")
  end.

(** A match of the literal pattern (a quote, non-quote characters, the same
    quote) at the start of [s]: the quote, the literal and the rest. *)
Definition lit_at (s : string) : option (ascii * string * string) :=
  match s with
  | String q t =>
      if is_quote q then
        let (lit, r) := span_nonquote t in
        if String.eqb lit "" then None else
        match r with
        | String q2 r' => if Ascii.eqb q2 q then Some (q, lit, r') else None
        | "" => None
        end
      else None
  | "" => None
  end.

(** The leftmost match: text before it, quote, literal, text after it. *)
Fixpoint first_literal (s : string) : option (string * ascii * string * string) :=
  match lit_at s with
  | Some (q, lit, r) => Some ("", q, lit, r)
  | None =>
      match s with
      | String c t =>
          match first_literal t with
          | Some (pre, q, lit, r) => Some (String c pre, q, lit, r)
          | None => None
          end
      | "" => None
      end
  end.

Fixpoint drop_n (n : nat) (s : string) : string :=
  match n, s with
  | O, _ => s
  | S m, String _ t => drop_n m t
  | S _, "" => ""
  end.

(** The first occurrence of [pat] in [s]: text before and after it. *)
Fixpoint find_first (pat s : string) : option (string * string) :=
  if starts_with pat s then Some ("", drop_n (String.length pat) s) else
  match s with
  | "" => None
  | String c t =>
      match find_first pat t with
      | Some (a, b) => Some (String c a, b)
      | None => None
      end
  end.

(** GetSubstitution for a string pattern (no captures). *)
Fixpoint get_subst (matched pre post repl : string) : string :=
  match repl with
  | String "$"%char (String "$"%char t) => "$" ++ get_subst matched pre post t
  | String "$"%char (String "&"%char t) => matched ++ get_subst matched pre post t
  | String "$"%char (String "`"%char t) => pre ++ get_subst matched pre post t
  | String "$"%char (String "'"%char t) => post ++ get_subst matched pre post t
  | String c t => String c (get_subst matched pre post t)
  | "" => ""
  end.

(** [s.replace(pat, repl)] with a string pattern. *)
Definition js_replace_str (s pat repl : string) : string :=
  match find_first pat s with
  | Some (pre, post) => pre ++ get_subst pat pre post repl ++ post
  | None => s
  end.

Definition set_prop (r : jsval) (k : string) (v : jsval) : jsval :=
  match r with JObj ps => JObj (set_assoc k v ps) | _ => r end.

Definition ch (c : ascii) : string := String c "".

(** The body of [for(const r of out.rules||[])] on one rule. *)
Definition align_rule (cats : list string) (lm : list (string * jsval)) (r : jsval)
  : outcome jsval :=
  cat <- get_prop r "category" ;;
  r <- (if truthy cat then c <- mapCategory cats lm cat ;; Ret (set_prop r "category" c)
        else Ret r) ;;
  cond <- get_prop r "condition" ;;
  match cond with
  | JStr s =>
      if String.eqb s "" then Ret r else
      match first_literal s with
      | Some (_, q, lit, _) =>
          mapped <- mapCategory cats lm (JStr lit) ;;
          if truthy mapped && negb (js_strict_eq mapped (JStr lit)) then
            Ret (set_prop r "condition"
                   (JStr (js_replace_str s (ch q ++ lit ++ ch q)
                                           (ch q ++ js_to_string mapped ++ ch q))))
          else Ret r
      | None => Ret r
      end
  | _ => Ret r
  end.

Fixpoint align_rules (cats : list string) (lm : list (string * jsval)) (rs : list jsval)
  : outcome (list jsval) :=
  match rs with
  | [] => Ret []
  | r :: t => r' <- align_rule cats lm r ;; t' <- align_rules cats lm t ;; Ret (r' :: t')
  end.

Definition alignParsedCategoriesWithDataset (parsed : jsval) (datasetCategories : list jsval)
  : outcome jsval :=
  if negb (truthy parsed) then Ret parsed else
  rs <- get_prop parsed "rules" ;;
  if negb (is_array rs) then Ret parsed else
  cats <- map_out js_String datasetCategories ;;
  let lm := lower_map cats in
  let out := json_clone parsed in
  rules <- get_prop out "rules" ;;
  match js_or rules (JArr []) with
  | JArr l => l' <- align_rules cats lm l ;; Ret (replace_rules out l')
  | _ => Ret out
  end.

(** ** Statement helpers *)

(** What a single clause of a condition says about a transaction object:
    the three clause forms of [evaluateRuleAgainstTx], tried in order;
    anything else is unsatisfied. *)
Definition clause_sat (tx : list (string * jsval)) (clause : string) : bool :=
  let c := js_trim (strip_parens clause) in
  let amount := match tx_amount (JObj tx) with Ret a => a | Exc => NNaN end in
  match match_amount_exact c with
  | Some (op, val) => num_op_holds op amount (NFin val)
  | None =>
      match match_field_cmp c with
      | Some (field, op, val) =>
          let x := match get_prop (JObj tx) field with Ret x => x | Exc => JUndef end in
          let fval := js_to_string (js_coalesce x (JStr "")) in
          match op with
          | OpEq2 | OpEq1 => String.eqb fval val
          | OpNe => negb (String.eqb fval val)
          | _ => false
          end
      | None =>
          match match_amount_loose c with
          | Some val => num_gt amount (NFin val)
          | None => false
          end
      end
  end.

(** A clause none of the three forms recognises. *)
Definition unknown_clause (clause : string) : bool :=
  let c := js_trim (strip_parens clause) in
  match match_amount_exact c, match_field_cmp c, match_amount_loose c with
  | None, None, None => true
  | _, _, _ => false
  end.

(** The reading of the spec: split on the literal token [tok], in any case. *)
Fixpoint split_token_fuel (fuel : nat) (tok s : string) : list string :=
  match fuel with
  | O => [s]
  | S f =>
      match s with
      | "" => [""]
      | String c t =>
          match strip_ci tok s with
          | Some r => "" :: split_token_fuel f tok r
          | None =>
              match split_token_fuel f tok t with
              | p :: ps => String c p :: ps
              | [] => [String c ""]
              end
          end
      end
  end.

Definition split_token (tok s : string) : list string :=
  split_token_fuel (S (String.length s)) tok s.

(** Some OR-group, split on the token [" or "], has all its clauses, split
    on the token [" and "], satisfied. *)
Definition spec_evaluate (tx : list (string * jsval)) (cond : string) : bool :=
  existsb (fun g => forallb (clause_sat tx) (map js_trim (split_token " and " g)))
          (map js_trim (split_token " or " (js_trim cond))).

(** No blank-delimited [kw] (in any case) starts anywhere in [s]. *)
Fixpoint sep_free (kw s : string) : bool :=
  match s with
  | "" => true
  | String _ t =>
      match match_sep kw s with Some _ => false | None => sep_free kw t end
  end.



(** [String(tx.category ?? '')] and [Number(tx.amount || 0)]. *)
Definition tx_field_string (tx : list (string * jsval)) (f : string) : string :=
  js_to_string (js_coalesce (match assoc f tx with Some v => v | None => proto_prop f end)
                            (JStr "")).
Definition tx_amount_num (tx : list (string * jsval)) : jsnum :=
  to_number (js_or (match assoc "amount" tx with Some v => v | None => JUndef end)
                   (JNum num_zero)).

(** An OR-group: all its clauses hold. *)
Definition group_sat (tx : list (string * jsval)) (g : string) : bool :=
  forallb (clause_sat tx) (map js_trim (js_split_kw "and" g)).

(** A rule object whose condition is a string the synthesiser's test
    already reads as code. *)
Definition checkable_rule (r : jsval) : bool :=
  match r with
  | JObj rp =>
      match assoc "condition" rp with
      | Some (JStr s) => looks_like_code (js_trim s)
      | _ => false
      end
  | _ => false
  end.



(** [[a-zA-Z_][a-zA-Z0-9_]*]: a field name the clause pattern accepts. *)
Fixpoint all_word (s : string) : bool :=
  match s with
  | "" => true
  | String c t => is_word c && all_word t
  end.

Definition is_ident (f : string) : bool :=
  match f with
  | String h t => is_ident_start h && all_word t
  | "" => false
  end.

(** [tx[f]] is absent (and not inherited from [Object.prototype]),
    [undefined] or [null]. *)
Definition absent_like (tx : list (string * jsval)) (f : string) : Prop :=
  (assoc f tx = None /\ is_proto_name f = false)
  \/ assoc f tx = Some JUndef \/ assoc f tx = Some JNull.

(** The character [c] does not occur in [s]. *)
Fixpoint lacks (c : ascii) (s : string) : bool :=
  match s with
  | "" => true
  | String d t => negb (Ascii.eqb d c) && lacks c t
  end.

(** Every character of [s] is a digit or a dot. *)
Fixpoint num_chars (s : string) : bool :=
  match s with
  | "" => true
  | String c t => (is_digit c || Ascii.eqb c "."%char) && num_chars t
  end.

(** No blank-delimited [kw] starts at a character of [a], in the text
    [a ++ r]. *)
Fixpoint sep_free_in (kw a r : string) : bool :=
  match a with
  | "" => true
  | String _ t =>
      match match_sep kw (a ++ r) with Some _ => false | None => sep_free_in kw t r end
  end.

(** A value [JSON.parse] can produce, with no array-index key in any
    object: no [undefined] or function, finite numbers only. *)
Fixpoint json_plain (v : jsval) : bool :=
  match v with
  | JUndef | JFun _ => false
  | JNum n => num_finite n
  | JArr l => forallb json_plain l
  | JObj ps =>
      forallb (fun kv => match index_of (fst kv) with
                         | Some _ => false
                         | None => json_plain (snd kv)
                         end) ps
  | _ => true
  end.

(** A value [JSON.parse] can produce: no [undefined] or function, finite
    numbers only. *)
Fixpoint json_data (v : jsval) : bool :=
  match v with
  | JUndef | JFun _ => false
  | JNum n => num_finite n
  | JArr l => forallb json_data l
  | JObj ps => forallb (fun kv => json_data (snd kv)) ps
  | _ => true
  end.

(** Keys in own-property order: array indices ascending from [lo], then
    other keys only. *)
Fixpoint idx_sorted_from {A} (lo : nat) (ps : list (string * A)) : bool :=
  match ps with
  | [] => true
  | (k, _) :: t =>
      match index_of k with
      | Some i => Nat.leb lo i && idx_sorted_from i t
      | None =>
          forallb (fun kv => match index_of (fst kv) with Some _ => false | None => true end) t
      end
  end.

(** JSON data whose objects list their keys in own-property order: what
    [JSON.parse(JSON.stringify(v))] returns. *)
Fixpoint json_canon (v : jsval) : bool :=
  match v with
  | JUndef | JFun _ => false
  | JNum n => num_finite n
  | JArr l => forallb json_canon l
  | JObj ps => idx_sorted_from 0 ps && forallb (fun kv => json_canon (snd kv)) ps
  | _ => true
  end.

(** The members [json_clone] keeps of an object, each cloned. *)
Fixpoint clone_members (ps : list (string * jsval)) : list (string * jsval) :=
  match ps with
  | [] => []
  | (k, x) :: t =>
      match x with
      | JUndef | JFun _ => clone_members t
      | _ => (k, json_clone x) :: clone_members t
      end
  end.

(** The array-index part of [ordered_props], each entry with its index. *)
Definition idx_part {A} (ps : list (string * A)) : list (nat * (string * A)) :=
  fold_right (fun kv acc =>
                match index_of (fst kv) with
                | Some i => insert_idx (i, kv) acc
                | None => acc
                end) [] ps.

(** Entries of [idx_part] from [lo] on: indices ascending, each the index
    of its key. *)
Fixpoint idx_good {A} (lo : nat) (l : list (nat * (string * A))) : bool :=
  match l with
  | [] => true
  | (i, kv) :: t =>
      Nat.leb lo i
      && match index_of (fst kv) with Some j => Nat.eqb i j | None => false end
      && idx_good i t
  end.

(** The literal pattern matches at no character of [a], in the text
    [a ++ r]. *)
Fixpoint lit_free_in (a r : string) : bool :=
  match a with
  | "" => true
  | String _ t =>
      match lit_at (a ++ r) with Some _ => false | None => lit_free_in t r end
  end.

(** A name whose trimmed lower-case form reads no member of
    [Object.prototype] from [lowerMap]. *)
Definition proto_free (s : string) : bool := negb (is_proto_name (lower (js_trim s))).

(** Dataset categories: distinct ignoring case, trimmed, free of quotes and
    of [$], and none lower-cases to a member name of [Object.prototype]. *)
Definition cats_ok (cats : list string) : Prop :=
  NoDup (map lower cats) /\
  Forall (fun c => js_trim c = c /\ is_proto_name (lower c) = false /\
                   lacks "'"%char c = true /\ lacks (ascii_of_nat 34) c = true /\
                   lacks "$"%char c = true) cats.

(** A rule whose truthy category, as [String] converts it, and the first
    quoted literal of its condition are [proto_free]. *)
Definition rule_names_ok (r : jsval) : Prop :=
  match r with
  | JObj rp =>
      (forall v s, assoc "category" rp = Some v -> truthy v = true ->
                   js_String v = Ret s -> proto_free s = true) /\
      (forall s pre q lit post, assoc "condition" rp = Some (JStr s) ->
                 first_literal s = Some (pre, q, lit, post) -> proto_free lit = true)
  | _ => True
  end.

(** The second half of [align_rule]: the rewrite of the first quoted
    literal of the condition, on the rule after its category is mapped. *)
Definition align_rule_condition (cats : list string) (lm : list (string * jsval))
  (r : jsval) : outcome jsval :=
  cond <- get_prop r "condition" ;;
  match cond with
  | JStr s =>
      if String.eqb s "" then Ret r else
      match first_literal s with
      | Some (_, q, lit, _) =>
          mapped <- mapCategory cats lm (JStr lit) ;;
          if truthy mapped && negb (js_strict_eq mapped (JStr lit)) then
            Ret (set_prop r "condition"
                   (JStr (js_replace_str s (ch q ++ lit ++ ch q)
                                           (ch q ++ js_to_string mapped ++ ch q))))
          else Ret r
      | None => Ret r
      end
  | _ => Ret r
  end.

(** A rule on which the body of the alignment loop throws: [null],
    [undefined], or an object whose truthy [category] [String] cannot
    convert. *)
Definition align_rule_throws (r : jsval) : Prop :=
  r = JNull \/ r = JUndef \/
  exists rp v, r = JObj rp /\ assoc "category" rp = Some v /\ truthy v = true /\
               js_String v = Exc.

(** ** Extra statement helpers for the policy engine *)

(** The rules [applyPolicyToRows] iterates over: [doc.rules] when [doc] is
    truthy and that member is an array, none otherwise. *)
Definition doc_rules (doc : jsval) : list jsval :=
  match (if truthy doc then get_prop doc "rules" else Ret JUndef) with
  | Ret (JArr rs) => rs
  | _ => []
  end.

(** The rules of [rs] whose evaluation against the row returns true. *)
Definition rule_hits (rs : list jsval) (r : list (string * jsval)) : list jsval :=
  filter (fun rule => match evaluateRuleAgainstTx rule (JObj r) with
                      | Ret true => true
                      | _ => false
                      end) rs.

(** The operators of the exact amount clause [(==|=|!=|<=|>=|<|>)] with
    the comparison each one selects. *)
Definition amount_ops : list (string * cmpop) :=
  [("==", OpEq2); ("=", OpEq1); ("!=", OpNe); ("<=", OpLe); (">=", OpGe);
   ("<", OpLt); (">", OpGt)].

(** A document slot of the normalizer that, when filled, holds an object
    whose own [rules] member is an array. *)
Definition has_rules_array (doc : option jsval) : Prop :=
  forall d, doc = Some d -> exists ps rs, d = JObj ps /\ assoc "rules" ps = Some (JArr rs).

(** ** The completion token budget control

    [selectedMaxTokens] with its [localStorage] entry, [onSliderChange],
    [onNumberChange] and [saveSelectedMaxTokens].  [localStorage] is an
    association list of string values; [storage_ok] tells whether its
    methods run or throw (storage disabled by the browser). *)

Definition storage := list (string * jsval).

Definition max_tokens_key : string := "OPENAI_MAX_COMPLETION_TOKENS".

(** [n / 1000] *)
Definition num_div_1000 (a : jsnum) : jsnum :=
  match a with
  | NFin (Dec m sc) => NFin (Dec m (sc + 3))
  | _ => a
  end.

(** [n * 1000] *)
Definition num_mul_1000 (a : jsnum) : jsnum :=
  match a with
  | NFin (Dec m sc) => NFin (Dec (m * 1000) sc)
  | _ => a
  end.

(** [Math.floor] *)
Definition num_floor (a : jsnum) : jsnum :=
  match a with
  | NFin (Dec m sc) => NFin (Dec (m / 10 ^ Z.of_nat sc) 0)
  | _ => a
  end.

(** [Math.round]: the integer [floor(x + 1/2)]. *)
Definition num_round (a : jsnum) : jsnum :=
  match a with
  | NFin (Dec m sc) => NFin (Dec ((2 * m + 10 ^ Z.of_nat sc) / (2 * 10 ^ Z.of_nat sc)) 0)
  | _ => a
  end.

(** [Math.min(a, b)] and [Math.max(a, b)] *)
Definition num_min (a b : jsnum) : jsnum :=
  match num_cmp a b with
  | Some Gt => b
  | Some _ => a
  | None => NNaN
  end.
Definition num_max (a b : jsnum) : jsnum :=
  match num_cmp a b with
  | Some Lt => b
  | Some _ => a
  | None => NNaN
  end.

(** [Number(v) || 0] *)
Definition num_or_zero (n : jsnum) : jsnum := if num_truthy n then n else num_zero.

Definition int_num (z : Z) : jsnum := NFin (Dec z 0).

(** The field initialiser of [selectedMaxTokens]:
    [Number(localStorage.getItem(KEY) || '')], kept when truthy and not
    NaN, 10000 otherwise or when [localStorage] throws. *)
Definition init_selectedMaxTokens (storage_ok : bool) (st : storage) : jsnum :=
  if storage_ok then
    let item := match assoc max_tokens_key st with Some v => v | None => JNull end in
    let v := to_number (js_or item (JStr "")) in
    if num_truthy v && negb (num_isNaN v) then v else int_num 10000
  else int_num 10000.

(** [saveSelectedMaxTokens]: [localStorage.setItem(KEY, String(n))], a
    throw being caught. *)
Definition saveSelectedMaxTokens (storage_ok : bool) (st : storage) (n : jsnum) : storage :=
  if storage_ok then set_assoc max_tokens_key (JStr (num_to_string n)) st else st.

(** [ev && ev.value !== undefined ? ev.value : ev] *)
Definition slider_value (ev : jsval) : outcome jsval :=
  if truthy ev then
    x <- get_prop ev "value" ;;
    Ret (match x with JUndef => ev | _ => x end)
  else Ret ev.

(** [Math.max(1000, Math.min(50000, Math.floor(n/1000)*1000 || 1000))] *)
Definition slider_tokens (n : jsnum) : jsnum :=
  let x := num_mul_1000 (num_floor (num_div_1000 n)) in
  num_max (int_num 1000) (num_min (int_num 50000) (if num_truthy x then x else int_num 1000)).

(** [onSliderChange(ev)]: the new [selectedMaxTokens] and storage. *)
Definition onSliderChange (storage_ok : bool) (ev : jsval) (st : storage)
  : outcome (jsnum * storage) :=
  v <- slider_value ev ;;
  let n := num_or_zero (to_number v) in
  let t := slider_tokens n in
  Ret (t, saveSelectedMaxTokens storage_ok st t).

(** [onNumberChange(v)]: clamp to [1000, 50000], then
    [Math.round(n/1000)*1000]. *)
Definition onNumberChange (storage_ok : bool) (v : jsval) (st : storage) : jsnum * storage :=
  let n0 := num_or_zero (to_number v) in
  let n1 := if num_lt n0 (int_num 1000) then int_num 1000 else n0 in
  let n2 := if num_gt n1 (int_num 50000) then int_num 50000 else n1 in
  let n3 := num_mul_1000 (num_round (num_div_1000 n2)) in
  (n3, saveSelectedMaxTokens storage_ok st n3).

(** ** Paging of the score table

    [pageSize] is never reassigned.  [totalPages] is
    [Math.max(1, Math.ceil(total / pageSize))] on the non-negative integer
    [total = scores().length], where the ceiling of the exact quotient is
    [(total + pageSize - 1) / pageSize]. *)

Definition pageSize : nat := 50.

Definition totalPages (total : nat) : nat :=
  Nat.max 1 ((total + pageSize - 1) / pageSize).

(** [nextPage] and [prevPage] on [pageIndex]. *)
Definition nextPage (total pageIndex : nat) : nat :=
  if Nat.ltb (pageIndex + 1) (totalPages total) then S pageIndex else pageIndex.

Definition prevPage (pageIndex : nat) : nat :=
  if Nat.ltb 0 pageIndex then pageIndex - 1 else pageIndex.

(** The last step of [pagedScores]: [items.slice(start, start + pageSize)]
    with [start = pageIndex * pageSize], on the (sorted) copy [items]. *)
Definition page_slice {A : Type} (items : list A) (pageIndex : nat) : list A :=
  firstn pageSize (skipn (pageIndex * pageSize) items).

(** A sequence of clicks on the paging buttons, [true] for [nextPage],
    [false] for [prevPage], with [scores()] of length [total] throughout. *)
Fixpoint page_clicks (total pageIndex : nat) (clicks : list bool) : nat :=
  match clicks with
  | [] => pageIndex
  | c :: cs => page_clicks total (if c then nextPage total pageIndex else prevPage pageIndex) cs
  end.

(** ** Column sorting state *)

Inductive sort_dir := Asc | Desc.

Record sort_state := { sortField : string; sortDir : sort_dir }.

(** [sortBy(field)]; [sortField] is [''] when no column is sorted. *)
Definition sortBy (s : sort_state) (field : string) : sort_state :=
  if String.eqb (sortField s) field then
    {| sortField := sortField s;
       sortDir := match sortDir s with Asc => Desc | Desc => Asc end |}
  else {| sortField := field; sortDir := Asc |}.

(** ** Row selection

    [selectedTxnIds] is a [Set<string>]: a duplicate-free list in insertion
    order. *)

Definition set_has (x : string) (s : list string) : bool := existsb (String.eqb x) s.

Definition set_add (x : string) (s : list string) : list string :=
  if set_has x s then s else s ++ [x].

Definition set_delete (x : string) (s : list string) : list string :=
  filter (fun y => negb (String.eqb x y)) s.

(** [toggleSelect(txnId, checked?)]; [None] is an omitted [checked]. *)
Definition toggleSelect (sel : list string) (txnId : string) (checked : option bool)
  : list string :=
  let c := match checked with Some b => b | None => negb (set_has txnId sel) end in
  if c then set_add txnId sel else set_delete txnId sel.

(** [areAllVisibleSelected()] and [toggleSelectAll(checked)], where
    [visible] is the list of [txn_id] of [pagedScores()]. *)
Definition areAllVisibleSelected (sel visible : list string) : bool :=
  match visible with
  | [] => false
  | _ => forallb (fun id => set_has id sel) visible
  end.

Definition toggleSelectAll (sel visible : list string) (checked : bool) : list string :=
  fold_left (fun acc id => if checked then set_add id acc else set_delete id acc) visible sel.

(** ** [normList] of [buildDbQueryFromFilters] *)

Definition normList (v : jsval) : jsval :=
  match v with
  | JArr [] => JUndef
  | JArr _ => v
  | JNull | JUndef => JUndef
  | _ => let s := js_trim (js_to_string v) in
         if String.eqb s "" then JUndef else JArr [JStr s]
  end.

(** ** [applyScoreFilters]

    [Array.prototype.filter] with a callback that may throw. *)
Fixpoint filter_js (p : jsval -> outcome bool) (l : list jsval) : outcome (list jsval) :=
  match l with
  | [] => Ret []
  | x :: t =>
      b <- p x ;;
      t' <- filter_js p t ;;
      Ret (if b then x :: t' else t')
  end.

Definition num_half : jsnum := NFin (Dec 5 1).
Definition num_fifth : jsnum := NFin (Dec 2 1).

(** [i.fraud_score > c], [i.fraud_score <= c]: the score converted by
    [Number] against a number. *)
Definition fraud_high (i : jsval) : outcome bool :=
  f <- get_prop i "fraud_score" ;; Ret (num_gt (to_number f) num_half).
Definition fraud_med (i : jsval) : outcome bool :=
  f <- get_prop i "fraud_score" ;;
  if num_gt (to_number f) num_fifth then
    f' <- get_prop i "fraud_score" ;; Ret (num_le (to_number f') num_half)
  else Ret false.
Definition fraud_low (i : jsval) : outcome bool :=
  f <- get_prop i "fraud_score" ;; Ret (num_le (to_number f) num_fifth).

(** [i.policy && i.policy.compliant === b] *)
Definition policy_is (b : bool) (i : jsval) : outcome bool :=
  p <- get_prop i "policy" ;;
  if truthy p then
    p' <- get_prop i "policy" ;;
    c <- get_prop p' "compliant" ;;
    Ret (js_strict_eq c (JBool b))
  else Ret false.

(** The rows [applyScoreFilters] stores into [scores] (and the table's
    data source), from [originalScores] and the three filter strings. *)
Definition applyScoreFilters (filterCategory filterFraud filterPolicy : string)
  (originalScores : list jsval) : outcome (list jsval) :=
  let items := originalScores in
  items <- (if negb (String.eqb filterCategory "") then
              filter_js (fun i => c <- get_prop i "category" ;;
                                  Ret (js_strict_eq c (JStr filterCategory))) items
            else Ret items) ;;
  items <- (if negb (String.eqb filterFraud "") then
              if String.eqb filterFraud "high" then filter_js fraud_high items
              else if String.eqb filterFraud "med" then filter_js fraud_med items
              else if String.eqb filterFraud "low" then filter_js fraud_low items
              else Ret items
            else Ret items) ;;
  items <- (if negb (String.eqb filterPolicy "") then
              if String.eqb filterPolicy "violation" then filter_js (policy_is false) items
              else if String.eqb filterPolicy "ok" then filter_js (policy_is true) items
              else Ret items
            else Ret items) ;;
  Ret items.

(** ** [formatLogPayload] *)

(** [String.prototype.endsWith] *)
Definition ends_with (suf s : string) : bool :=
  Nat.leb (String.length suf) (String.length s) &&
  String.eqb (substring (String.length s - String.length suf) (String.length suf) s) suf.

(** The body of the [try]; [undefined.length] and [undefined.slice] (from
    [JSON.stringify] of a function) throw. *)
Definition formatLogPayload_body (l : jsval) : outcome string :=
  p <- get_prop l "payload" ;;
  if negb (truthy p) then Ret "" else
  t <- get_prop l "type" ;;
  if ends_with "openai_response_received" (js_to_string t) then
    match json_stringify p with
    | Some s => Ret (if Nat.ltb 1000 (String.length s) then substring 0 1000 s ++ " ..." else s)
    | None => Exc
    end
  else
  rows <- get_prop p "rows" ;;
  if truthy rows then Ret (js_to_string rows) else
  name <- get_prop p "name" ;;
  if truthy name then Ret (js_to_string name) else
  err <- get_prop p "error" ;;
  if truthy err then Ret (js_to_string err) else
  match json_stringify p with
  | Some s => Ret (substring 0 300 s)
  | None => Exc
  end.

Definition formatLogPayload (l : jsval) : string :=
  match formatLogPayload_body l with Ret s => s | Exc => "" end.

(** ** [applyParsedJson] *)

Definition dquote : string := String (ascii_of_nat 34) "".

Definition shape_error : string :=
  "Parsed JSON must be an object with a " ++ dquote ++ "rules" ++ dquote ++ " array".
Definition rule_error : string :=
  "Each rule must have at least " ++ dquote ++ "name" ++ dquote ++ " and " ++
  dquote ++ "condition" ++ dquote ++ " properties".

(** [parsedJsonError]: a message of the code, or the message of a caught
    exception (a [SyntaxError] of [JSON.parse] or a [TypeError]). *)
Inductive json_error := ErrText (msg : string) | ErrThrown.

Record editor_state := { parsedJsonError : option json_error; rulesDoc : jsval }.

(** The rule loop: [false] at the first rule with a falsy [name] or
    [condition]. *)
Fixpoint rules_named (rs : list jsval) : outcome bool :=
  match rs with
  | [] => Ret true
  | r :: t =>
      n <- get_prop r "name" ;;
      if negb (truthy n) then Ret false else
      c <- get_prop r "condition" ;;
      if negb (truthy c) then Ret false else
      rules_named t
  end.

(** The body of the [try]: an error message to set, or the document. *)
Definition applyParsedJson_body (text : string) : outcome (string + jsval) :=
  parsed <- (match JSON_parse text with Some p => Ret p | None => Exc end) ;;
  if negb (truthy parsed) || negb (is_object parsed) then Ret (inl shape_error) else
  rules <- get_prop parsed "rules" ;;
  match rules with
  | JArr rs =>
      ok <- rules_named rs ;;
      if ok then Ret (inr parsed) else Ret (inl rule_error)
  | _ => Ret (inl shape_error)
  end.

Definition applyParsedJson (text : string) (st : editor_state) : editor_state :=
  match applyParsedJson_body text with
  | Ret (inl msg) => {| parsedJsonError := Some (ErrText msg); rulesDoc := rulesDoc st |}
  | Ret (inr parsed) => {| parsedJsonError := None; rulesDoc := parsed |}
  | Exc => {| parsedJsonError := Some ErrThrown; rulesDoc := rulesDoc st |}
  end.

(** ** Statement helpers for the score filters and the JSON editor *)

(** [Number(r.fraud_score)] of a row object. *)
Definition row_fraud (r : list (string * jsval)) : jsnum :=
  to_number (match assoc "fraud_score" r with Some x => x | None => JUndef end).

(** Some rule of [doc.rules] evaluates to true on the row. *)
Definition has_hits (doc : jsval) (r : list (string * jsval)) : bool :=
  match rule_hits (doc_rules doc) r with [] => false | _ => true end.

(** A rule with a truthy [name] and a truthy [condition]. *)
Definition rule_has_name_condition (r : jsval) : Prop :=
  exists n c, get_prop r "name" = Ret n /\ truthy n = true /\
              get_prop r "condition" = Ret c /\ truthy c = true.

(** The editor text parses to the object [ps] whose [rules] member is an
    array of such rules. *)
Definition rules_doc_ok (text : string) (ps : list (string * jsval)) : Prop :=
  JSON_parse text = Some (JObj ps) /\
  exists rs, get_prop (JObj ps) "rules" = Ret (JArr rs) /\ Forall rule_has_name_condition rs.

(* @@DEFS@@ *)

(** * Properties *)

(** ** Sanity checks of the model on concrete inputs *)

Example num_to_string_ex :
  map num_to_string
    [NFin (Dec 12345 2); NFin (Dec 100 0); NFin (Dec 150 2); NFin (Dec 1 6);
     NFin (Dec 1 7); NFin (Dec (10 ^ 21) 0); NFin (Dec (-5) 0); NFin (Dec 15 (22))]
  = ["123.45"; "100"; "1.5"; "0.000001"; "1e-7"; "1e+21"; "-5"; "1.5e-21"].
Proof. vm_compute. reflexivity. Qed.

Example eval_travel_ex :
  let rule := JObj [("condition", JStr "category == 'Travel' and amount > 300")] in
  evaluateRuleAgainstTx rule (JObj [("category", JStr "Travel"); ("amount", JNum (NFin (Dec 301 0)))]) = Ret true /\
  evaluateRuleAgainstTx rule (JObj [("category", JStr "Travel"); ("amount", JNum (NFin (Dec 300 0)))]) = Ret false /\
  evaluateRuleAgainstTx (JObj [("condition", JStr "amount > 100 OR category == 'Alcohol'")])
     (JObj [("category", JStr "Alcohol"); ("amount", JNum (NFin (Dec 50 0)))]) = Ret true /\
  evaluateRuleAgainstTx (JObj [("condition", JStr "(amount >= 10.5) and note != 'x'")])
     (JObj [("amount", JNum (NFin (Dec 105 1)))]) = Ret true.
Proof. vm_compute. repeat split. Qed.

Example normalize_output_ex :
  fst (normalizeParserResponse
         (JObj [("output", JStr ("Sure, here is the JSON: {" ++ dq ++ "rules" ++ dq ++ ":[{"
                  ++ dq ++ "name" ++ dq ++ ":" ++ dq ++ "R1" ++ dq ++ ","
                  ++ dq ++ "condition" ++ dq ++ ":" ++ dq ++ "amount > 50" ++ dq ++ "}]}"))]))
  = Ret (NormDoc (JObj [("rules", JArr [JObj [("name", JStr "R1"); ("condition", JStr "amount > 50")]])])).
Proof. vm_compute. reflexivity. Qed.

Example normalize_synth_ex :
  normalizeParserResponse
    (JObj [("rules", JArr [JObj [("name", JStr "R"); ("threshold", JNum (NFin (Dec 100 0)));
                                 ("category", JStr "Meals")]])])
  = let d := JObj [("rules", JArr [JObj [("name", JStr "R"); ("threshold", JNum (NFin (Dec 100 0)));
                                 ("category", JStr "Meals");
                                 ("condition", JStr "category == 'Meals' and amount > 100")]])] in
    (Ret (NormDoc d), d).
Proof. vm_compute. reflexivity. Qed.

(** ** The evaluator's loops *)

Lemma get_prop_obj (tx : list (string * jsval)) (k : string) :
  get_prop (JObj tx) k = Ret (match assoc k tx with Some x => x | None => proto_prop k end).
Proof. simpl. destruct (assoc k tx); reflexivity. Qed.

Lemma tx_amount_obj (tx : list (string * jsval)) :
  tx_amount (JObj tx) = Ret (tx_amount_num tx).
Proof.
  unfold tx_amount, tx_amount_num. rewrite get_prop_obj. simpl.
  destruct (assoc "amount" tx); reflexivity.
Qed.

(** Against a transaction object the clause loop, started with [andOk]
    true, is the conjunction of its clauses. *)
Lemma and_loop_obj (tx : list (string * jsval)) (cl : list string) :
  and_loop (JObj tx) true cl = Ret (forallb (clause_sat tx) cl).
Proof.
  induction cl as [|a cl IH]; [reflexivity|].
  cbn [and_loop].
  change (forallb (clause_sat tx) (a :: cl)) with (clause_sat tx a && forallb (clause_sat tx) cl).
  unfold clause_sat at 1. rewrite !tx_amount_obj.
  cbn [bind andb negb].
  destruct (match_amount_exact (js_trim (strip_parens a))) as [[op v]|].
  - destruct (num_op_holds op (tx_amount_num tx) (NFin v)); [exact IH|reflexivity].
  - destruct (match_field_cmp (js_trim (strip_parens a))) as [[[f op] v]|].
    + rewrite get_prop_obj. cbn [bind].
      destruct op; cbn [andb negb];
        try (destruct (String.eqb _ v); cbn [negb]; [exact IH|reflexivity]);
        try (destruct (String.eqb _ v); cbn [negb]; [reflexivity|exact IH]);
        reflexivity.
    + destruct (match_amount_loose (js_trim (strip_parens a))) as [v|]; [|reflexivity].
      destruct (num_gt (tx_amount_num tx) (NFin v)); [exact IH|reflexivity].
Qed.

Lemma or_loop_obj (tx : list (string * jsval)) (parts : list string) :
  or_loop (JObj tx) parts = Ret (existsb (group_sat tx) parts).
Proof.
  induction parts as [|p ps IH]; [reflexivity|].
  simpl. rewrite and_loop_obj. simpl. unfold group_sat.
  destruct (forallb _ _); [reflexivity|exact IH].
Qed.

Lemma evaluate_obj_cond (rp tx : list (string * jsval)) (s : string) :
  assoc "condition" rp = Some (JStr s) ->
  evaluateRuleAgainstTx (JObj rp) (JObj tx)
  = Ret (existsb (group_sat tx) (map js_trim (js_split_kw "or" (js_trim s)))).
Proof.
  intros H. unfold evaluateRuleAgainstTx. simpl. rewrite H. cbn [bind].
  unfold js_or. cbn [truthy].
  destruct (String.eqb s "") eqn:E; cbn [negb js_to_string truthy]; rewrite ?E; cbn [negb].
  - apply String.eqb_eq in E. subst s. reflexivity.
  - cbn [js_String js_to_string bind]. apply or_loop_obj.
Qed.

Lemma clause_sat_unknown (tx : list (string * jsval)) (c : string) :
  unknown_clause c = true -> clause_sat tx c = false.
Proof.
  unfold unknown_clause, clause_sat.
  destruct (match_amount_exact (js_trim (strip_parens c))) as [[]|];
    [discriminate|].
  destruct (match_field_cmp (js_trim (strip_parens c))) as [[[]]|]; [discriminate|].
  destruct (match_amount_loose (js_trim (strip_parens c))); [discriminate|reflexivity].
Qed.

Lemma truthy_get_prop (v : jsval) (k : string) :
  truthy v = true -> exists x, get_prop v k = Ret x.
Proof.
  destruct v; simpl; try discriminate; intros _;
    repeat match goal with
           | |- exists x, Ret ?y = Ret x => exists y; reflexivity
           | |- exists x, (if ?b then _ else _) = _ => destruct b
           | |- exists x, match ?m with _ => _ end = _ => destruct m
           end.
Qed.

(** ** C2 *)

(** C2: [evaluateRuleAgainstTx] is total on string conditions.  For any
    rule whose [condition], when it can be read, is a string or undefined
    (absent), evaluation against any transaction object returns a boolean
    and never throws, whatever that string is; a rule object whose
    condition is absent or the empty string gives false.  (A condition
    that is an object with an own [toString] member is outside this: its
    [String(cond)] throws, see [evaluate_condition_object_throws].) *)
Theorem evaluate_total (rule : jsval) (tx : list (string * jsval)) :
  (forall c, get_prop rule "condition" = Ret c -> c = JUndef \/ is_string c = true) ->
  (exists b, evaluateRuleAgainstTx rule (JObj tx) = Ret b) /\
  (forall rp, rule = JObj rp ->
     assoc "condition" rp = None \/ assoc "condition" rp = Some (JStr "") ->
     evaluateRuleAgainstTx rule (JObj tx) = Ret false).
Proof.
  intros Hs. split.
  - unfold evaluateRuleAgainstTx.
    destruct (truthy rule) eqn:T.
    + destruct (truthy_get_prop rule "condition" T) as [c Hc]. rewrite Hc. cbn [bind].
      destruct (Hs c Hc) as [->|Hstr]; [cbn; eauto|].
      destruct c; try discriminate Hstr. unfold js_or. cbn [truthy].
      destruct (String.eqb s "") eqn:E; cbn [negb]; [cbn; eauto|].
      cbn [truthy negb js_String js_to_string bind]. rewrite E. cbn [negb].
      rewrite or_loop_obj. eauto.
    + cbn [bind]. unfold js_or. rewrite T. simpl. eauto.
  - intros rp -> [H|H]; unfold evaluateRuleAgainstTx; simpl; rewrite H; reflexivity.
Qed.

Lemma evaluate_total_witness :
  evaluateRuleAgainstTx (JObj [("name", JStr "R"); ("condition", JStr "amount >> 5")])
    (JObj []) = Ret false /\
  evaluateRuleAgainstTx (JObj [("name", JStr "R")]) (JObj []) = Ret false.
Proof.
  split.
  - destruct (proj1 (evaluate_total (JObj [("name", JStr "R"); ("condition", JStr "amount >> 5")]) []
                       (fun c H => ltac:(cbn in H; injection H as <-; right; reflexivity))))
      as [b Hb].
    rewrite Hb. vm_compute in Hb. symmetry. exact Hb.
  - apply (proj2 (evaluate_total (JObj [("name", JStr "R")]) []
                    (fun c H => ltac:(cbn in H; injection H as <-; left; reflexivity)))
                 [("name", JStr "R")] eq_refl).
    left. reflexivity.
Defined.

(** The boundary of C2: a condition object with an own [toString] member
    makes [String(cond)] throw. *)
Example evaluate_condition_object_throws :
  evaluateRuleAgainstTx (JObj [("condition", JObj [("toString", JStr "x")])]) (JObj []) = Exc.
Proof. reflexivity. Qed.

(** ** C3 *)

(** C3 (counterexample): the code splits on [/\s+or\s+/i], any run of
    blanks around the keyword, not on the token [" or "].  With a tab
    before [or] the code finds two OR-groups and matches, where the token
    split finds one group, whose clause fails. *)
Lemma or_split_tab_cex :
  let cond := ("amount > 100" ++ String (ascii_of_nat 9) "or category == 'Alcohol'")%string in
  let tx := [("amount", JNum (NFin (Dec 50 0))); ("category", JStr "Alcohol")] in
  evaluateRuleAgainstTx (JObj [("condition", JStr cond)]) (JObj tx) = Ret true /\
  spec_evaluate tx cond = false.
Proof. vm_compute. split; reflexivity. Qed.

(** C3: for a rule object whose condition is the string [s], evaluation
    trims [s], splits it on [or] surrounded by runs of blanks (any case)
    into OR-groups, trims each, splits each on [and] the same way into
    trimmed clauses, and returns true iff some OR-group has all of its
    clauses satisfied. *)
Theorem evaluate_or_of_ands (rp tx : list (string * jsval)) (s : string) :
  assoc "condition" rp = Some (JStr s) ->
  evaluateRuleAgainstTx (JObj rp) (JObj tx)
  = Ret (existsb (fun g => forallb (clause_sat tx) (map js_trim (js_split_kw "and" g)))
                 (map js_trim (js_split_kw "or" (js_trim s)))).
Proof. exact (evaluate_obj_cond rp tx s). Qed.

Lemma evaluate_or_of_ands_witness :
  assoc "condition" [("condition", JStr "amount > 100 or category == 'Alcohol'")]
    = Some (JStr "amount > 100 or category == 'Alcohol'") /\
  evaluateRuleAgainstTx (JObj [("condition", JStr "amount > 100 or category == 'Alcohol'")])
    (JObj [("amount", JNum (NFin (Dec 50 0))); ("category", JStr "Alcohol")])
  = Ret true.
Proof.
  split; [reflexivity|].
  rewrite (evaluate_or_of_ands [("condition", JStr "amount > 100 or category == 'Alcohol'")]
             _ "amount > 100 or category == 'Alcohol'" eq_refl).
  vm_compute. reflexivity.
Defined.

(** ** C4 *)

(** C4: a clause that none of the three clause forms recognises makes its
    AND-group fail, whatever the other clauses; and the rule with condition
    [foo ~= bar] gives false, without raising, against every value. *)
Theorem unknown_clause_fails_closed :
  (forall (tx : list (string * jsval)) (pre post : list string) (c : string),
     unknown_clause c = true ->
     and_loop (JObj tx) true (pre ++ c :: post) = Ret false) /\
  (forall tx : jsval,
     evaluateRuleAgainstTx (JObj [("condition", JStr "foo ~= bar")]) tx = Ret false).
Proof.
  split.
  - intros tx pre post c H. rewrite and_loop_obj, forallb_app. cbn [forallb].
    rewrite (clause_sat_unknown tx c H), andb_false_r. reflexivity.
  - intros tx. reflexivity.
Qed.

Lemma unknown_clause_fails_closed_witness :
  unknown_clause "foo ~= bar" = true /\
  and_loop (JObj []) true (["amount > 0"] ++ "foo ~= bar" :: []) = Ret false.
Proof.
  split; [reflexivity|].
  apply (proj1 unknown_clause_fails_closed). reflexivity.
Defined.

(** ** C5 *)

(** C5: with a null rule document, or one whose rules array is empty, every
    row is returned with the policy verdict
    [{compliant: true, violated_rules: [], reason: ''}]. *)
Theorem no_rules_all_compliant (doc : jsval) (rows : list (list (string * jsval))) :
  doc = JNull \/ (exists ps, doc = JObj ps /\ assoc "rules" ps = Some (JArr [])) ->
  applyPolicyToRows doc rows
  = Ret (map (fun r => JObj (set_assoc "policy" verdict_compliant r)) rows).
Proof.
  intros [->|[ps [-> H]]]; unfold applyPolicyToRows; simpl; [reflexivity|].
  rewrite H. reflexivity.
Qed.

Lemma no_rules_all_compliant_witness :
  applyPolicyToRows (JObj [("rules", JArr [])]) [[("amount", JNum num_one)]]
  = Ret [JObj [("amount", JNum num_one); ("policy", verdict_compliant)]].
Proof.
  apply (no_rules_all_compliant (JObj [("rules", JArr [])]) [[("amount", JNum num_one)]]).
  right. exists [("rules", JArr [])]. split; reflexivity.
Defined.

(** ** Decimal digits read back *)












(** ** The normalizer on canonical documents *)

Lemma set_assoc_same (k : string) (v : jsval) (ps : list (string * jsval)) :
  assoc k ps = Some v -> set_assoc k v ps = ps.
Proof.
  induction ps as [|[k' v'] t IH]; simpl; [discriminate|].
  destruct (String.eqb k k') eqn:E; intros H.
  - injection H as ->. reflexivity.
  - rewrite (IH H). reflexivity.
Qed.

Lemma looks_like_code_empty : looks_like_code (js_trim "") = false.
Proof. reflexivity. Qed.

Lemma synth_in_place_checkable (r : jsval) :
  checkable_rule r = true -> synth_in_place r = Ret r.
Proof.
  destruct r as [| | | | | |rp|]; try discriminate. unfold checkable_rule.
  destruct (assoc "condition" rp) as [[| | | |s| | |]|] eqn:Hc; try discriminate.
  intros Hl.
  assert (Hs : String.eqb s "" = false).
  { destruct (String.eqb s "") eqn:E; [|reflexivity].
    apply String.eqb_eq in E. subst s. rewrite looks_like_code_empty in Hl. discriminate. }
  unfold synth_in_place, synthRuleCondition. cbn [get_prop truthy]. rewrite Hc.
  cbn [bind truthy negb is_string orb]. rewrite Hs. cbn [negb]. rewrite Hl.
  cbn [bind truthy js_strict_eq]. rewrite Hs, String.eqb_refl. reflexivity.
Qed.

Lemma synth_loop_checkable (rs : list jsval) :
  forallb checkable_rule rs = true -> synth_loop rs = (rs, false).
Proof.
  induction rs as [|r rs IH]; [reflexivity|].
  cbn [forallb]. intros H. apply andb_true_iff in H as [H1 H2].
  simpl. rewrite (synth_in_place_checkable r H1), (IH H2). reflexivity.
Qed.

(** ** C6 *)

(** C6 (counterexample): the normalizer never defaults [version]: a
    canonical document without one is returned without one. *)
Lemma normalize_no_version_default_cex :
  let d := JObj [("rules", JArr [JObj [("name", JStr "R"); ("condition", JStr "amount > 5")]])] in
  fst (normalizeParserResponse d) = Ret (NormDoc d) /\ get_prop d "version" = Ret JUndef.
Proof. vm_compute. split; reflexivity. Qed.

(** C6: an object whose own [rules] member is an array of rule objects,
    each with a string condition the synthesiser already reads as code, is
    returned as the document itself, unchanged (no [version] is added),
    and the input is left as it was. *)
Theorem normalize_canonical_unchanged (ps : list (string * jsval)) (rs : list jsval) :
  assoc "rules" ps = Some (JArr rs) ->
  forallb checkable_rule rs = true ->
  normalizeParserResponse (JObj ps) = (Ret (NormDoc (JObj ps)), JObj ps).
Proof.
  intros Hr Hc. unfold normalizeParserResponse, shape_of_response.
  cbn [truthy negb is_object get_prop]. rewrite Hr. cbn [bind is_array].
  cbn [get_prop]. rewrite Hr. rewrite (synth_loop_checkable rs Hc).
  cbn [write_back replace_rules]. rewrite (set_assoc_same _ _ _ Hr). reflexivity.
Qed.

Lemma normalize_canonical_unchanged_witness :
  let ps := [("rules", JArr [JObj [("name", JStr "R"); ("condition", JStr "amount > 5")]])] in
  normalizeParserResponse (JObj ps) = (Ret (NormDoc (JObj ps)), JObj ps).
Proof.
  apply (normalize_canonical_unchanged _ [JObj [("name", JStr "R"); ("condition", JStr "amount > 5")]]);
    vm_compute; reflexivity.
Defined.

(** ** What the normalizer writes into its input *)








Lemma insert_idx_in {A} (p q : nat * (string * A)) (l : list (nat * (string * A))) :
  In q (insert_idx p l) -> q = p \/ In q l.
Proof.
  induction l as [|r t IH]; simpl; [intros [H|[]]; left; auto|].
  destruct (Nat.leb (fst p) (fst r)); simpl.
  - intros [H|[H|H]]; auto.
  - intros [H|H]; [auto|]. destruct (IH H); auto.
Qed.

Lemma ordered_props_incl {A} (ps : list (string * A)) (x : string * A) :
  In x (ordered_props ps) -> In x ps.
Proof.
  unfold ordered_props. intros H. apply in_app_or in H as [H|H].
  - apply in_map_iff in H as [[i y] [<- Hy]]. simpl.
    induction ps as [|kv t IH]; simpl in Hy; [contradiction|].
    destruct (index_of (fst kv)) as [j|].
    + apply insert_idx_in in Hy as [Hy|Hy]; [injection Hy as _ ->; left; reflexivity|].
      right. exact (IH Hy).
    + right. exact (IH Hy).
  - apply filter_In in H. exact (proj1 H).
Qed.










(** ** C7 *)




(** ** String lemmas *)

Lemma str_app_assoc (a b c : string) : ((a ++ b) ++ c)%string = (a ++ (b ++ c))%string.
Proof. induction a as [|x a IH]; simpl; [reflexivity|rewrite IH; reflexivity]. Qed.

Lemma str_app_nil_r (a : string) : (a ++ "")%string = a.
Proof. induction a as [|x a IH]; simpl; [reflexivity|rewrite IH; reflexivity]. Qed.

Lemma str_snoc_neq_empty (s : string) (c : ascii) : (s ++ String c "")%string <> "".
Proof. destruct s; discriminate. Qed.

Lemma span_digits_quote (s : string) :
  exists d r, span_digits (s ++ "'") = (d, (r ++ "'")%string).
Proof.
  induction s as [|c t IH]; [exists "", ""; reflexivity|].
  cbn [append span_digits]. destruct (is_digit c).
  - destruct IH as [d [r E]]. rewrite E. exists (String c d), r. reflexivity.
  - exists "", (String c t). reflexivity.
Qed.

Lemma numeral_quote (s : string) : numeral (s ++ "'") = None.
Proof.
  unfold numeral. destruct (span_digits_quote s) as [d1 [r E]]. rewrite E.
  destruct (String.eqb d1 ""); [reflexivity|].
  destruct r as [|a r']; [reflexivity|]. cbn [append].
  destruct (ascii_dec a "."%char) as [->|Hn].
  - destruct (span_digits_quote r') as [d2 [r3 E2]]. rewrite E2.
    replace (String.eqb (r3 ++ "'") "") with false by (destruct r3; reflexivity).
    rewrite orb_true_r. reflexivity.
  - destruct a as [[] [] [] [] [] [] [] []]; try reflexivity; exfalso; apply Hn; reflexivity.
Qed.

Lemma numeral_empty : numeral "" = None.
Proof. reflexivity. Qed.

Lemma suffix_quote (p r s : string) :
  (p ++ r)%string = (s ++ "'")%string -> r = "" \/ exists s', r = (s' ++ "'")%string.
Proof.
  revert s. induction p as [|a p IH]; intros s H.
  - right. exists s. exact H.
  - destruct s as [|b s]; simpl in H; injection H as -> H.
    + destruct p; [left; exact H|discriminate].
    + exact (IH s H).
Qed.

Lemma strip_ci_suffix (kw s r : string) :
  strip_ci kw s = Some r -> exists p, s = (p ++ r)%string.
Proof.
  revert s. induction kw as [|k kw IH]; intros s H; simpl in H.
  - injection H as ->. exists "". reflexivity.
  - destruct s as [|c t]; [discriminate|]. destruct (ci_eq k c); [|discriminate].
    destruct (IH t H) as [p ->]. exists (String c p). reflexivity.
Qed.

Lemma drop_ws_suffix (s : string) : exists p, s = (p ++ drop_ws s)%string.
Proof.
  induction s as [|c t [p E]]; [exists ""; reflexivity|]. simpl.
  destruct (is_ws c); [exists (String c p); simpl; rewrite <- E; reflexivity|exists ""; reflexivity].
Qed.

Lemma read_num_op_suffix (s : string) (op : cmpop) (r : string) :
  read_num_op s = Some (op, r) -> exists p, s = (p ++ r)%string.
Proof.
  intros H.
  destruct s as [|a [|b t]]; [discriminate| |].
  - exists (String a ""). unfold read_num_op in H.
    destruct a as [[] [] [] [] [] [] [] []]; try discriminate; injection H as _ <-; reflexivity.
  - unfold read_num_op in H.
    destruct a as [[] [] [] [] [] [] [] []]; try discriminate;
      destruct b as [[] [] [] [] [] [] [] []]; try discriminate; injection H as _ <-;
      first [exists (String "<"%char ""); reflexivity | exists (String ">"%char ""); reflexivity
            | exists (String "="%char ""); reflexivity
            | eexists (String _ (String _ "")); reflexivity].
Qed.

Lemma match_amount_exact_quote (s : string) : match_amount_exact (s ++ "'") = None.
Proof.
  unfold match_amount_exact.
  destruct (strip_ci "amount" (s ++ "'")) as [r|] eqn:E1; [|reflexivity].
  destruct (read_num_op (drop_ws r)) as [[op r2]|] eqn:E2; [|reflexivity].
  destruct (numeral (drop_ws r2)) eqn:E3; [|reflexivity]. exfalso.
  destruct (strip_ci_suffix _ _ _ E1) as [p1 H1].
  destruct (drop_ws_suffix r) as [p2 H2].
  destruct (read_num_op_suffix _ _ _ E2) as [p3 H3].
  destruct (drop_ws_suffix r2) as [p4 H4].
  assert (Hs : (((p1 ++ p2) ++ p3) ++ p4 ++ drop_ws r2)%string = (s ++ "'")%string).
  { rewrite H1, !str_app_assoc, <- H4, <- H3, <- H2. reflexivity. }
  rewrite <- str_app_assoc in Hs.
  destruct (suffix_quote _ _ _ Hs) as [He|[s' He]]; rewrite He in E3;
    [rewrite numeral_empty in E3|rewrite numeral_quote in E3]; discriminate.
Qed.

Lemma split_last_snoc (v : string) (c : ascii) : split_last (v ++ String c "") = Some (v, c).
Proof.
  induction v as [|a v IH]; [reflexivity|]. cbn [append split_last].
  destruct (v ++ String c "")%string as [|b w] eqn:E; [exfalso; exact (str_snoc_neq_empty v c E)|].
  rewrite IH. reflexivity.
Qed.

Lemma ident_start_facts (h : ascii) :
  is_ident_start h = true ->
  is_ws h = false /\ is_word h = true /\ (forall r, strip_parens (String h r) = drop_last_paren (String h r)).
Proof.
  intros H. destruct h as [[] [] [] [] [] [] [] []]; try discriminate H;
    (split; [reflexivity|split; [reflexivity|intros r; reflexivity]]).
Qed.

Lemma drop_last_paren_quote (s : string) : drop_last_paren (s ++ "'") = (s ++ "'")%string.
Proof.
  induction s as [|c t IH]; [reflexivity|]. cbn [append drop_last_paren].
  destruct (t ++ "'")%string as [|a w] eqn:E; [exfalso; exact (str_snoc_neq_empty t _ E)|].
  rewrite IH. reflexivity.
Qed.

Lemma trim_end_quote (s : string) : trim_end (s ++ "'") = (s ++ "'")%string.
Proof.
  induction s as [|c t IH]; [reflexivity|]. cbn [append trim_end]. rewrite IH.
  replace (String.eqb (t ++ "'") "") with false by (destruct t; reflexivity). reflexivity.
Qed.

(** A clause that starts with an identifier character and ends with a quote
    is left as it is by [replace(/^\(|\)$/g, '')] and [trim()]. *)
Lemma clean_clause_ident (h : ascii) (s : string) :
  is_ident_start h = true -> js_trim (strip_parens (String h (s ++ "'"))) = String h (s ++ "'").
Proof.
  intros H. destruct (ident_start_facts h H) as [Hw [_ Hp]]. rewrite Hp.
  change (String h (s ++ "'")) with (String h s ++ "'")%string.
  rewrite drop_last_paren_quote. unfold js_trim. cbn [append drop_ws]. rewrite Hw.
  change (String h (s ++ "'")) with (String h s ++ "'")%string. apply trim_end_quote.
Qed.

Lemma span_word_ident (f r : string) :
  all_word f = true -> span_word (f ++ String " "%char r) = (f, String " "%char r).
Proof.
  induction f as [|c t IH]; [reflexivity|]. cbn [all_word append span_word].
  intros H. apply andb_true_iff in H as [H1 H2]. rewrite H1, (IH H2). reflexivity.
Qed.

Lemma match_field_cmp_lit (f v : string) (opstr : string) (op : cmpop) :
  is_ident f = true -> no_line_term v = true ->
  (opstr = "==" /\ op = OpEq2) \/ (opstr = "!=" /\ op = OpNe) ->
  match_field_cmp (f ++ " " ++ opstr ++ " '" ++ v ++ "'") = Some (f, op, v).
Proof.
  intros Hf Hv Hop. destruct f as [|h ft]; [discriminate|].
  cbn [is_ident] in Hf. apply andb_true_iff in Hf as [Hh Ht].
  destruct (ident_start_facts h Hh) as [_ [Hword _]].
  unfold match_field_cmp. cbn [append]. rewrite Hh.
  change (String h (ft ++ String " "%char (opstr ++ String " "%char (String "'"%char (v ++ "'")))))
    with ((String h ft) ++ String " "%char (opstr ++ String " "%char (String "'"%char (v ++ "'"))))%string.
  rewrite span_word_ident by (cbn [all_word]; rewrite Hword, Ht; reflexivity).
  generalize (split_last_snoc v "'"%char). generalize (v ++ "'")%string. intros w Hw.
  destruct Hop as [[-> ->]|[-> ->]]; simpl; rewrite Hw; simpl; rewrite Hv; reflexivity.
Qed.

Lemma clause_lit_parse (f v opstr : string) (op : cmpop) :
  is_ident f = true -> no_line_term v = true ->
  (opstr = "==" /\ op = OpEq2) \/ (opstr = "!=" /\ op = OpNe) ->
  let c := (f ++ " " ++ opstr ++ " '" ++ v ++ "'")%string in
  js_trim (strip_parens c) = c /\ match_amount_exact c = None /\ match_field_cmp c = Some (f, op, v).
Proof.
  intros Hf Hv Hop c.
  assert (Hm := match_field_cmp_lit f v opstr op Hf Hv Hop). fold c in Hm.
  destruct f as [|h ft]; [discriminate|]. cbn [is_ident] in Hf.
  apply andb_true_iff in Hf as [Hh _].
  assert (E : c = String h ((ft ++ " " ++ opstr ++ " '" ++ v) ++ "'")%string).
  { unfold c. rewrite !str_app_assoc. reflexivity. }
  split; [|split; [|exact Hm]].
  - rewrite E. apply clean_clause_ident, Hh.
  - rewrite E. change (String h ((ft ++ " " ++ opstr ++ " '" ++ v) ++ "'"))
      with ((String h (ft ++ " " ++ opstr ++ " '" ++ v)) ++ "'")%string.
    apply match_amount_exact_quote.
Qed.

Lemma absent_like_empty (tx : list (string * jsval)) (f : string) :
  absent_like tx f -> tx_field_string tx f = "".
Proof.
  unfold absent_like, tx_field_string. intros [[H Hp]|[H|H]]; rewrite H; [|reflexivity|reflexivity].
  unfold is_proto_name in Hp. destruct (proto_prop f); try discriminate; reflexivity.
Qed.

(** ** C10 *)

(** C10 (counterexample): [category == ''] also holds for a transaction
    whose category is the empty string, and a missing [constructor] field
    reads the inherited [Object] function, not [''].  *)
Lemma empty_literal_matches_present_field_cex :
  and_loop (JObj [("category", JStr "")]) true ["category == ''"] = Ret true /\
  and_loop (JObj []) true ["constructor == ''"] = Ret false.
Proof. vm_compute. split; reflexivity. Qed.

(** C10: a clause [f == 'v'] or [f != 'v'], with [f] an identifier and [v]
    free of line terminators, compares [String(tx[f] ?? '')] with [v]; for
    a transaction where [f] is absent (and not a member name of
    [Object.prototype]), [undefined] or [null], that string is empty.  So
    [f == ''] holds exactly when [String(tx[f] ?? '')] is empty, and
    [f != 'v'] with [v] non-empty holds whenever [f] is absent-like. *)
Theorem clause_reads_field_as_string (tx : list (string * jsval)) (f v : string) :
  is_ident f = true -> no_line_term v = true ->
  and_loop (JObj tx) true [(f ++ " == '" ++ v ++ "'")%string]
    = Ret (String.eqb (tx_field_string tx f) v) /\
  and_loop (JObj tx) true [(f ++ " != '" ++ v ++ "'")%string]
    = Ret (negb (String.eqb (tx_field_string tx f) v)) /\
  (absent_like tx f -> tx_field_string tx f = "").
Proof.
  intros Hf Hv. split; [|split; [|apply absent_like_empty]].
  - change (f ++ " == '" ++ v ++ "'")%string with (f ++ " " ++ "==" ++ " '" ++ v ++ "'")%string.
    destruct (clause_lit_parse f v "==" OpEq2 Hf Hv (or_introl (conj eq_refl eq_refl)))
      as [E1 [E2 E3]].
    rewrite and_loop_obj. cbn [forallb]. rewrite andb_true_r. unfold clause_sat.
    rewrite E1, E2, E3, get_prop_obj. reflexivity.
  - change (f ++ " != '" ++ v ++ "'")%string with (f ++ " " ++ "!=" ++ " '" ++ v ++ "'")%string.
    destruct (clause_lit_parse f v "!=" OpNe Hf Hv (or_intror (conj eq_refl eq_refl)))
      as [E1 [E2 E3]].
    rewrite and_loop_obj. cbn [forallb]. rewrite andb_true_r. unfold clause_sat.
    rewrite E1, E2, E3, get_prop_obj. reflexivity.
Qed.

Lemma clause_reads_field_as_string_witness :
  and_loop (JObj [("amount", JNum num_one)]) true ["category != 'Travel'"] = Ret true.
Proof.
  exact (proj1 (proj2 (clause_reads_field_as_string [("amount", JNum num_one)]
                         "category" "Travel" eq_refl eq_refl))).
Defined.

(** ** Extraction of an embedded JSON object *)












(** ** C8 *)




(** ** Number::toString read back by the clause pattern *)












Lemma pow10_Z (n : nat) : Zpos (pow10 n) = (10 ^ Z.of_nat n)%Z.
Proof.
  induction n as [|n IH]; [reflexivity|]. cbn [pow10].
  rewrite Pos2Z.inj_mul, IH, Nat2Z.inj_succ, Z.pow_succ_r by lia. reflexivity.
Qed.




Lemma span_digits_parts (s : string) :
  let (d, r) := span_digits s in s = (d ++ r)%string /\ num_chars d = true.
Proof.
  induction s as [|c t IH]; [split; reflexivity|]. cbn [span_digits].
  destruct (is_digit c) eqn:Ec.
  - destruct (span_digits t) as [d r]. destruct IH as [-> IH].
    split; [reflexivity|]. cbn [num_chars]. rewrite Ec, IH. reflexivity.
  - split; reflexivity.
Qed.

Lemma num_chars_app (a b : string) :
  num_chars (a ++ b) = num_chars a && num_chars b.
Proof.
  induction a as [|c t IH]; [reflexivity|]. cbn [append num_chars]. rewrite IH, andb_assoc. reflexivity.
Qed.

Lemma numeral_num_chars (s : string) (d : dec) :
  numeral s = Some d -> num_chars s = true /\ s <> "".
Proof.
  unfold numeral. pose proof (span_digits_parts s) as P.
  destruct (span_digits s) as [d1 r1]. destruct P as [-> P1].
  destruct (String.eqb d1 "") eqn:E1; [discriminate|].
  assert (Hne : (d1 ++ r1)%string <> "").
  { apply String.eqb_neq in E1. destruct d1; [congruence|discriminate]. }
  destruct r1 as [|c r2].
  - intros _. rewrite num_chars_app, P1. split; [reflexivity|exact Hne].
  - destruct (ascii_dec c "."%char) as [->|Hc].
    + pose proof (span_digits_parts r2) as P2.
      destruct (span_digits r2) as [d2 r3]. destruct P2 as [-> P2].
      destruct (String.eqb d2 "" || negb (String.eqb r3 "")) eqn:E2; [discriminate|].
      apply orb_false_iff in E2 as [_ E3]. apply negb_false_iff, String.eqb_eq in E3. subst r3.
      intros _. split; [|exact Hne]. rewrite num_chars_app, P1. cbn [num_chars].
      rewrite num_chars_app, P2. reflexivity.
    + intros H. exfalso.
      destruct c as [[] [] [] [] [] [] [] []]; try discriminate H; apply Hc; reflexivity.
Qed.

Lemma num_char_facts (c : ascii) :
  (is_digit c || Ascii.eqb c "."%char) = true ->
  is_ws c = false /\ Ascii.eqb c ")"%char = false /\ is_line_term c = false.
Proof. intros H. destruct c as [[] [] [] [] [] [] [] []]; try discriminate H; repeat split. Qed.

Lemma drop_ws_num (s : string) : num_chars s = true -> drop_ws s = s.
Proof.
  destruct s as [|c t]; [reflexivity|]. cbn [num_chars drop_ws]. intros H.
  apply andb_true_iff in H as [H _]. destruct (num_char_facts c H) as [-> _]. reflexivity.
Qed.

Lemma trim_end_num (s : string) : num_chars s = true -> trim_end s = s.
Proof.
  induction s as [|c t IH]; [reflexivity|]. cbn [num_chars trim_end]. intros H.
  apply andb_true_iff in H as [H1 H2]. rewrite (IH H2).
  destruct (num_char_facts c H1) as [-> _]. rewrite andb_false_r. reflexivity.
Qed.

Lemma trim_end_app (a b : string) :
  b <> "" -> trim_end b = b -> trim_end (a ++ b) = (a ++ b)%string.
Proof.
  intros Hb Ht. induction a as [|c t IH]; [exact Ht|]. cbn [append trim_end]. rewrite IH.
  replace (String.eqb (t ++ b) "") with false by (destruct t; [destruct b; [congruence|reflexivity]|reflexivity]).
  reflexivity.
Qed.

Lemma drop_last_paren_num (s : string) : num_chars s = true -> drop_last_paren s = s.
Proof.
  induction s as [|c t IH]; [reflexivity|]. cbn [num_chars]. intros H.
  apply andb_true_iff in H as [H1 H2]. destruct (num_char_facts c H1) as [_ [Hp _]].
  destruct t as [|c2 t2].
  - cbn [drop_last_paren]. rewrite Hp. reflexivity.
  - change (drop_last_paren (String c (String c2 t2))) with (String c (drop_last_paren (String c2 t2))).
    rewrite (IH H2). reflexivity.
Qed.

Lemma drop_last_paren_app (a b : string) :
  b <> "" -> drop_last_paren b = b -> drop_last_paren (a ++ b) = (a ++ b)%string.
Proof.
  intros Hb Hd. induction a as [|c t IH]; [exact Hd|]. cbn [append].
  destruct (t ++ b)%string as [|c2 t2] eqn:E.
  - destruct t; [|discriminate]. destruct b; [congruence|discriminate].
  - change (drop_last_paren (String c (String c2 t2))) with (String c (drop_last_paren (String c2 t2))).
    rewrite IH. reflexivity.
Qed.

Lemma no_line_term_num (s : string) : num_chars s = true -> no_line_term s = true.
Proof.
  induction s as [|c t IH]; [reflexivity|]. cbn [num_chars no_line_term]. intros H.
  apply andb_true_iff in H as [H1 H2]. destruct (num_char_facts c H1) as [_ [_ ->]].
  rewrite (IH H2). reflexivity.
Qed.

(** ** Splitting a synthesized condition *)



Lemma sep_free_split (kw s : string) (f : nat) :
  sep_free kw s = true -> split_fuel f kw s = [s].
Proof.
  revert f. induction s as [|c t IH]; intros f H; destruct f as [|f]; try reflexivity.
  cbn [sep_free] in H. cbn [split_fuel].
  destruct (match_sep kw (String c t)); [discriminate|]. rewrite (IH f H). reflexivity.
Qed.


Lemma sep_free_in_nil (kw s : string) : sep_free kw s = sep_free_in kw s "".
Proof.
  induction s as [|c t IH]; [reflexivity|]. cbn [sep_free sep_free_in]. rewrite str_app_nil_r, IH.
  reflexivity.
Qed.

Lemma sep_free_in_app (kw a1 a2 r : string) :
  sep_free_in kw (a1 ++ a2) r = sep_free_in kw a1 (a2 ++ r) && sep_free_in kw a2 r.
Proof.
  induction a1 as [|c t IH]; [reflexivity|]. cbn [append sep_free_in].
  rewrite str_app_assoc. destruct (match_sep kw (String c (t ++ a2 ++ r))); [reflexivity|exact IH].
Qed.





Lemma sep_free_in_num (kw a r : string) : num_chars a = true -> sep_free_in kw a r = true.
Proof.
  induction a as [|c t IH]; intros H; [reflexivity|].
  cbn [num_chars] in H. apply andb_true_iff in H as [H1 H2].
  cbn [sep_free_in append]. unfold match_sep.
  destruct (num_char_facts c H1) as [-> _]. exact (IH H2).
Qed.

Lemma num_head_not_letter (c : ascii) :
  (is_digit c || Ascii.eqb c "."%char) = true -> ci_eq "a"%char c = false /\ ci_eq "o"%char c = false.
Proof. intros H. destruct c as [[] [] [] [] [] [] [] []]; try discriminate H; split; reflexivity. Qed.

Lemma str_length_app (a b : string) :
  String.length (a ++ b) = String.length a + String.length b.
Proof. induction a as [|c t IH]; [reflexivity|]. cbn. rewrite IH. reflexivity. Qed.

Lemma sep_free_in_blank_num (k : ascii) (kt T : string) :
  (forall c, (is_digit c || Ascii.eqb c "."%char) = true -> ci_eq k c = false) ->
  num_chars T = true -> T <> "" -> sep_free_in (String k kt) " " T = true.
Proof.
  intros Hk HT Hne. destruct T as [|h T']; [congruence|].
  cbn [num_chars] in HT. apply andb_true_iff in HT as [H1 _].
  assert (E : match_sep (String k kt) (" " ++ String h T') = None).
  { unfold match_sep. cbn [append].
    replace (drop_ws (String " "%char (String h T'))) with (String h T')
      by (cbn [drop_ws]; destruct (num_char_facts h H1) as [-> _]; reflexivity).
    cbn [strip_ci]. rewrite (Hk h H1). change (is_ws " "%char) with true. reflexivity. }
  cbn [sep_free_in]. rewrite E. reflexivity.
Qed.

Lemma tail_sep_free (k : ascii) (kt P T : string) :
  (forall c, (is_digit c || Ascii.eqb c "."%char) = true -> ci_eq k c = false) ->
  num_chars T = true -> T <> "" -> sep_free_in (String k kt) P (" " ++ T) = true ->
  sep_free_in (String k kt) (P ++ " " ++ T) "" = true.
Proof.
  intros Hk HT Hne HP. rewrite !sep_free_in_app, !str_app_nil_r, HP.
  rewrite (sep_free_in_blank_num k kt T Hk HT Hne), sep_free_in_num by exact HT. reflexivity.
Qed.



(** ** Synthesis of [category == '<C>' and amount > <T>] *)






Lemma assoc_set_assoc (k : string) (v : jsval) (ps : list (string * jsval)) :
  assoc k (set_assoc k v ps) = Some v.
Proof.
  induction ps as [|[k' v'] t IH]; cbn [set_assoc assoc]; [rewrite String.eqb_refl; reflexivity|].
  destruct (String.eqb k k') eqn:E; cbn [assoc]; rewrite E; [reflexivity|exact IH].
Qed.



(** ** C1 *)




(** ** Category alignment *)

(** C9 (counterexample): with two dataset categories equal ignoring case,
    the substring search picks the first and the exact lookup of [lowerMap]
    the last, so a second alignment changes the category again. *)
Lemma align_case_duplicates_cex :
  let cats := [JStr "MEALS"; JStr "Meals"] in
  alignParsedCategoriesWithDataset
    (JObj [("rules", JArr [JObj [("category", JStr "meal")]])]) cats
  = Ret (JObj [("rules", JArr [JObj [("category", JStr "MEALS")]])]) /\
  alignParsedCategoriesWithDataset
    (JObj [("rules", JArr [JObj [("category", JStr "MEALS")]])]) cats
  = Ret (JObj [("rules", JArr [JObj [("category", JStr "Meals")]])]).
Proof. split; vm_compute; reflexivity. Qed.

Lemma assoc_set_assoc_other (k k' : string) (v : jsval) (ps : list (string * jsval)) :
  k <> k' -> assoc k (set_assoc k' v ps) = assoc k ps.
Proof.
  intros Hk. induction ps as [|[k0 v0] t IH]; cbn [set_assoc assoc].
  - apply String.eqb_neq in Hk. rewrite Hk. reflexivity.
  - destruct (String.eqb k' k0) eqn:E; cbn [assoc].
    + apply String.eqb_eq in E. subst k0.
      rewrite (proj2 (String.eqb_neq _ _) Hk). reflexivity.
    + rewrite IH. reflexivity.
Qed.

Lemma proto_prop_undef (k : string) : is_proto_name k = false -> proto_prop k = JUndef.
Proof. unfold is_proto_name. destruct (proto_prop k); congruence. Qed.

Lemma lower_map_fold_other (cats : list string) (m : list (string * jsval)) (k : string) :
  Forall (fun c => lower c <> k) cats ->
  assoc k (fold_left (fun m c =>
               let k := lower c in
               if String.eqb k "__proto__" then m else set_assoc k (JStr c) m)
            cats m) = assoc k m.
Proof.
  revert m. induction cats as [|c t IH]; intros m H; [reflexivity|].
  inversion H as [|? ? Hc Ht]; subst. cbn [fold_left]. rewrite IH by exact Ht.
  destruct (String.eqb (lower c) "__proto__"); [reflexivity|].
  apply assoc_set_assoc_other. congruence.
Qed.

Lemma lower_map_fold_vals (cats : list string) (m : list (string * jsval)) (k : string)
  (x : jsval) :
  assoc k (fold_left (fun m c =>
               let k := lower c in
               if String.eqb k "__proto__" then m else set_assoc k (JStr c) m)
            cats m) = Some x ->
  assoc k m = Some x \/ exists c, In c cats /\ x = JStr c.
Proof.
  revert m. induction cats as [|c t IH]; intros m H; [left; exact H|].
  cbn [fold_left] in H. apply IH in H as [H|[c' [Hin ->]]].
  - destruct (String.eqb (lower c) "__proto__"); [left; exact H|].
    destruct (string_dec k (lower c)) as [->|Hne].
    + rewrite assoc_set_assoc in H. injection H as <-. right. exists c. simpl; auto.
    + rewrite assoc_set_assoc_other in H by exact Hne. left; exact H.
  - right. exists c'. simpl; auto.
Qed.

Lemma lower_map_fold_hit (cats : list string) (m : list (string * jsval)) (c : string) :
  In c cats -> NoDup (map lower cats) -> is_proto_name (lower c) = false ->
  assoc (lower c) (fold_left (fun m c =>
               let k := lower c in
               if String.eqb k "__proto__" then m else set_assoc k (JStr c) m)
            cats m) = Some (JStr c).
Proof.
  revert m. induction cats as [|c0 t IH]; intros m Hin Hnd Hp; [destruct Hin|].
  cbn [map] in Hnd. inversion Hnd as [|? ? Hn Hnd']; subst. cbn [fold_left].
  destruct Hin as [->|Hin]; [|apply IH; assumption].
  rewrite lower_map_fold_other.
  - destruct (String.eqb (lower c) "__proto__") eqn:E.
    + apply String.eqb_eq in E. rewrite E in Hp. discriminate.
    + apply assoc_set_assoc.
  - apply Forall_forall. intros c' Hc' Heq. apply Hn. rewrite <- Heq.
    apply in_map. exact Hc'.
Qed.

Lemma mapCategory_cat (cats : list string) (c : string) :
  cats_ok cats -> In c cats ->
  mapCategory cats (lower_map cats) (JStr c) = Ret (JStr c).
Proof.
  intros [Hnd Hall] Hin.
  pose proof (proj1 (Forall_forall _ _) Hall c Hin) as (Ht & Hp & _).
  unfold mapCategory. cbn [truthy js_String js_to_string bind]. rewrite Ht.
  destruct (String.eqb c "") eqn:Ec; [reflexivity|]. cbn [negb].
  unfold lower_map_get, lower_map. rewrite lower_map_fold_hit by assumption.
  cbn [truthy]. rewrite Ec. reflexivity.
Qed.

(** [mapCategory] throws only where [String(val)] does. *)
Lemma mapCategory_string (cats : list string) (lm : list (string * jsval)) (v w : jsval) :
  mapCategory cats lm v = Ret w -> truthy v = true -> exists s, js_String v = Ret s.
Proof.
  unfold mapCategory. intros H T. rewrite T in H. cbn [negb] in H.
  destruct (js_String v) as [s|]; [exists s; reflexivity|discriminate].
Qed.

Lemma mapCategory_cases (cats : list string) (v w : jsval) :
  (forall s, js_String v = Ret s -> proto_free s = true) ->
  mapCategory cats (lower_map cats) v = Ret w ->
  w = v \/ exists c, In c cats /\ w = JStr c.
Proof.
  intros Hp. unfold mapCategory.
  destruct (negb (truthy v)); [intros H; injection H as <-; left; reflexivity|].
  destruct (js_String v) as [s|] eqn:Es; cbn [bind]; [|discriminate].
  specialize (Hp s eq_refl). unfold proto_free in Hp. apply negb_true_iff in Hp.
  destruct (String.eqb (js_trim s) ""); [intros H; injection H as <-; left; reflexivity|].
  unfold lower_map_get.
  destruct (assoc (lower (js_trim s)) (lower_map cats)) as [x|] eqn:A.
  - unfold lower_map in A. apply lower_map_fold_vals in A as [A|[c [Hin ->]]];
      [discriminate|].
    destruct (truthy (JStr c)); [intros H; injection H as <-; right; exists c; auto|].
    destruct (find _ cats) as [c'|] eqn:F; intros H; injection H as <-; [|left; reflexivity].
    right. exists c'. split; [exact (proj1 (find_some _ _ F))|reflexivity].
  - rewrite proto_prop_undef by exact Hp. cbn [truthy].
    destruct (find _ cats) as [c'|] eqn:F; intros H; injection H as <-; [|left; reflexivity].
    right. exists c'. split; [exact (proj1 (find_some _ _ F))|reflexivity].
Qed.

Lemma mapCategory_idem (cats : list string) (v w : jsval) :
  cats_ok cats -> (forall s, js_String v = Ret s -> proto_free s = true) ->
  mapCategory cats (lower_map cats) v = Ret w ->
  mapCategory cats (lower_map cats) w = Ret w.
Proof.
  intros Hc Hp H. destruct (mapCategory_cases cats v w Hp H) as [->|[c [Hin ->]]];
    [exact H|apply mapCategory_cat; assumption].
Qed.

Lemma is_quote_chars (a : ascii) : is_quote a = true -> a = "'"%char \/ a = ascii_of_nat 34.
Proof.
  destruct a as [[] [] [] [] [] [] [] []]; vm_compute; intros H;
    first [discriminate H | left; reflexivity | right; reflexivity].
Qed.

Lemma lacks_app (x : ascii) (a b : string) : lacks x (a ++ b) = lacks x a && lacks x b.
Proof.
  induction a as [|c a IH]; cbn [lacks append]; [reflexivity|].
  rewrite IH, andb_assoc. reflexivity.
Qed.

Lemma lacks_quotes_span (u : string) :
  lacks "'"%char u = true -> lacks (ascii_of_nat 34) u = true -> span_nonquote u = (u, "").
Proof.
  induction u as [|a u IH]; intros H1 H2; [reflexivity|].
  cbn [lacks] in H1, H2. apply andb_true_iff in H1 as [A1 H1].
  apply andb_true_iff in H2 as [A2 H2].
  destruct (is_quote a) eqn:Q.
  - destruct (is_quote_chars a Q) as [->| ->];
      [rewrite Ascii.eqb_refl in A1 | rewrite Ascii.eqb_refl in A2]; discriminate.
  - cbn [span_nonquote]. rewrite Q, IH by assumption. reflexivity.
Qed.

Lemma span_nonquote_app (u Y : string) (q : ascii) :
  is_quote q = true ->
  span_nonquote (u ++ String q Y)
  = (fst (span_nonquote u), (snd (span_nonquote u) ++ String q Y)%string).
Proof.
  intros Hq. induction u as [|c u IH]; cbn [append span_nonquote].
  - rewrite Hq. reflexivity.
  - destruct (is_quote c); [reflexivity|].
    rewrite IH. destruct (span_nonquote u). reflexivity.
Qed.

Lemma span_nonquote_parts (t a r : string) :
  span_nonquote t = (a, r) -> span_nonquote a = (a, "") /\ t = (a ++ r)%string.
Proof.
  revert a r. induction t as [|c t IH]; intros a r H; cbn [span_nonquote] in H.
  - injection H as <- <-. split; reflexivity.
  - destruct (is_quote c) eqn:Q.
    + injection H as <- <-. split; reflexivity.
    + destruct (span_nonquote t) as [a' r'] eqn:E. injection H as <- <-.
      destruct (IH a' r' eq_refl) as [H1 H2]. cbn [span_nonquote append].
      rewrite Q, H1, H2. split; reflexivity.
Qed.

Lemma lit_at_shape (s lit r : string) (q : ascii) :
  lit_at s = Some (q, lit, r) ->
  is_quote q = true /\ lit <> "" /\ span_nonquote lit = (lit, "") /\
  s = String q (lit ++ String q r).
Proof.
  destruct s as [|q0 t]; cbn [lit_at]; [discriminate|].
  destruct (is_quote q0) eqn:Q; [|discriminate].
  destruct (span_nonquote t) as [l0 r0] eqn:E.
  destruct (String.eqb l0 "") eqn:El; [discriminate|].
  destruct r0 as [|q2 r']; [discriminate|].
  destruct (Ascii.eqb q2 q0) eqn:Eq; [|discriminate].
  intros H. injection H as <- <- <-. apply Ascii.eqb_eq in Eq. subst q2.
  destruct (span_nonquote_parts _ _ _ E) as [H1 H2].
  repeat split; [exact Q| apply String.eqb_neq; exact El| exact H1| rewrite H2; reflexivity].
Qed.

Lemma lit_at_mk (lit r : string) (q : ascii) :
  is_quote q = true -> lit <> "" -> span_nonquote lit = (lit, "") ->
  lit_at (String q (lit ++ String q r)) = Some (q, lit, r).
Proof.
  intros Hq Hl Hs. cbn [lit_at]. rewrite Hq, (span_nonquote_app _ _ _ Hq), Hs.
  cbn [fst snd append]. apply String.eqb_neq in Hl. rewrite Hl, Ascii.eqb_refl.
  reflexivity.
Qed.

Lemma lit_at_indep (h q : ascii) (u Y Y' : string) :
  is_quote q = true ->
  lit_at (String h (u ++ String q Y)) = None ->
  lit_at (String h (u ++ String q Y')) = None.
Proof.
  intros Hq. cbn [lit_at]. destruct (is_quote h); [|reflexivity].
  rewrite !(span_nonquote_app _ _ _ Hq).
  destruct (span_nonquote u) as [a r]; cbn [fst snd].
  destruct (String.eqb a ""); [reflexivity|].
  destruct r as [|q2 r']; cbn [append].
  - destruct (Ascii.eqb q h); [discriminate|reflexivity].
  - destruct (Ascii.eqb q2 h); [discriminate|reflexivity].
Qed.

Lemma lit_free_in_transfer (pre Y Y' : string) (q : ascii) :
  is_quote q = true ->
  lit_free_in pre (String q Y) = true -> lit_free_in pre (String q Y') = true.
Proof.
  intros Hq. induction pre as [|h t IH]; [reflexivity|].
  cbn [lit_free_in append].
  destruct (lit_at (String h (t ++ String q Y))) eqn:L; [discriminate|].
  rewrite (lit_at_indep h q t Y Y' Hq L). exact IH.
Qed.

Lemma first_literal_shape (s pre lit post : string) (q : ascii) :
  first_literal s = Some (pre, q, lit, post) ->
  s = (pre ++ String q (lit ++ String q post))%string /\
  lit_free_in pre (String q (lit ++ String q post)) = true /\
  lit_at (String q (lit ++ String q post)) = Some (q, lit, post).
Proof.
  revert pre. induction s as [|c t IH]; intros pre H; [discriminate|].
  cbn [first_literal] in H.
  destruct (lit_at (String c t)) as [[[q0 l0] r0]|] eqn:L.
  - injection H as <- <- <- <-.
    destruct (lit_at_shape _ _ _ _ L) as (_ & _ & _ & E).
    rewrite <- E. split; [reflexivity|split; [reflexivity|exact L]].
  - destruct (first_literal t) as [[[[p' q'] l'] r']|] eqn:F; [|discriminate].
    injection H as <- <- <- <-.
    destruct (IH p' eq_refl) as (E & Hf & Hl).
    subst t. split; [reflexivity|]. cbn [append lit_free_in]. rewrite L.
    split; assumption.
Qed.

Lemma first_literal_app (pre X : string) :
  lit_free_in pre X = true ->
  first_literal (pre ++ X) =
  match first_literal X with
  | Some (p, q, l, r) => Some ((pre ++ p)%string, q, l, r)
  | None => None
  end.
Proof.
  induction pre as [|c t IH]; intros H.
  - cbn [append]. destruct (first_literal X) as [[[[p q] l] r]|]; reflexivity.
  - cbn [lit_free_in append] in H |- *.
    destruct (lit_at (String c (t ++ X))) eqn:L; [discriminate|].
    cbn [first_literal]. rewrite L, (IH H).
    destruct (first_literal X) as [[[[p q] l] r]|]; reflexivity.
Qed.

Lemma starts_with_app_ex (p z : string) :
  starts_with p z = true -> exists rest, z = (p ++ rest)%string.
Proof.
  revert z. induction p as [|a p IH]; intros z H; [exists z; reflexivity|].
  destruct z as [|b t]; cbn [starts_with] in H; [discriminate|].
  apply andb_true_iff in H as [Hab Ht]. apply Ascii.eqb_eq in Hab. subst b.
  destruct (IH t Ht) as [rest ->]. exists rest. reflexivity.
Qed.

Lemma starts_with_app (p r : string) : starts_with p (p ++ r) = true.
Proof.
  induction p as [|a p IH]; cbn [append starts_with];
    [destruct r; reflexivity|rewrite Ascii.eqb_refl, IH; reflexivity].
Qed.

Lemma drop_n_app (p r : string) : drop_n (String.length p) (p ++ r) = r.
Proof. induction p as [|a p IH]; [destruct r; reflexivity|exact IH]. Qed.

Lemma find_first_prefix (p r : string) : find_first p (p ++ r) = Some ("", r).
Proof.
  pose proof (starts_with_app p r) as H. pose proof (drop_n_app p r) as D.
  revert H D. destruct (p ++ r)%string as [|c t]; intros H D;
    cbn [find_first]; rewrite H, D; reflexivity.
Qed.

Lemma find_first_app (pre X lit : string) (q : ascii) :
  is_quote q = true -> lit <> "" -> span_nonquote lit = (lit, "") ->
  lit_free_in pre X = true ->
  find_first (String q (lit ++ String q "")) (pre ++ X) =
  match find_first (String q (lit ++ String q "")) X with
  | Some (a, b) => Some ((pre ++ a)%string, b)
  | None => None
  end.
Proof.
  intros Hq Hl Hs. induction pre as [|c t IH]; intros H.
  - cbn [append]. destruct (find_first _ X) as [[a b]|]; reflexivity.
  - cbn [lit_free_in append] in H |- *.
    destruct (lit_at (String c (t ++ X))) eqn:L; [discriminate|].
    cbn [find_first].
    destruct (starts_with (String q (lit ++ String q "")) (String c (t ++ X))) eqn:S.
    + exfalso. apply starts_with_app_ex in S as [rest E].
      rewrite E in L. cbn [append] in L. rewrite str_app_assoc in L.
      cbn [append] in L.
      rewrite lit_at_mk in L by assumption. discriminate.
    + rewrite (IH H). destruct (find_first _ X) as [[a b]|]; reflexivity.
Qed.

Lemma get_subst_cons (m p s t : string) (c : ascii) :
  Ascii.eqb c "$"%char = false ->
  get_subst m p s (String c t) = String c (get_subst m p s t).
Proof.
  destruct c as [[] [] [] [] [] [] [] []]; intros H;
    first [discriminate H | reflexivity].
Qed.

Lemma get_subst_plain (m p s r : string) : lacks "$"%char r = true -> get_subst m p s r = r.
Proof.
  induction r as [|c t IH]; intros H; [reflexivity|].
  cbn [lacks] in H. apply andb_true_iff in H as [Hc Ht].
  apply negb_true_iff in Hc. rewrite get_subst_cons, IH by assumption. reflexivity.
Qed.

Lemma quote_not_dollar (q : ascii) : is_quote q = true -> Ascii.eqb q "$"%char = false.
Proof. intros H. destruct (is_quote_chars q H) as [-> | ->]; reflexivity. Qed.

(** Replacing the first quoted literal by a quote-free, [$]-free name:
    the text around it is kept, and the name becomes the first literal. *)
Lemma replace_first_literal (s pre lit post c : string) (q : ascii) :
  first_literal s = Some (pre, q, lit, post) ->
  c <> "" -> lacks "'"%char c = true -> lacks (ascii_of_nat 34) c = true ->
  lacks "$"%char c = true ->
  js_replace_str s (ch q ++ lit ++ ch q) (ch q ++ c ++ ch q)
  = (pre ++ String q (c ++ String q post))%string /\
  first_literal (pre ++ String q (c ++ String q post)) = Some (pre, q, c, post).
Proof.
  intros F Hc H1 H2 H3.
  destruct (first_literal_shape _ _ _ _ _ F) as (E & Hf & La).
  destruct (lit_at_shape _ _ _ _ La) as (Hq & Hl & Hs & _).
  split.
  - unfold js_replace_str, ch. cbn [append]. rewrite E.
    rewrite (find_first_app pre _ lit q Hq Hl Hs Hf).
    replace (String q (lit ++ String q post))
      with (String q (lit ++ String q "") ++ post)%string
      by (cbn [append]; rewrite str_app_assoc; reflexivity).
    rewrite find_first_prefix, str_app_nil_r, get_subst_plain.
    + cbn [append]. rewrite str_app_assoc. reflexivity.
    + cbn [lacks]. rewrite quote_not_dollar, lacks_app, H3 by exact Hq.
      cbn [lacks]. rewrite quote_not_dollar by exact Hq. reflexivity.
  - rewrite first_literal_app by exact (lit_free_in_transfer _ _ _ _ Hq Hf).
    cbn [first_literal]. rewrite lit_at_mk by (try assumption; apply lacks_quotes_span; assumption).
    rewrite str_app_nil_r. reflexivity.
Qed.

Lemma ordered_props_noindex {A} (ps : list (string * A)) :
  forallb (fun kv => match index_of (fst kv) with Some _ => false | None => true end) ps
  = true -> ordered_props ps = ps.
Proof.
  intros H. unfold ordered_props. cbv zeta.
  match goal with
  | |- (map snd (fold_right ?f [] ps) ++ filter ?g ps)%list = ps =>
      assert (fold_right f [] ps = [] /\ filter g ps = ps) as [-> ->]
  end; [|reflexivity].
  revert H. induction ps as [|[k x] t IH]; intros H; [split; reflexivity|].
  cbn [forallb fst] in H. destruct (index_of k) eqn:I; [discriminate|].
  cbn [fold_right filter fst]. rewrite I. destruct (IH H) as [-> ->].
  split; reflexivity.
Qed.

Lemma plain_props_noindex (ps : list (string * jsval)) :
  forallb (fun kv => match index_of (fst kv) with
                     | Some _ => false
                     | None => json_plain (snd kv)
                     end) ps = true ->
  forallb (fun kv => match index_of (fst kv) with Some _ => false | None => true end) ps
  = true.
Proof.
  induction ps as [|[k x] t IH]; [reflexivity|]. cbn [forallb fst snd].
  destruct (index_of k); [discriminate|]. cbn [andb].
  intros H. apply andb_true_iff in H as [_ H]. exact (IH H).
Qed.

(** [JSON.parse(JSON.stringify(v))] returns a plain value unchanged. *)
Lemma json_clone_plain : forall v, json_plain v = true -> json_clone v = v.
Proof.
  fix IH 1. intros v H.
  destruct v as [| | b | n | s | l | ps | f]; cbn [json_plain] in H; cbn [json_clone];
    try reflexivity.
  - rewrite H. reflexivity.
  - f_equal. induction l as [|x t IHl]; [reflexivity|].
    cbn [forallb map] in H |- *. apply andb_true_iff in H as [Hx Ht].
    rewrite (IHl Ht). f_equal.
    pose proof (IH x Hx) as Ex.
    destruct x; try discriminate Hx; cbv beta iota; exact Ex.
  - match goal with
    | |- JObj (ordered_props (?m ps)) = _ => assert (M : m ps = ps)
    end.
    + revert H. induction ps as [|[k x] t IHp]; intros H; [reflexivity|].
      cbn [forallb fst snd] in H. destruct (index_of k) eqn:I; [discriminate|].
      apply andb_true_iff in H as [Hx Ht].
      pose proof (IH x Hx) as Ex.
      destruct x; try discriminate Hx; cbv beta iota;
        rewrite Ex, (IHp Ht); reflexivity.
    + rewrite M, ordered_props_noindex; [reflexivity|].
      exact (plain_props_noindex ps H).
Qed.

Lemma plain_set_assoc (k : string) (v : jsval) (ps : list (string * jsval)) :
  index_of k = None -> json_plain v = true -> json_plain (JObj ps) = true ->
  json_plain (JObj (set_assoc k v ps)) = true.
Proof.
  intros Hk Hv. cbn [json_plain].
  induction ps as [|[k' v'] t IH]; intros H; cbn [set_assoc].
  - cbn [forallb fst snd]. rewrite Hk, Hv. reflexivity.
  - cbn [forallb fst snd] in H. apply andb_true_iff in H as [H1 H2].
    destruct (String.eqb k k') eqn:E; cbn [forallb fst snd].
    + apply String.eqb_eq in E. subst k'. rewrite Hk, Hv, H2. reflexivity.
    + rewrite H1, (IH H2). reflexivity.
Qed.

Lemma plain_set_prop (r : jsval) (k : string) (v : jsval) :
  index_of k = None -> json_plain v = true -> json_plain r = true ->
  json_plain (set_prop r k v) = true.
Proof.
  intros Hk Hv Hr. destruct r; try exact Hr. apply plain_set_assoc; assumption.
Qed.

Lemma plain_assoc (ps : list (string * jsval)) (k : string) (x : jsval) :
  json_plain (JObj ps) = true -> assoc k ps = Some x -> json_plain x = true.
Proof.
  cbn [json_plain]. induction ps as [|[k' v'] t IH]; intros H A; [discriminate|].
  cbn [forallb fst snd] in H. cbn [assoc] in A. apply andb_true_iff in H as [H1 H2].
  destruct (String.eqb k k'); [injection A as <-|exact (IH H2 A)].
  destruct (index_of k'); [discriminate|exact H1].
Qed.

(** [String(v)] returns what [js_to_string] prints, whenever it returns. *)
Lemma js_String_to_string : forall v s, js_String v = Ret s -> s = js_to_string v.
Proof.
  fix IH 1. intros v s H.
  destruct v as [| | b | n | s0 | l | ps | f]; cbn [js_String] in H;
    try (injection H as <-; reflexivity).
  - destruct (map_out _ l) as [parts|] eqn:M; cbn [bind] in H; [|discriminate].
    injection H as <-. cbn [js_to_string]. f_equal.
    revert parts M. induction l as [|x t IHl]; intros parts M.
    + injection M as <-. reflexivity.
    + cbn [map_out] in M.
      match type of M with
      | (y <- ?g ;; _) = _ => destruct g as [y|] eqn:Gx; cbn [bind] in M; [|discriminate]
      end.
      destruct (map_out _ t) as [ys|] eqn:Mt; cbn [bind] in M; [|discriminate].
      injection M as <-. cbn [map]. f_equal; [|exact (IHl ys eq_refl)].
      pose proof (IH x) as Ix.
      destruct x; cbv beta iota in Gx |- *; try (injection Gx as <-; reflexivity);
        exact (Ix _ Gx).
  - destruct (assoc "toString" ps); [discriminate|]. injection H as <-. reflexivity.
Qed.

Lemma map_out_String (l : list jsval) (cs : list string) :
  map_out js_String l = Ret cs -> cs = map js_to_string l.
Proof.
  revert cs. induction l as [|x t IH]; intros cs H; cbn [map_out] in H.
  - injection H as <-. reflexivity.
  - destruct (js_String x) as [c|] eqn:E; cbn [bind] in H; [|discriminate].
    destruct (map_out js_String t) as [cs'|] eqn:Et; cbn [bind] in H; [|discriminate].
    injection H as <-. cbn [map]. rewrite (js_String_to_string x c E), (IH cs' eq_refl).
    reflexivity.
Qed.

(** *** Own-property order after a clone *)

Lemma ordered_props_split {A} (ps : list (string * A)) :
  ordered_props ps =
  (map snd (idx_part ps) ++
   filter (fun kv => match index_of (fst kv) with Some _ => false | None => true end) ps)%list.
Proof. reflexivity. Qed.

Lemma insert_idx_good {A} (lo i : nat) (kv : string * A) (l : list (nat * (string * A))) :
  idx_good lo l = true -> lo <= i -> index_of (fst kv) = Some i ->
  idx_good lo (insert_idx (i, kv) l) = true.
Proof.
  revert lo. induction l as [|[j kw] t IH]; intros lo G Hl Hi.
  - cbn [insert_idx idx_good]. rewrite Hi, Nat.eqb_refl, (proj2 (Nat.leb_le _ _) Hl).
    reflexivity.
  - cbn [idx_good] in G. apply andb_true_iff in G as [G G3].
    apply andb_true_iff in G as [G1 G2].
    cbn [insert_idx fst]. destruct (Nat.leb i j) eqn:E; cbn [idx_good].
    + rewrite Hi, Nat.eqb_refl, (proj2 (Nat.leb_le _ _) Hl), E, G2, G3. reflexivity.
    + rewrite G1, G2. cbn [andb]. apply IH; [exact G3| |exact Hi].
      apply Nat.leb_gt in E. lia.
Qed.

Lemma idx_part_good {A} (ps : list (string * A)) : idx_good 0 (idx_part ps) = true.
Proof.
  induction ps as [|[k x] t IH]; [reflexivity|].
  unfold idx_part. cbn [fold_right fst]. change (fold_right _ [] t) with (idx_part t).
  destruct (index_of k) as [i|] eqn:I; [|exact IH].
  apply insert_idx_good; [exact IH|lia|exact I].
Qed.

Lemma good_sorted {A} (lo : nat) (l : list (nat * (string * A))) (rest : list (string * A)) :
  idx_good lo l = true ->
  forallb (fun kv => match index_of (fst kv) with Some _ => false | None => true end) rest
  = true ->
  idx_sorted_from lo (map snd l ++ rest)%list = true.
Proof.
  revert lo. induction l as [|[i [k x]] t IH]; intros lo G R.
  - cbn [map app]. destruct rest as [|[k x] t]; [reflexivity|].
    cbn [forallb fst] in R. cbn [idx_sorted_from].
    destruct (index_of k); [discriminate|exact R].
  - cbn [idx_good fst] in G. apply andb_true_iff in G as [G G3].
    apply andb_true_iff in G as [G1 G2].
    cbn [map app snd idx_sorted_from].
    destruct (index_of k) as [j|]; [|discriminate].
    apply Nat.eqb_eq in G2. subst j. rewrite G1. exact (IH i G3 R).
Qed.

Lemma forallb_filter_self {A} (f : A -> bool) (l : list A) : forallb f (filter f l) = true.
Proof.
  induction l as [|x t IH]; [reflexivity|]. cbn [filter].
  destruct (f x) eqn:E; [cbn [forallb]; rewrite E, IH; reflexivity|exact IH].
Qed.

(** Own keys come out in own-property order. *)
Lemma ordered_props_sorted {A} (ps : list (string * A)) :
  idx_sorted_from 0 (ordered_props ps) = true.
Proof.
  rewrite ordered_props_split. apply good_sorted; [apply idx_part_good|].
  apply forallb_filter_self.
Qed.

Lemma idx_part_nonidx {A} (ps : list (string * A)) :
  forallb (fun kv => match index_of (fst kv) with Some _ => false | None => true end) ps
  = true -> idx_part ps = [].
Proof.
  induction ps as [|[k x] t IH]; intros H; [reflexivity|].
  cbn [forallb fst] in H. destruct (index_of k) eqn:I; [discriminate|].
  unfold idx_part. cbn [fold_right fst]. rewrite I. exact (IH H).
Qed.

(** Keys already in own-property order are left where they are. *)
Lemma sorted_ordered {A} (ps : list (string * A)) (lo : nat) :
  idx_sorted_from lo ps = true ->
  (forall p, In p (idx_part ps) -> lo <= fst p) /\ ordered_props ps = ps.
Proof.
  revert lo. induction ps as [|[k x] t IH]; intros lo H.
  - split; [intros p []|reflexivity].
  - cbn [idx_sorted_from] in H. destruct (index_of k) as [i|] eqn:I.
    + apply andb_true_iff in H as [H1 H2]. apply Nat.leb_le in H1.
      destruct (IH i H2) as [Hlo Ho].
      assert (E : idx_part ((k, x) :: t) = (i, (k, x)) :: idx_part t).
      { unfold idx_part at 1. cbn [fold_right fst]. rewrite I.
        change (fold_right _ [] t) with (idx_part t).
        destruct (idx_part t) as [|q r] eqn:Q; [reflexivity|].
        cbn [insert_idx fst].
        assert (Lq : i <= fst q) by (apply Hlo; left; reflexivity).
        rewrite (proj2 (Nat.leb_le _ _) Lq). reflexivity. }
      split.
      * intros p Hp. rewrite E in Hp. destruct Hp as [<-|Hp]; [exact H1|].
        specialize (Hlo p Hp). lia.
      * rewrite ordered_props_split, E. cbn [map filter fst snd]. rewrite I.
        cbv beta iota. cbn [app]. f_equal. rewrite ordered_props_split in Ho. exact Ho.
    + assert (F : forallb (fun kv => match index_of (fst kv) with
                                     | Some _ => false
                                     | None => true
                                     end) ((k, x) :: t) = true)
        by (cbn [forallb fst]; rewrite I; exact H).
      split.
      * rewrite (idx_part_nonidx _ F). intros p [].
      * exact (ordered_props_noindex _ F).
Qed.

Lemma assoc_app (k : string) (a b : list (string * jsval)) :
  assoc k (a ++ b)%list = match assoc k a with Some v => Some v | None => assoc k b end.
Proof.
  induction a as [|[k' x] t IH]; [reflexivity|]. cbn [app assoc].
  destruct (String.eqb k k'); [reflexivity|exact IH].
Qed.

Lemma index_of_differ (k k' : string) (i : nat) :
  index_of k = None -> index_of k' = Some i -> String.eqb k k' = false.
Proof.
  intros H H'. destruct (String.eqb k k') eqn:E; [|reflexivity].
  apply String.eqb_eq in E. subst k'. congruence.
Qed.

Lemma good_assoc_none (k : string) (lo : nat) (l : list (nat * (string * jsval))) :
  idx_good lo l = true -> index_of k = None -> assoc k (map snd l) = None.
Proof.
  revert lo. induction l as [|[i [k' x]] t IH]; intros lo G Hk; [reflexivity|].
  cbn [idx_good fst] in G. apply andb_true_iff in G as [G G3].
  apply andb_true_iff in G as [_ G2].
  destruct (index_of k') as [j|] eqn:I; [|discriminate].
  cbn [map snd assoc]. rewrite (index_of_differ k k' j Hk I). exact (IH i G3 Hk).
Qed.

(** Sorting the keys does not change what a non-index key reads. *)
Lemma assoc_ordered_nonidx (k : string) (ps : list (string * jsval)) :
  index_of k = None -> assoc k (ordered_props ps) = assoc k ps.
Proof.
  intros Hk. rewrite ordered_props_split, assoc_app.
  rewrite (good_assoc_none k 0 _ (idx_part_good ps) Hk).
  induction ps as [|[k' x] t IH]; [reflexivity|]. cbn [filter fst assoc].
  destruct (index_of k') as [j|] eqn:I; cbv beta iota.
  - rewrite (index_of_differ k k' j Hk I). exact IH.
  - cbn [assoc]. destruct (String.eqb k k'); [reflexivity|exact IH].
Qed.

Lemma forallb_ordered {A} (f : string * A -> bool) (ps : list (string * A)) :
  forallb f ps = true -> forallb f (ordered_props ps) = true.
Proof.
  intros H. apply forallb_forall. intros x Hx.
  exact (proj1 (forallb_forall f ps) H x (ordered_props_incl ps x Hx)).
Qed.

(** *** [JSON.parse(JSON.stringify(v))] on JSON data *)

Lemma json_clone_obj (ps : list (string * jsval)) :
  json_clone (JObj ps) = JObj (ordered_props (clone_members ps)).
Proof.
  reflexivity.
Qed.

Lemma data_assoc (ps : list (string * jsval)) (k : string) (x : jsval) :
  forallb (fun kv => json_data (snd kv)) ps = true -> assoc k ps = Some x ->
  json_data x = true.
Proof.
  induction ps as [|[k' v'] t IH]; intros H A; [discriminate|].
  cbn [forallb snd] in H. cbn [assoc] in A. apply andb_true_iff in H as [H1 H2].
  destruct (String.eqb k k'); [injection A as <-; exact H1|exact (IH H2 A)].
Qed.

Lemma assoc_clone_members (k : string) (ps : list (string * jsval)) :
  forallb (fun kv => json_data (snd kv)) ps = true ->
  assoc k (clone_members ps) = option_map json_clone (assoc k ps).
Proof.
  induction ps as [|[k' x] t IH]; intros H; [reflexivity|].
  cbn [forallb snd] in H. apply andb_true_iff in H as [Hx Ht].
  destruct x; try discriminate Hx; cbn [clone_members assoc];
    (destruct (String.eqb k k'); [reflexivity|exact (IH Ht)]).
Qed.

(** A canonical value is its own clone. *)
Lemma canon_clone : forall v, json_canon v = true -> json_clone v = v.
Proof.
  fix IH 1. intros v H.
  destruct v as [| | b | n | s | l | ps | f]; cbn [json_canon] in H;
    try reflexivity; try discriminate H.
  - cbn [json_clone]. rewrite H. reflexivity.
  - cbn [json_clone]. f_equal. induction l as [|x t IHl]; [reflexivity|].
    cbn [forallb map] in H |- *. apply andb_true_iff in H as [Hx Ht].
    rewrite (IHl Ht). f_equal.
    pose proof (IH x Hx) as Ex.
    destruct x; try discriminate Hx; cbv beta iota; exact Ex.
  - apply andb_true_iff in H as [Hs Hv]. rewrite json_clone_obj.
    assert (M : clone_members ps = ps).
    { clear Hs. induction ps as [|[k x] t IHp]; [reflexivity|].
      cbn [forallb snd] in Hv. apply andb_true_iff in Hv as [Hx Ht].
      pose proof (IH x Hx) as Ex.
      destruct x; try discriminate Hx; cbn [clone_members];
        rewrite Ex, (IHp Ht); reflexivity. }
    rewrite M. f_equal. exact (proj2 (sorted_ordered ps 0 Hs)).
Qed.

(** The clone of JSON data is canonical. *)
Lemma data_canon_clone : forall v, json_data v = true -> json_canon (json_clone v) = true.
Proof.
  fix IH 1. intros v H.
  destruct v as [| | b | n | s | l | ps | f]; cbn [json_data] in H;
    try reflexivity; try discriminate H.
  - cbn [json_clone]. rewrite H. cbn [json_canon]. exact H.
  - cbn [json_clone json_canon]. induction l as [|x t IHl]; [reflexivity|].
    cbn [forallb map] in H |- *. apply andb_true_iff in H as [Hx Ht].
    pose proof (IH x Hx) as Cx.
    destruct x; try discriminate Hx; cbv beta iota; rewrite Cx, (IHl Ht); reflexivity.
  - rewrite json_clone_obj. cbn [json_canon]. rewrite ordered_props_sorted. cbn [andb].
    apply forallb_ordered.
    induction ps as [|[k x] t IHp]; [reflexivity|].
    cbn [forallb snd] in H. apply andb_true_iff in H as [Hx Ht].
    pose proof (IH x Hx) as Cx.
    destruct x; try discriminate Hx; cbn [clone_members forallb snd];
      rewrite Cx, (IHp Ht); reflexivity.
Qed.

(** [String] converts JSON data and its clone alike. *)
Lemma js_String_clone : forall v, json_data v = true -> js_String (json_clone v) = js_String v.
Proof.
  fix IH 1. intros v H.
  destruct v as [| | b | n | s | l | ps | f]; cbn [json_data] in H;
    try reflexivity; try discriminate H.
  - cbn [json_clone]. rewrite H. reflexivity.
  - cbn [json_clone js_String]. f_equal.
    induction l as [|x t IHl]; [reflexivity|].
    cbn [forallb] in H. apply andb_true_iff in H as [Hx Ht].
    pose proof (IH x Hx) as Cx.
    destruct x; try discriminate Hx; cbn [json_data] in Hx;
      cbn [map map_out json_clone] in Cx |- *;
      try (rewrite Hx; cbv beta iota); rewrite ?Cx, (IHl Ht); reflexivity.
  - rewrite json_clone_obj. cbn [js_String].
    rewrite assoc_ordered_nonidx by reflexivity. rewrite assoc_clone_members by exact H.
    destruct (assoc "toString" ps); reflexivity.
Qed.

Lemma truthy_clone (v : jsval) : json_data v = true -> truthy (json_clone v) = truthy v.
Proof.
  intros H. destruct v; cbn [json_data] in H; try reflexivity.
  cbn [json_clone]. rewrite H. reflexivity.
Qed.

Lemma clone_str (v : jsval) (s : string) : json_clone v = JStr s -> v = JStr s.
Proof.
  destruct v; cbn [json_clone]; intros H; try discriminate H; try exact H.
  destruct (num_finite n); discriminate H.
Qed.

Lemma rule_names_clone (r : jsval) :
  json_data r = true -> rule_names_ok r -> rule_names_ok (json_clone r).
Proof.
  intros Hd Hn. destruct r as [| | b | n | s | l | ps | f]; try exact I.
  - cbn [json_clone]. destruct (num_finite n); exact I.
  - rewrite json_clone_obj.
    cbn [json_data] in Hd. destruct Hn as [H1 H2]. split.
    + intros v s A T S.
      rewrite assoc_ordered_nonidx, assoc_clone_members in A by first [reflexivity|exact Hd].
      destruct (assoc "category" ps) as [v0|] eqn:A0; cbn [option_map] in A;
        [injection A as <-|discriminate].
      pose proof (data_assoc _ _ _ Hd A0) as D0.
      rewrite truthy_clone in T by exact D0. rewrite js_String_clone in S by exact D0.
      exact (H1 v0 s eq_refl T S).
    + intros s pre q lit post A F.
      rewrite assoc_ordered_nonidx, assoc_clone_members in A by first [reflexivity|exact Hd].
      destruct (assoc "condition" ps) as [v0|] eqn:A0; cbn [option_map] in A;
        [injection A as A|discriminate].
      apply clone_str in A. subst v0. exact (H2 s pre q lit post eq_refl F).
Qed.

Lemma nonidx_set_assoc (k : string) (v : jsval) (ps : list (string * jsval)) :
  index_of k = None ->
  forallb (fun kv => match index_of (fst kv) with Some _ => false | None => true end) ps
  = true ->
  forallb (fun kv => match index_of (fst kv) with Some _ => false | None => true end)
    (set_assoc k v ps) = true.
Proof.
  intros Hk. induction ps as [|[k' x] t IH]; intros H; cbn [set_assoc].
  - cbn [forallb fst]. rewrite Hk. reflexivity.
  - cbn [forallb fst] in H. apply andb_true_iff in H as [H1 H2].
    destruct (String.eqb k k') eqn:E; cbn [forallb fst].
    + rewrite H1, H2. reflexivity.
    + rewrite H1, (IH H2). reflexivity.
Qed.

Lemma sorted_set_assoc (lo : nat) (k : string) (v : jsval) (ps : list (string * jsval)) :
  index_of k = None -> idx_sorted_from lo ps = true ->
  idx_sorted_from lo (set_assoc k v ps) = true.
Proof.
  intros Hk. revert lo. induction ps as [|[k' x] t IH]; intros lo H; cbn [set_assoc].
  - cbn [idx_sorted_from]. rewrite Hk. reflexivity.
  - destruct (String.eqb k k') eqn:E; [exact H|].
    cbn [idx_sorted_from] in H |- *. destruct (index_of k') as [i|].
    + apply andb_true_iff in H as [H1 H2]. rewrite H1, (IH i H2). reflexivity.
    + exact (nonidx_set_assoc k v t Hk H).
Qed.

Lemma canon_set_assoc (k : string) (v : jsval) (ps : list (string * jsval)) :
  index_of k = None -> json_canon v = true -> json_canon (JObj ps) = true ->
  json_canon (JObj (set_assoc k v ps)) = true.
Proof.
  intros Hk Hv H. cbn [json_canon] in H |- *. apply andb_true_iff in H as [Hs Hp].
  rewrite (sorted_set_assoc 0 k v ps Hk Hs). cbn [andb]. clear Hs.
  induction ps as [|[k' x] t IH]; cbn [set_assoc].
  - cbn [forallb snd]. rewrite Hv. reflexivity.
  - cbn [forallb snd] in Hp. apply andb_true_iff in Hp as [H1 H2].
    destruct (String.eqb k k'); cbn [forallb snd].
    + rewrite Hv, H2. reflexivity.
    + rewrite H1, (IH H2). reflexivity.
Qed.

(** *** One alignment pass is a fixed point *)

Lemma align_rule_split (cats : list string) (lm : list (string * jsval)) (r : jsval) :
  align_rule cats lm r =
  (cat <- get_prop r "category" ;;
   r1 <- (if truthy cat then c <- mapCategory cats lm cat ;; Ret (set_prop r "category" c)
          else Ret r) ;;
   align_rule_condition cats lm r1).
Proof. reflexivity. Qed.

Lemma mapCategory_str (cats : list string) (lm : list (string * jsval)) (s : string) :
  exists m, mapCategory cats lm (JStr s) = Ret m.
Proof.
  unfold mapCategory. destruct (negb (truthy (JStr s))); [eauto|].
  cbn [js_String js_to_string bind].
  destruct (String.eqb (js_trim s) ""); [eauto|].
  destruct (truthy _); [eauto|]. destruct (find _ cats); eauto.
Qed.

Lemma align_cond_fixed (cats : list string) (lm : list (string * jsval))
  (rp : list (string * jsval)) :
  (forall s pre q lit post, assoc "condition" rp = Some (JStr s) ->
     first_literal s = Some (pre, q, lit, post) ->
     forall m, mapCategory cats lm (JStr lit) = Ret m ->
     truthy m && negb (js_strict_eq m (JStr lit)) = false) ->
  align_rule_condition cats lm (JObj rp) = Ret (JObj rp).
Proof.
  intros Hd. unfold align_rule_condition. cbn [get_prop].
  destruct (assoc "condition" rp) as [cd|] eqn:C; cbn [bind]; [|reflexivity].
  destruct cd; try reflexivity.
  destruct (String.eqb s ""); [reflexivity|].
  destruct (first_literal s) as [[[[pre q] lit] post]|] eqn:F; [|reflexivity].
  destruct (mapCategory_str cats lm lit) as [m M]. rewrite M. cbn [bind].
  rewrite (Hd s pre q lit post eq_refl F m M). reflexivity.
Qed.

Lemma align_rule_fixed (cats : list string) (lm : list (string * jsval))
  (rp : list (string * jsval)) :
  (forall v, assoc "category" rp = Some v -> truthy v = true ->
             mapCategory cats lm v = Ret v) ->
  (forall s pre q lit post, assoc "condition" rp = Some (JStr s) ->
     first_literal s = Some (pre, q, lit, post) ->
     forall m, mapCategory cats lm (JStr lit) = Ret m ->
     truthy m && negb (js_strict_eq m (JStr lit)) = false) ->
  align_rule cats lm (JObj rp) = Ret (JObj rp).
Proof.
  intros Hc Hd. rewrite align_rule_split. cbn [get_prop].
  destruct (assoc "category" rp) as [v|] eqn:A; cbn [bind].
  - destruct (truthy v) eqn:T; [|apply align_cond_fixed; exact Hd].
    rewrite (Hc v eq_refl T). cbn [bind set_prop]. rewrite set_assoc_same by exact A.
    apply align_cond_fixed; exact Hd.
  - change (truthy (proto_prop "category")) with false. cbv iota. cbn [bind].
    apply align_cond_fixed; exact Hd.
Qed.

Lemma align_cond_result (cats : list string) (rp : list (string * jsval)) (r' : jsval) :
  cats_ok cats ->
  (forall s pre q lit post, assoc "condition" rp = Some (JStr s) ->
     first_literal s = Some (pre, q, lit, post) -> proto_free lit = true) ->
  align_rule_condition cats (lower_map cats) (JObj rp) = Ret r' ->
  exists rp', r' = JObj rp' /\ assoc "category" rp' = assoc "category" rp /\
    (forall s pre q lit post, assoc "condition" rp' = Some (JStr s) ->
       first_literal s = Some (pre, q, lit, post) ->
       forall m, mapCategory cats (lower_map cats) (JStr lit) = Ret m ->
       truthy m && negb (js_strict_eq m (JStr lit)) = false) /\
    (rp' = rp \/ exists s', rp' = set_assoc "condition" (JStr s') rp).
Proof.
  intros Hc Hn H. unfold align_rule_condition in H. cbn [get_prop] in H.
  destruct (assoc "condition" rp) as [cd|] eqn:C; cbn [bind] in H.
  2:{ injection H as <-. exists rp. repeat split; try reflexivity; [|left; reflexivity].
      intros s pre q lit post C'. rewrite C in C'. discriminate. }
  destruct cd as [| | b | n | s | l | ps | f];
    try (injection H as <-; exists rp; repeat split; try reflexivity; [|left; reflexivity];
         intros s' pre q lit post C'; rewrite C in C'; discriminate).
  destruct (String.eqb s "") eqn:Es.
  { injection H as <-. exists rp. repeat split; try reflexivity; [|left; reflexivity].
    intros s' pre q lit post C' F. rewrite C in C'. injection C' as <-.
    apply String.eqb_eq in Es. subst s. discriminate F. }
  destruct (first_literal s) as [[[[pre q] lit] post]|] eqn:F.
  2:{ injection H as <-. exists rp. repeat split; try reflexivity; [|left; reflexivity].
      intros s' pre q lit post C' F'. rewrite C in C'. injection C' as <-. congruence. }
  destruct (mapCategory_str cats (lower_map cats) lit) as [m M]. rewrite M in H.
  cbn [bind] in H.
  destruct (truthy m && negb (js_strict_eq m (JStr lit))) eqn:D.
  2:{ injection H as <-. exists rp. repeat split; try reflexivity; [|left; reflexivity].
      intros s' pre' q' lit' post' C' F' m' M'. rewrite C in C'. injection C' as <-.
      rewrite F in F'. injection F' as <- <- <- <-. rewrite M in M'.
      injection M' as <-. exact D. }
  injection H as <-.
  assert (Hp : forall s0, js_String (JStr lit) = Ret s0 -> proto_free s0 = true).
  { intros s0 S0. cbn [js_String js_to_string] in S0. injection S0 as <-.
    exact (Hn s pre q lit post eq_refl F). }
  destruct (mapCategory_cases cats (JStr lit) m Hp M) as [->|[c [Hin ->]]].
  { cbn [js_strict_eq] in D. rewrite String.eqb_refl in D.
    rewrite andb_false_r in D. discriminate. }
  destruct Hc as [Hnd Hall].
  pose proof (proj1 (Forall_forall _ _) Hall c Hin) as (_ & _ & H1 & H2 & H3).
  assert (Hc0 : c <> "").
  { cbn [truthy] in D. intros ->. discriminate D. }
  destruct (replace_first_literal s pre lit post c q F Hc0 H1 H2 H3) as [R F1].
  change (js_to_string (JStr c)) with c.
  change (String q (lit ++ ch q)) with (ch q ++ lit ++ ch q).
  change (String q (c ++ ch q)) with (ch q ++ c ++ ch q).
  rewrite R. cbn [set_prop].
  exists (set_assoc "condition" (JStr (pre ++ String q (c ++ String q post))) rp).
  repeat split.
  - apply assoc_set_assoc_other. discriminate.
  - intros s' pre' q' lit' post' C' F' m' M'. rewrite assoc_set_assoc in C'.
    injection C' as <-. rewrite F1 in F'. injection F' as <- <- <- <-.
    rewrite (mapCategory_cat cats c (conj Hnd Hall) Hin) in M'. injection M' as <-.
    cbn [js_strict_eq]. rewrite String.eqb_refl, andb_false_r. reflexivity.
  - right. eexists. reflexivity.
Qed.

Lemma canon_cond_form (rp rp' : list (string * jsval)) :
  json_canon (JObj rp) = true ->
  (rp' = rp \/ exists s', rp' = set_assoc "condition" (JStr s') rp) ->
  json_canon (JObj rp') = true.
Proof.
  intros P [->|[s' ->]]; [exact P|].
  apply canon_set_assoc; [reflexivity|reflexivity|exact P].
Qed.

Lemma align_rule_idem (cats : list string) (r r' : jsval) :
  cats_ok cats -> rule_names_ok r ->
  align_rule cats (lower_map cats) r = Ret r' ->
  align_rule cats (lower_map cats) r' = Ret r' /\
  (json_canon r = true -> json_canon r' = true).
Proof.
  intros Hc Hn H. rewrite align_rule_split in H.
  destruct r as [| | b | n | s | l | rp | f];
    try discriminate H;
    try (cbn [get_prop bind truthy align_rule_condition] in H;
         injection H as <-; split; [rewrite align_rule_split; reflexivity|tauto]).
  destruct Hn as [Hn1 Hn2]. cbn [get_prop] in H.
  destruct (assoc "category" rp) as [v|] eqn:A; cbn [bind] in H.
  - destruct (truthy v) eqn:T.
    + destruct (mapCategory cats (lower_map cats) v) as [w|] eqn:M;
        cbn [bind set_prop] in H; [|discriminate].
      assert (Hp : forall s, js_String v = Ret s -> proto_free s = true)
        by (intros s S; exact (Hn1 v s eq_refl T S)).
      apply align_cond_result in H as (rp' & -> & Ecat & Hd & Hform); [|exact Hc|].
      * split.
        -- apply align_rule_fixed; [|exact Hd].
           intros v' A' T'. rewrite Ecat, assoc_set_assoc in A'. injection A' as <-.
           exact (mapCategory_idem cats v w Hc Hp M).
        -- intros P. eapply canon_cond_form; [|exact Hform].
           destruct (mapCategory_cases cats v w Hp M) as [->|[c [_ ->]]].
           ++ rewrite set_assoc_same by exact A. exact P.
           ++ apply canon_set_assoc; [reflexivity|reflexivity|exact P].
      * intros s pre q lit post C. rewrite assoc_set_assoc_other in C by discriminate.
        exact (Hn2 s pre q lit post C).
    + cbn [bind] in H.
      apply align_cond_result in H as (rp' & -> & Ecat & Hd & Hform); [|exact Hc|exact Hn2].
      split; [|intros P; exact (canon_cond_form _ _ P Hform)].
      apply align_rule_fixed; [|exact Hd].
      intros v' A' T'. rewrite Ecat, A in A'. injection A' as <-. congruence.
  - change (truthy (proto_prop "category")) with false in H. cbv iota in H.
    cbn [bind] in H.
    apply align_cond_result in H as (rp' & -> & Ecat & Hd & Hform); [|exact Hc|exact Hn2].
    split; [|intros P; exact (canon_cond_form _ _ P Hform)].
    apply align_rule_fixed; [|exact Hd].
    intros v' A' T'. rewrite Ecat, A in A'. discriminate.
Qed.

Lemma align_rules_idem (cats : list string) (l l' : list jsval) :
  cats_ok cats -> Forall rule_names_ok l ->
  align_rules cats (lower_map cats) l = Ret l' ->
  align_rules cats (lower_map cats) l' = Ret l' /\
  (forallb json_canon l = true -> forallb json_canon l' = true).
Proof.
  intros Hc. revert l'. induction l as [|r t IH]; intros l' Hn H.
  - injection H as <-. split; reflexivity.
  - inversion Hn as [|? ? Hr Ht]; subst. cbn [align_rules] in H.
    destruct (align_rule cats (lower_map cats) r) as [r'|] eqn:R; cbn [bind] in H;
      [|discriminate].
    destruct (align_rules cats (lower_map cats) t) as [t'|] eqn:T; cbn [bind] in H;
      [|discriminate].
    injection H as <-.
    destruct (align_rule_idem cats r r' Hc Hr R) as [R' Pr].
    destruct (IH t' Ht eq_refl) as [T' Pt].
    split.
    + cbn [align_rules]. rewrite R', T'. reflexivity.
    + cbn [forallb]. intros P. apply andb_true_iff in P as [P1 P2].
      rewrite (Pr P1), (Pt P2). reflexivity.
Qed.

(** C9 (amended): aligning a JSON rule document (a value [JSON.parse] can
    produce) twice against the same dataset categories gives the document
    of the first alignment, when the categories (as strings) are pairwise
    distinct ignoring case, already trimmed, free of quotes and of [$], and
    none of them, no rule category and no first quoted literal of a
    condition lower-cases to a member name of [Object.prototype]. *)
Theorem align_idempotent (parsed : jsval) (dcats : list jsval) (out1 : jsval) :
  cats_ok (map js_to_string dcats) ->
  json_data parsed = true ->
  (forall rs, get_prop parsed "rules" = Ret (JArr rs) -> Forall rule_names_ok rs) ->
  alignParsedCategoriesWithDataset parsed dcats = Ret out1 ->
  alignParsedCategoriesWithDataset out1 dcats = Ret out1.
Proof.
  intros Hc Hd Hn H. pose proof H as H0. unfold alignParsedCategoriesWithDataset in H.
  destruct (negb (truthy parsed)) eqn:T; [injection H as ->; exact H0|].
  destruct (get_prop parsed "rules") as [rs|] eqn:G; cbn [bind] in H; [|discriminate].
  destruct (negb (is_array rs)) eqn:IA; [injection H as ->; exact H0|].
  destruct rs as [| | | | | l | |]; try discriminate IA.
  specialize (Hn l eq_refl).
  destruct (map_out js_String dcats) as [cats|] eqn:Ecats; cbn [bind] in H; [|discriminate].
  pose proof (map_out_String _ _ Ecats) as ->.
  destruct parsed as [| | | | | | ps |]; cbn [get_prop] in G; try discriminate G.
  all: try (vm_compute in G; discriminate G).
  destruct (assoc "rules" ps) as [x|] eqn:AR;
    [injection G as ->|change (proto_prop "rules") with JUndef in G; discriminate].
  pose proof Hd as Hd'. cbn [json_data] in Hd'.
  pose proof (data_assoc _ _ _ Hd' AR) as Dl. cbn [json_data] in Dl.
  pose proof (data_canon_clone (JArr l) Dl) as Cl. cbn [json_clone json_canon] in Cl.
  assert (Nl : Forall rule_names_ok
                 (map (fun x => match x with
                                | JUndef | JFun _ => JNull
                                | _ => json_clone x
                                end) l)).
  { apply Forall_forall. intros r Hr. apply in_map_iff in Hr as (x & <- & Hx).
    pose proof (proj1 (forallb_forall _ _) Dl x Hx) as Dx.
    pose proof (proj1 (Forall_forall _ _) Hn x Hx) as Nx.
    destruct x; try discriminate Dx; apply rule_names_clone; assumption. }
  rewrite json_clone_obj in H. cbn [get_prop] in H.
  rewrite assoc_ordered_nonidx, assoc_clone_members, AR in H by first [reflexivity|exact Hd'].
  cbn [option_map bind json_clone js_or truthy] in H.
  destruct (align_rules _ _ _) as [l'|] eqn:AL in H; cbn [bind] in H; [|discriminate].
  injection H as <-.
  destruct (align_rules_idem _ _ _ Hc Nl AL) as [AL' Pl].
  assert (Pout : json_canon (JObj (set_assoc "rules" (JArr l')
                                   (ordered_props (clone_members ps)))) = true).
  { apply canon_set_assoc; [reflexivity| |].
    - cbn [json_canon]. exact (Pl Cl).
    - rewrite <- json_clone_obj. exact (data_canon_clone _ Hd). }
  cbn [replace_rules]. unfold alignParsedCategoriesWithDataset.
  cbn [truthy negb get_prop]. rewrite assoc_set_assoc. cbn [bind is_array negb].
  rewrite Ecats. cbn [bind].
  rewrite canon_clone by exact Pout. cbn [get_prop].
  rewrite assoc_set_assoc. cbn [bind js_or truthy]. rewrite AL'. cbn [bind replace_rules].
  rewrite set_assoc_same by apply assoc_set_assoc. reflexivity.
Qed.

Lemma align_idempotent_witness :
  let dcats := [JStr "Meals"; JStr "Travel"] in
  let d := JObj [("rules", JArr [JObj [("category", JStr "meal");
                                       ("condition", JStr "category == 'travel'")]])] in
  let d1 := JObj [("rules", JArr [JObj [("category", JStr "Meals");
                                        ("condition", JStr "category == 'Travel'")]])] in
  alignParsedCategoriesWithDataset d dcats = Ret d1 /\
  alignParsedCategoriesWithDataset d1 dcats = Ret d1.
Proof.
  cbv zeta.
  assert (E : alignParsedCategoriesWithDataset
    (JObj [("rules", JArr [JObj [("category", JStr "meal");
                                 ("condition", JStr "category == 'travel'")]])])
    [JStr "Meals"; JStr "Travel"] =
    Ret (JObj [("rules", JArr [JObj [("category", JStr "Meals");
                                     ("condition", JStr "category == 'Travel'")]])]))
    by (vm_compute; reflexivity).
  split; [exact E|].
  apply (align_idempotent
    (JObj [("rules", JArr [JObj [("category", JStr "meal");
                                 ("condition", JStr "category == 'travel'")]])])).
  - split.
    + vm_compute. repeat constructor; intros Hi; cbn in Hi; intuition discriminate.
    + repeat constructor; vm_compute; reflexivity.
  - vm_compute. reflexivity.
  - intros rs G. vm_compute in G. injection G as <-. repeat constructor.
    + intros v s A T S. vm_compute in A. injection A as <-. vm_compute in S.
      injection S as <-. vm_compute. reflexivity.
    + intros s pre q lit post C F. vm_compute in C. injection C as <-.
      vm_compute in F. injection F as <- <- <- <-. vm_compute. reflexivity.
  - exact E.
Defined.

(** ** Extras: verdicts of [applyPolicyToRows] *)

Lemma evaluate_true_truthy (rule tx : jsval) :
  evaluateRuleAgainstTx rule tx = Ret true -> truthy rule = true.
Proof.
  unfold evaluateRuleAgainstTx. destruct (truthy rule) eqn:T; [reflexivity|].
  cbn [bind]. unfold js_or. rewrite T. cbn. discriminate.
Qed.

Lemma rule_label_truthy (rule : jsval) :
  truthy rule = true -> exists x, rule_label rule = Ret x.
Proof.
  intros T. unfold rule_label.
  destruct (truthy_get_prop rule "name" T) as [n ->]. cbn [bind].
  destruct (truthy n); [eauto|].
  destruct (truthy_get_prop rule "violation_message" T) as [m ->]. cbn [bind].
  destruct (truthy m); eauto.
Qed.

Lemma violated_rules_hits (rs : list jsval) (r : list (string * jsval)) :
  Forall2 (fun rule x => rule_label rule = Ret x) (rule_hits rs r) (violated_rules rs (JObj r)).
Proof.
  induction rs as [|rule t IH]; [constructor|]. cbn [violated_rules rule_hits filter].
  fold (rule_hits t r).
  destruct (evaluateRuleAgainstTx rule (JObj r)) as [[]|] eqn:E; cbn [app]; try exact IH.
  destruct (rule_label_truthy rule (evaluate_true_truthy _ _ E)) as [x Hx].
  rewrite Hx. cbn [app]. constructor; [exact Hx|exact IH].
Qed.

Lemma violated_rules_app (a b : list jsval) (r : jsval) :
  violated_rules (a ++ b) r = (violated_rules a r ++ violated_rules b r)%list.
Proof.
  induction a as [|x t IH]; [reflexivity|]. cbn [app violated_rules].
  rewrite IH, app_assoc. reflexivity.
Qed.

Lemma Forall2_map_self {A B} (f : A -> B) (P : A -> B -> Prop) (l : list A) :
  (forall a, In a l -> P a (f a)) -> Forall2 P l (map f l).
Proof.
  induction l as [|a t IH]; intros H; constructor.
  - apply H. left; reflexivity.
  - apply IH. intros b Hb. apply H. right; exact Hb.
Qed.

Lemma map_out_ret {A B} (f : A -> B) (l : list A) :
  map_out (fun a => Ret (f a)) l = Ret (map f l).
Proof.
  induction l as [|a t IH]; [reflexivity|]. cbn [map_out map bind]. rewrite IH. reflexivity.
Qed.

Lemma map_out_ext_in {A B} (f g : A -> outcome B) (l : list A) :
  (forall a, In a l -> f a = g a) -> map_out f l = map_out g l.
Proof.
  induction l as [|a t IH]; intros H; [reflexivity|]. cbn [map_out].
  rewrite (H a (or_introl eq_refl)), IH; [reflexivity|].
  intros b Hb. exact (H b (or_intror Hb)).
Qed.

(** What [map_out] returns: [P] relates each element to its image, and an
    exception comes from an element on which [f] throws. *)
Lemma map_out_spec {A B} (f : A -> outcome B) (P : A -> B -> Prop) (Q : A -> Prop)
  (l : list A) :
  (forall a, In a l -> match f a with Ret b => P a b | Exc => Q a end) ->
  match map_out f l with
  | Ret out => Forall2 P l out
  | Exc => exists a, In a l /\ Q a
  end.
Proof.
  induction l as [|a t IH]; intros H; [constructor|]. cbn [map_out].
  pose proof (H a (or_introl eq_refl)) as Ha.
  assert (Ht : forall b, In b t -> match f b with Ret c => P b c | Exc => Q b end)
    by (intros b Hb; exact (H b (or_intror Hb))).
  specialize (IH Ht).
  destruct (f a) as [b|]; cbn [bind]; [|exists a; split; [left; reflexivity|exact Ha]].
  destruct (map_out f t) as [out|]; cbn [bind].
  - constructor; assumption.
  - destruct IH as [a' [Hin Hq]]. exists a'. split; [right; exact Hin|exact Hq].
Qed.

Lemma apply_policy_rules_obj (ps : list (string * jsval)) (rs : list jsval)
  (rows : list (list (string * jsval))) :
  applyPolicyToRows (JObj (set_assoc "rules" (JArr rs) ps)) rows
  = map_out (fun r => let violated := violated_rules rs (JObj r) in
                      policy <- verdict (match violated with [] => true | _ => false end)
                                        violated ;;
                      Ret (with_policy r policy)) rows.
Proof.
  unfold applyPolicyToRows. cbn [truthy]. rewrite get_prop_obj, assoc_set_assoc.
  cbn [bind]. destruct rs; [|reflexivity].
  symmetry. exact (map_out_ret (fun r => with_policy r verdict_compliant) rows).
Qed.

Lemma apply_policy_verdicts (doc : jsval) (rows : list (list (string * jsval))) :
  match applyPolicyToRows doc rows with
  | Ret out =>
      Forall2 (fun r o => exists vs v,
                 Forall2 (fun rule x => rule_label rule = Ret x) (rule_hits (doc_rules doc) r) vs
                 /\ verdict (match vs with [] => true | _ => false end) vs = Ret v
                 /\ o = with_policy r v)
              rows out
  | Exc =>
      exists r, In r rows /\ exists vs,
        Forall2 (fun rule x => rule_label rule = Ret x) (rule_hits (doc_rules doc) r) vs
        /\ verdict (match vs with [] => true | _ => false end) vs = Exc
  end.
Proof.
  unfold applyPolicyToRows, doc_rules.
  assert (Hnil : forall rs, rs = [] ->
            Forall2 (fun r o => exists vs v,
               Forall2 (fun rule x => rule_label rule = Ret x) (rule_hits rs r) vs
               /\ verdict (match vs with [] => true | _ => false end) vs = Ret v
               /\ o = with_policy r v)
            rows (map (fun r => with_policy r verdict_compliant) rows)).
  { intros rs ->. apply Forall2_map_self. intros r _.
    exists [], verdict_compliant. split; [constructor|split; reflexivity]. }
  destruct (truthy doc) eqn:T.
  - destruct (truthy_get_prop doc "rules" T) as [x ->]. cbn [bind].
    destruct x as [| | | | | l | |]; try (apply Hnil; reflexivity).
    destruct l as [|y l]; [apply Hnil; reflexivity|].
    apply map_out_spec. intros r _. cbv zeta.
    pose proof (violated_rules_hits (y :: l) r) as Hv.
    destruct (verdict _ _) as [v|] eqn:V; cbn [bind].
    + exists (violated_rules (y :: l) (JObj r)), v. auto.
    + exists (violated_rules (y :: l) (JObj r)). auto.
  - cbn [bind]. apply Hnil; reflexivity.
Qed.

(** X1: [applyPolicyToRows] returns, in order, one row for each input row:
    the input row with its [policy] member set to the verdict built from
    the list that holds, in rule order, the label
    ([name || violation_message || JSON.stringify(rule)]) of each rule of
    [doc.rules] that evaluates to true on the row; the verdict's
    [compliant] flag is true exactly when that list is empty.  It throws
    only when building such a verdict throws for some input row: joining
    the labels into the [reason] text throws on a label that is an object
    with an own [toString] member. *)
Theorem applyPolicy_verdict_per_row (doc : jsval) (rows : list (list (string * jsval))) :
  match applyPolicyToRows doc rows with
  | Ret out =>
      Forall2 (fun r o => exists vs v,
                 Forall2 (fun rule x => rule_label rule = Ret x) (rule_hits (doc_rules doc) r) vs
                 /\ verdict (match vs with [] => true | _ => false end) vs = Ret v
                 /\ o = with_policy r v)
              rows out
  | Exc =>
      exists r, In r rows /\ exists vs,
        Forall2 (fun rule x => rule_label rule = Ret x) (rule_hits (doc_rules doc) r) vs
        /\ verdict (match vs with [] => true | _ => false end) vs = Exc
  end.
Proof. exact (apply_policy_verdicts doc rows). Qed.

(** X2: inserting into the rules array of a rule document a rule that
    evaluates to true on none of the rows (one without a condition, say)
    leaves the result of [applyPolicyToRows] unchanged. *)
Theorem applyPolicy_inert_rule (ps : list (string * jsval)) (rs1 rs2 : list jsval)
  (rule : jsval) (rows : list (list (string * jsval))) :
  (forall r, In r rows -> evaluateRuleAgainstTx rule (JObj r) <> Ret true) ->
  applyPolicyToRows (JObj (set_assoc "rules" (JArr (rs1 ++ rule :: rs2)) ps)) rows
  = applyPolicyToRows (JObj (set_assoc "rules" (JArr (rs1 ++ rs2)) ps)) rows.
Proof.
  intros H. rewrite !apply_policy_rules_obj. apply map_out_ext_in. intros r Hr. cbv zeta.
  rewrite violated_rules_app. cbn [violated_rules].
  destruct (evaluateRuleAgainstTx rule (JObj r)) as [[]|] eqn:E;
    [exfalso; exact (H r Hr E)| |]; cbn [app]; rewrite <- violated_rules_app; reflexivity.
Qed.

Lemma applyPolicy_inert_rule_witness :
  applyPolicyToRows
    (JObj (set_assoc "rules"
             (JArr ([JObj [("name", JStr "Big"); ("condition", JStr "amount > 100")]]
                    ++ JObj [("name", JStr "Draft")] :: []))
             [("version", JStr "1.0")]))
    [[("amount", JNum (NFin (Dec 200 0)))]; [("amount", JNum (NFin (Dec 50 0)))]]
  = applyPolicyToRows
    (JObj (set_assoc "rules"
             (JArr ([JObj [("name", JStr "Big"); ("condition", JStr "amount > 100")]] ++ []))
             [("version", JStr "1.0")]))
    [[("amount", JNum (NFin (Dec 200 0)))]; [("amount", JNum (NFin (Dec 50 0)))]].
Proof.
  apply applyPolicy_inert_rule.
  intros r [<-|[<-|[]]]; vm_compute; discriminate.
Defined.

(** ** Extras: exact amount clauses *)

Lemma amount_cond_parts (opstr T : string) (op : cmpop) (d : dec) :
  In (opstr, op) amount_ops -> numeral T = Some d ->
  let cond := ("amount " ++ opstr ++ " " ++ T)%string in
  js_trim cond = cond /\ strip_parens cond = cond /\
  js_split_kw "or" cond = [cond] /\ js_split_kw "and" cond = [cond] /\
  match_amount_exact cond = Some (op, d).
Proof.
  intros Hin Hd cond. destruct (numeral_num_chars T d Hd) as [HT Hne].
  assert (Et : trim_end cond = cond /\ drop_last_paren cond = cond).
  { replace cond with (("amount " ++ opstr ++ " ") ++ T)%string
      by (unfold cond; rewrite !str_app_assoc; reflexivity). split.
    - apply trim_end_app; [exact Hne|apply trim_end_num, HT].
    - apply drop_last_paren_app; [exact Hne|apply drop_last_paren_num, HT]. }
  assert (Hs : forall k kt, (forall c, (is_digit c || Ascii.eqb c "."%char) = true ->
                                       ci_eq k c = false) ->
                 sep_free_in (String k kt) ("amount " ++ opstr) (" " ++ T) = true ->
                 js_split_kw (String k kt) cond = [cond]).
  { intros k kt Hk Hp. unfold js_split_kw. apply sep_free_split. rewrite sep_free_in_nil.
    unfold cond. rewrite <- (str_app_assoc "amount " opstr). apply tail_sep_free; assumption. }
  destruct Et as [Et Ep].
  split; [unfold js_trim; exact Et|]. split; [exact Ep|].
  unfold amount_ops in Hin. cbn [In] in Hin.
  destruct Hin as [E|[E|[E|[E|[E|[E|[E|[]]]]]]]]; injection E as <- <-;
    (split; [apply Hs; [intros c Hc; apply (num_head_not_letter c Hc)|reflexivity]|]);
    (split; [apply Hs; [intros c Hc; apply (num_head_not_letter c Hc)|reflexivity]|]);
    (match goal with
     | |- match_amount_exact _ = Some (?o, _) =>
         transitivity (option_map (pair o) (numeral (drop_ws T))); [reflexivity|]
     end; rewrite drop_ws_num, Hd by exact HT; reflexivity).
Qed.

(** X3: a rule whose condition is [amount <op> <N>], with [<op>] one of
    [==], [=], [!=], [<=], [>=], [<], [>] and [<N>] a decimal numeral, is
    violated by exactly the transactions whose [Number(tx.amount || 0)]
    compares to [N] as [<op>] says ([==], [=] and [!=] as [===] and
    [!==]): an absent or zero amount counts as 0, a non-numeric one as NaN. *)
Theorem evaluate_amount_comparison (rp tx : list (string * jsval)) (opstr T : string)
  (op : cmpop) (d : dec) :
  In (opstr, op) amount_ops -> numeral T = Some d ->
  assoc "condition" rp = Some (JStr ("amount " ++ opstr ++ " " ++ T)) ->
  evaluateRuleAgainstTx (JObj rp) (JObj tx) = Ret (num_op_holds op (tx_amount_num tx) (NFin d)).
Proof.
  intros Hin Hd Hc.
  destruct (amount_cond_parts opstr T op d Hin Hd) as (Et & Ep & Eor & Eand & Em).
  rewrite (evaluate_obj_cond rp tx _ Hc), Et, Eor. cbn [map existsb]. rewrite Et.
  unfold group_sat. rewrite Eand. cbn [map forallb]. rewrite Et.
  unfold clause_sat. rewrite Ep, Et, Em, tx_amount_obj.
  rewrite andb_true_r, orb_false_r. reflexivity.
Qed.

Lemma evaluate_amount_comparison_witness :
  evaluateRuleAgainstTx (JObj [("condition", JStr "amount <= 12.5")])
                        (JObj [("amount", JStr "12.50")]) = Ret true.
Proof.
  rewrite (evaluate_amount_comparison [("condition", JStr "amount <= 12.5")]
             [("amount", JStr "12.50")] "<=" "12.5" OpLe (Dec 125 1)).
  - vm_compute. reflexivity.
  - cbn. tauto.
  - vm_compute. reflexivity.
  - reflexivity.
Defined.

(** ** Extras: category alignment *)

Lemma align_cond_obj (cats : list string) (lm : list (string * jsval))
  (rp : list (string * jsval)) (r' : jsval) :
  align_rule_condition cats lm (JObj rp) = Ret r' ->
  exists rp', r' = JObj rp' /\ forall k, k <> "condition" -> assoc k rp' = assoc k rp.
Proof.
  unfold align_rule_condition. cbn [get_prop].
  destruct (assoc "condition" rp) as [cd|]; cbn [bind];
    [|intros H; injection H as <-; exists rp; split; [reflexivity|intros; reflexivity]].
  destruct cd; try (intros H; injection H as <-; exists rp; split; [reflexivity|intros; reflexivity]).
  destruct (String.eqb s "");
    [intros H; injection H as <-; exists rp; split; [reflexivity|intros; reflexivity]|].
  destruct (first_literal s) as [[[[pre q] lit] post]|];
    [|intros H; injection H as <-; exists rp; split; [reflexivity|intros; reflexivity]].
  destruct (mapCategory_str cats lm lit) as [m ->]. cbn [bind].
  destruct (_ && _); intros H; injection H as <-; cbn [set_prop].
  - eexists; split; [reflexivity|]. intros k Hk. apply assoc_set_assoc_other, Hk.
  - exists rp; split; [reflexivity|intros; reflexivity].
Qed.

Lemma align_cond_ret (cats : list string) (lm : list (string * jsval))
  (rp : list (string * jsval)) :
  exists r', align_rule_condition cats lm (JObj rp) = Ret r'.
Proof.
  unfold align_rule_condition. cbn [get_prop].
  destruct (assoc "condition" rp) as [cd|]; cbn [bind]; try (eexists; reflexivity).
  destruct cd; try (eexists; reflexivity). destruct (String.eqb s ""); try (eexists; reflexivity).
  destruct (first_literal s) as [[[[pre q] lit] post]|]; try (eexists; reflexivity).
  destruct (mapCategory_str cats lm lit) as [m ->]. cbn [bind].
  destruct (_ && _); eexists; reflexivity.
Qed.

(** On a value that is not an object, [null] or [undefined], the loop body
    reads [category] and [condition] as [undefined] and changes nothing. *)
Lemma align_rule_nonobj (cats : list string) (lm : list (string * jsval)) (r : jsval) :
  match r with JObj _ | JNull | JUndef => False | _ => True end ->
  align_rule cats lm r = Ret r.
Proof.
  intros H. rewrite align_rule_split.
  destruct r as [| | b | n | s | l | rp | f]; try contradiction; reflexivity.
Qed.

(** [mapCategory] throws exactly where [String(val)] does on a truthy value. *)
Lemma mapCategory_exc (cats : list string) (lm : list (string * jsval)) (v : jsval) :
  mapCategory cats lm v = Exc <-> truthy v = true /\ js_String v = Exc.
Proof.
  unfold mapCategory. destruct (truthy v); cbn [negb].
  - destruct (js_String v); cbn [bind].
    + split; [|intros [_ H]; discriminate H]. intros H.
      destruct (String.eqb _ ""); [discriminate H|].
      destruct (truthy _); [discriminate H|]. destruct (find _ cats); discriminate H.
    + split; [intros _; split; reflexivity|reflexivity].
  - split; [discriminate|intros [H _]; discriminate H].
Qed.

Lemma align_rule_exc (cats : list string) (lm : list (string * jsval)) (r : jsval) :
  align_rule cats lm r = Exc <-> align_rule_throws r.
Proof.
  unfold align_rule_throws. split.
  - destruct r as [| | b | n | s | l | rp | f]; auto;
      try (rewrite align_rule_nonobj by exact I; discriminate).
    rewrite align_rule_split. cbn [get_prop].
    destruct (assoc "category" rp) as [v|] eqn:A; cbn [bind].
    + destruct (truthy v) eqn:T.
      * destruct (mapCategory cats lm v) as [w|] eqn:M; cbn [bind set_prop].
        -- destruct (align_cond_ret cats lm (set_assoc "category" w rp)) as [r' ->].
           discriminate.
        -- intros _. right; right. exists rp, v. repeat split; try assumption.
           exact (proj2 (proj1 (mapCategory_exc cats lm v) M)).
      * cbn [bind]. destruct (align_cond_ret cats lm rp) as [r' ->]. discriminate.
    + change (truthy (proto_prop "category")) with false. cbv iota. cbn [bind].
      destruct (align_cond_ret cats lm rp) as [r' ->]. discriminate.
  - intros [->|[->|(rp & v & -> & A & T & S)]]; [reflexivity|reflexivity|].
    rewrite align_rule_split. cbn [get_prop]. rewrite A. cbn [bind]. rewrite T.
    rewrite (proj2 (mapCategory_exc cats lm v) (conj T S)). reflexivity.
Qed.

Lemma align_rules_exc (cats : list string) (lm : list (string * jsval)) (l : list jsval) :
  align_rules cats lm l = Exc <-> exists r, In r l /\ align_rule_throws r.
Proof.
  induction l as [|r t IH]; cbn [align_rules].
  - split; [discriminate|intros [r [[] _]]].
  - destruct (align_rule cats lm r) as [r'|] eqn:R; cbn [bind].
    + assert (Hr : ~ align_rule_throws r)
        by (intros Hn; apply (proj2 (align_rule_exc cats lm r)) in Hn; congruence).
      destruct (align_rules cats lm t) as [t'|] eqn:T; cbn [bind].
      * split; [discriminate|]. intros [x [[<-|Hx] Hn]]; [contradiction|].
        assert (E : Ret t' = Exc) by (apply IH; exists x; auto). discriminate.
      * split; [|reflexivity]. intros _. destruct (proj1 IH eq_refl) as [x [Hx Hn]].
        exists x. split; [right; exact Hx|exact Hn].
    + split; [|reflexivity]. intros _. exists r. split; [left; reflexivity|].
      exact (proj1 (align_rule_exc cats lm r) R).
Qed.

Lemma map_out_exc {A B} (f : A -> outcome B) (l : list A) :
  map_out f l = Exc <-> exists a, In a l /\ f a = Exc.
Proof.
  induction l as [|a t IH]; cbn [map_out].
  - split; [discriminate|intros [a [[] _]]].
  - destruct (f a) as [b|] eqn:E; cbn [bind].
    + destruct (map_out f t) as [ys|]; cbn [bind].
      * split; [discriminate|]. intros [x [[<-|Hx] Hn]]; [congruence|].
        assert (F : Ret ys = Exc) by (apply IH; exists x; auto). discriminate.
      * split; [|reflexivity]. intros _. destruct (proj1 IH eq_refl) as [x [Hx Hn]].
        exists x. split; [right; exact Hx|exact Hn].
    + split; [|reflexivity]. intros _. exists a. split; [left; reflexivity|exact E].
Qed.

(** X4: on a plain JSON document (what [JSON.parse] gives), the aligner
    throws exactly when the document is an object whose [rules] member is
    an array and either [String] throws on one of the dataset categories
    or the loop body throws on one of the rules: a [null] rule, or a rule
    whose truthy [category] [String] cannot convert (an object with an own
    [toString] member).  On every other input it returns a value. *)
Theorem align_throws_cases (parsed : jsval) (dcats : list jsval) :
  json_plain parsed = true ->
  (alignParsedCategoriesWithDataset parsed dcats = Exc <->
   exists ps l, parsed = JObj ps /\ assoc "rules" ps = Some (JArr l) /\
     ((exists c, In c dcats /\ js_String c = Exc) \/
      (exists r, In r l /\ align_rule_throws r))).
Proof.
  intros Hp. unfold alignParsedCategoriesWithDataset.
  destruct parsed as [| | b | n | s | l0 | ps | f]; cbn [json_plain] in Hp; try discriminate Hp.
  - cbn. split; [discriminate|]. intros (ps & l & E & _). discriminate.
  - cbn [truthy negb]. destruct b; cbn.
    + split; [discriminate|]. intros (ps & l & E & _). discriminate.
    + split; [discriminate|]. intros (ps & l & E & _). discriminate.
  - cbn [truthy get_prop negb]. destruct (num_truthy n); cbn;
      (split; [discriminate|]; intros (ps & l & E & _); discriminate).
  - cbn [truthy get_prop negb]. destruct (String.eqb s ""); cbn;
      (split; [discriminate|]; intros (ps & l & E & _); discriminate).
  - cbn. split; [discriminate|]. intros (ps & l & E & _). discriminate.
  - cbn [truthy negb get_prop].
    destruct (assoc "rules" ps) as [x|] eqn:A; cbn [bind].
    2:{ cbn. split; [discriminate|]. intros (ps' & l & E & A' & _). injection E as <-.
        congruence. }
    destruct x as [| | | | | l | |]; cbn [is_array negb];
      try (split; [discriminate|]; intros (ps' & l' & E & A' & _); injection E as <-;
           congruence).
    destruct (map_out js_String dcats) as [cats|] eqn:Ec; cbn [bind].
    2:{ split; [|reflexivity]. intros _. exists ps, l.
        split; [reflexivity|split; [exact A|left; exact (proj1 (map_out_exc _ _) Ec)]]. }
    rewrite json_clone_plain by exact Hp. cbn [get_prop]. rewrite A. cbn [bind js_or truthy].
    destruct (align_rules cats (lower_map cats) l) as [l'|] eqn:AL; cbn [bind].
    + split; [discriminate|]. intros (ps' & l2 & E & A' & [Hc|Hr]).
      * apply (proj2 (map_out_exc _ _)) in Hc. congruence.
      * injection E as <-. rewrite A in A'. injection A' as <-.
        apply (proj2 (align_rules_exc cats (lower_map cats) l)) in Hr. congruence.
    + split; [|reflexivity]. intros _. exists ps, l.
      split; [reflexivity|split; [exact A|right; exact (proj1 (align_rules_exc cats (lower_map cats) l) AL)]].
Qed.

Lemma align_throws_cases_witness :
  alignParsedCategoriesWithDataset
    (JObj [("rules", JArr [JObj [("category", JObj [("toString", JStr "x")])]])])
    [JStr "Meals"] = Exc.
Proof.
  apply (proj2 (align_throws_cases
                  (JObj [("rules", JArr [JObj [("category", JObj [("toString", JStr "x")])]])])
                  [JStr "Meals"] eq_refl)).
  exists [("rules", JArr [JObj [("category", JObj [("toString", JStr "x")])]])],
         [JObj [("category", JObj [("toString", JStr "x")])]].
  split; [reflexivity|]. split; [reflexivity|]. right.
  exists (JObj [("category", JObj [("toString", JStr "x")])]).
  split; [left; reflexivity|]. right; right.
  exists [("category", JObj [("toString", JStr "x")])], (JObj [("toString", JStr "x")]).
  repeat split.
Defined.

Lemma mapCategory_no_cats (v : jsval) :
  (forall s, js_String v = Ret s -> proto_free s = true) -> js_String v <> Exc ->
  mapCategory [] (lower_map []) v = Ret v.
Proof.
  intros Hp Hx. unfold mapCategory. destruct (negb (truthy v)); [reflexivity|].
  destruct (js_String v) as [s|]; [|contradiction]. cbn [bind].
  specialize (Hp s eq_refl). unfold proto_free in Hp. apply negb_true_iff in Hp.
  destruct (String.eqb (js_trim s) ""); [reflexivity|].
  unfold lower_map_get. cbn [lower_map fold_left assoc].
  rewrite proto_prop_undef by exact Hp. reflexivity.
Qed.

Lemma align_rules_no_cats (l : list jsval) :
  Forall rule_names_ok l -> (forall r, In r l -> ~ align_rule_throws r) ->
  align_rules [] (lower_map []) l = Ret l.
Proof.
  induction l as [|r t IH]; intros Hn Ht; [reflexivity|].
  inversion Hn as [|? ? Hr Hn']; subst. cbn [align_rules].
  pose proof (Ht r (or_introl eq_refl)) as Hr'. unfold align_rule_throws in Hr'.
  assert (R : align_rule [] (lower_map []) r = Ret r).
  { destruct r as [| | b | n | s | l | rp | f];
      try (exfalso; apply Hr'; auto; fail);
      try (apply align_rule_nonobj; exact I).
    destruct Hr as [Hc Hd]. apply align_rule_fixed.
    - intros v A T. apply mapCategory_no_cats; [intros s0 S0; exact (Hc v s0 A T S0)|].
      intros S. apply Hr'. right; right. exists rp, v. auto.
    - intros s pre q lit post C F m M.
      rewrite mapCategory_no_cats in M.
      + injection M as <-. cbn [js_strict_eq]. rewrite String.eqb_refl, andb_false_r.
        reflexivity.
      + intros s0 S0. cbn [js_String js_to_string] in S0. injection S0 as <-.
        exact (Hd s pre q lit post C F).
      + discriminate. }
  rewrite R. cbn [bind]. rewrite IH; [reflexivity|exact Hn'|].
  intros x Hx. exact (Ht x (or_intror Hx)).
Qed.

(** X5: aligning a plain JSON rule document against an empty list of
    dataset categories returns it unchanged, when the loop body throws on
    no rule (no rule is [null] or has a truthy [category] that [String]
    cannot convert) and no rule category or first quoted literal of a
    condition lower-cases to a member name of [Object.prototype] (such a
    name reads a prototype member from the otherwise empty [lowerMap]). *)
Theorem align_no_categories_unchanged (parsed : jsval) :
  json_plain parsed = true ->
  (forall rs, get_prop parsed "rules" = Ret (JArr rs) ->
     Forall rule_names_ok rs /\ forall r, In r rs -> ~ align_rule_throws r) ->
  alignParsedCategoriesWithDataset parsed [] = Ret parsed.
Proof.
  intros Hp Hn. unfold alignParsedCategoriesWithDataset.
  destruct (negb (truthy parsed)) eqn:T; [reflexivity|].
  destruct parsed as [| | b | n | s | l0 | ps | f]; try discriminate T;
    try (cbn; reflexivity).
  cbn [get_prop] in Hn |- *.
  destruct (assoc "rules" ps) as [x|] eqn:A; cbn [bind]; [|reflexivity].
  destruct x as [| | | | | l | |]; cbn [is_array negb]; try reflexivity.
  destruct (Hn l eq_refl) as [Hr Hthrow].
  cbn [map_out bind].
  rewrite json_clone_plain by exact Hp. cbn [get_prop]. rewrite A.
  cbn [bind js_or truthy]. rewrite align_rules_no_cats by assumption.
  cbn [bind replace_rules]. rewrite set_assoc_same by exact A. reflexivity.
Qed.

Lemma align_no_categories_unchanged_witness :
  alignParsedCategoriesWithDataset
    (JObj [("rules", JArr [JObj [("name", JStr "Meals cap"); ("category", JStr "meals");
                                 ("condition", JStr "category == 'meals'")]]);
           ("version", JStr "1.0")]) []
  = Ret (JObj [("rules", JArr [JObj [("name", JStr "Meals cap"); ("category", JStr "meals");
                                 ("condition", JStr "category == 'meals'")]]);
           ("version", JStr "1.0")]).
Proof.
  apply align_no_categories_unchanged; [reflexivity|].
  intros rs H. cbn in H. injection H as <-. split.
  - constructor; [|constructor]. split.
    + intros v s A _ S. cbn in A. injection A as <-. cbn in S. injection S as <-.
      reflexivity.
    + intros s pre q lit post C F. cbn in C. injection C as <-.
      vm_compute in F. injection F as <- <- <- <-. reflexivity.
  - intros r [<-|[]] [H|[H|(rp & v & E & A & _ & S)]]; try discriminate H.
    injection E as <-. cbn in A. injection A as <-. discriminate S.
Defined.

Lemma lower_empty (x : string) : lower x = "" -> x = "".
Proof. destruct x; [reflexivity|discriminate]. Qed.

(** X6: [mapCategory] sends a truthy value whose trimmed text (as [String]
    converts it) equals a dataset category ignoring case to the last
    dataset category of that lower-case form (a later duplicate overwrites
    [lowerMap]), unless that form is [__proto__]. *)
Theorem mapCategory_exact_last (pre post : list string) (c : string) (v : jsval) (s : string) :
  truthy v = true -> js_String v = Ret s -> js_trim s <> "" ->
  lower c = lower (js_trim s) -> lower c <> "__proto__" ->
  Forall (fun c' => lower c' <> lower c) post ->
  mapCategory (pre ++ c :: post) (lower_map (pre ++ c :: post)) v = Ret (JStr c).
Proof.
  intros Tv Sv Hs Hl Hp Hpost. unfold mapCategory. rewrite Tv, Sv. cbn [negb bind].
  destruct (String.eqb (js_trim s) "") eqn:E;
    [apply String.eqb_eq in E; contradiction|].
  rewrite <- Hl. unfold lower_map_get, lower_map. rewrite fold_left_app. cbn [fold_left].
  rewrite lower_map_fold_other by exact Hpost.
  destruct (String.eqb (lower c) "__proto__") eqn:P; [apply String.eqb_eq in P; contradiction|].
  rewrite assoc_set_assoc. cbn [truthy].
  destruct (String.eqb c "") eqn:Ec; [|reflexivity].
  apply String.eqb_eq in Ec. subst c. exfalso. apply Hs. apply lower_empty. symmetry. exact Hl.
Qed.

Lemma mapCategory_exact_last_witness :
  mapCategory (["Travel"; "MEALS"] ++ "Meals" :: ["Lodging"])
              (lower_map (["Travel"; "MEALS"] ++ "Meals" :: ["Lodging"])) (JStr " meals ")
  = Ret (JStr "Meals").
Proof.
  apply (mapCategory_exact_last _ _ _ _ " meals ").
  - reflexivity.
  - reflexivity.
  - discriminate.
  - reflexivity.
  - discriminate.
  - constructor; [discriminate|constructor].
Defined.

Lemma get_prop_obj_eq (a b : list (string * jsval)) (k : string) :
  assoc k a = assoc k b -> get_prop (JObj a) k = get_prop (JObj b) k.
Proof. intros H. rewrite !get_prop_obj, H. reflexivity. Qed.

(** The loop body on one rule, when it returns: a rule whose members other
    than [category] and [condition] read as before, and whose truthy
    [category] became what [mapCategory] returns for it. *)
Lemma align_rule_members (cats : list string) (lm : list (string * jsval)) (r r' : jsval) :
  align_rule cats lm r = Ret r' ->
  (forall k, k <> "category" -> k <> "condition" -> get_prop r' k = get_prop r k) /\
  (forall v, get_prop r "category" = Ret v -> truthy v = true ->
     exists v', mapCategory cats lm v = Ret v' /\ get_prop r' "category" = Ret v').
Proof.
  intros H.
  destruct r as [| | b | n | s | l | rp | f];
    try (rewrite align_rule_nonobj in H by exact I; injection H as <-;
         split; [intros; reflexivity|intros v G T; vm_compute in G; injection G as <-;
                                      discriminate T]).
  - discriminate H.
  - discriminate H.
  - rewrite align_rule_split in H. cbn [get_prop] in H.
    destruct (assoc "category" rp) as [v|] eqn:A; cbn [bind] in H.
    + destruct (truthy v) eqn:T.
      * destruct (mapCategory cats lm v) as [w|] eqn:M; cbn [bind set_prop] in H;
          [|discriminate].
        apply align_cond_obj in H as [rp' [-> Hk]]. split.
        -- intros k H1 H2. apply get_prop_obj_eq. rewrite (Hk k H2).
           apply assoc_set_assoc_other, H1.
        -- intros v' G T'. rewrite get_prop_obj, A in G. injection G as <-.
           exists w. split; [exact M|].
           rewrite get_prop_obj, (Hk "category" ltac:(discriminate)), assoc_set_assoc.
           reflexivity.
      * cbn [bind] in H. apply align_cond_obj in H as [rp' [-> Hk]]. split.
        -- intros k H1 H2. apply get_prop_obj_eq. exact (Hk k H2).
        -- intros v' G T'. rewrite get_prop_obj, A in G. injection G as <-. congruence.
    + change (truthy (proto_prop "category")) with false in H. cbv iota in H.
      cbn [bind] in H. apply align_cond_obj in H as [rp' [-> Hk]]. split.
      * intros k H1 H2. apply get_prop_obj_eq. exact (Hk k H2).
      * intros v' G T'. rewrite get_prop_obj, A in G. injection G as <-. discriminate T'.
Qed.

Lemma align_rules_members (cats : list string) (lm : list (string * jsval)) (l l' : list jsval) :
  align_rules cats lm l = Ret l' ->
  Forall2 (fun r r' =>
     (forall k, k <> "category" -> k <> "condition" -> get_prop r' k = get_prop r k) /\
     (forall v, get_prop r "category" = Ret v -> truthy v = true ->
        exists v', mapCategory cats lm v = Ret v' /\ get_prop r' "category" = Ret v')) l l'.
Proof.
  revert l'. induction l as [|r t IH]; intros l' H; cbn [align_rules] in H.
  - injection H as <-. constructor.
  - destruct (align_rule cats lm r) as [r'|] eqn:R; cbn [bind] in H; [|discriminate].
    destruct (align_rules cats lm t) as [t'|] eqn:T; cbn [bind] in H; [|discriminate].
    injection H as <-. constructor; [exact (align_rule_members _ _ _ _ R)|exact (IH t' eq_refl)].
Qed.

(** X7: aligning a plain JSON object whose [rules] member is an array,
    when it returns, gives the object with only that member replaced, by
    an array of the same length whose rules keep every member other than
    [category] and [condition]; a truthy [category] becomes what
    [mapCategory] returns for it. *)
Theorem align_keeps_other_members (ps : list (string * jsval)) (l : list jsval)
  (dcats : list jsval) (out : jsval) :
  json_plain (JObj ps) = true -> assoc "rules" ps = Some (JArr l) ->
  alignParsedCategoriesWithDataset (JObj ps) dcats = Ret out ->
  let cats := map js_to_string dcats in
  exists l', out = JObj (set_assoc "rules" (JArr l') ps) /\
  Forall2 (fun r r' =>
     (forall k, k <> "category" -> k <> "condition" -> get_prop r' k = get_prop r k) /\
     (forall v, get_prop r "category" = Ret v -> truthy v = true ->
        exists v', mapCategory cats (lower_map cats) v = Ret v' /\
                   get_prop r' "category" = Ret v')) l l'.
Proof.
  intros Hp A H cats. unfold alignParsedCategoriesWithDataset in H.
  cbn [truthy negb get_prop] in H. rewrite A in H. cbn [bind is_array negb] in H.
  destruct (map_out js_String dcats) as [cs|] eqn:Ec; cbn [bind] in H; [|discriminate].
  rewrite (map_out_String _ _ Ec) in H.
  rewrite json_clone_plain in H by exact Hp. cbn [get_prop] in H. rewrite A in H.
  cbn [bind js_or truthy] in H.
  destruct (align_rules (map js_to_string dcats) (lower_map (map js_to_string dcats)) l)
    as [l'|] eqn:AL; cbn [bind] in H; [|discriminate].
  injection H as <-. exists l'. split; [reflexivity|].
  exact (align_rules_members _ _ _ _ AL).
Qed.

Lemma align_keeps_other_members_witness :
  exists l', alignParsedCategoriesWithDataset
    (JObj [("rules", JArr [JObj [("name", JStr "R"); ("category", JStr "meal")]])])
    [JStr "Meals"] = Ret (JObj (set_assoc "rules" (JArr l')
       [("rules", JArr [JObj [("name", JStr "R"); ("category", JStr "meal")]])])) /\
  Forall2 (fun r r' =>
     (forall k, k <> "category" -> k <> "condition" -> get_prop r' k = get_prop r k) /\
     (forall v, get_prop r "category" = Ret v -> truthy v = true ->
        exists v', mapCategory ["Meals"] (lower_map ["Meals"]) v = Ret v' /\
                   get_prop r' "category" = Ret v'))
    [JObj [("name", JStr "R"); ("category", JStr "meal")]] l'.
Proof.
  assert (E : alignParsedCategoriesWithDataset
    (JObj [("rules", JArr [JObj [("name", JStr "R"); ("category", JStr "meal")]])])
    [JStr "Meals"]
    = Ret (JObj [("rules", JArr [JObj [("name", JStr "R"); ("category", JStr "Meals")]])]))
    by (vm_compute; reflexivity).
  destruct (align_keeps_other_members
              [("rules", JArr [JObj [("name", JStr "R"); ("category", JStr "meal")]])]
              [JObj [("name", JStr "R"); ("category", JStr "meal")]] [JStr "Meals"] _
              eq_refl eq_refl E) as [l' [Hl' F]].
  exists l'. split; [rewrite E, Hl'; reflexivity|exact F].
Defined.

(** ** Extras: the document the normalizer returns *)

Lemma get_prop_rules_arr (p : jsval) (l : list jsval) :
  get_prop p "rules" = Ret (JArr l) -> exists ps, p = JObj ps /\ assoc "rules" ps = Some (JArr l).
Proof.
  destruct p as [| | b | n | s | l0 | ps | f];
    try (intros H; vm_compute in H; discriminate H).
  cbn [get_prop].
  destruct (assoc "rules" ps) eqn:A; intros H; [injection H as ->; eauto|discriminate].
Qed.

Lemma first_rule_key_arr (es : list (string * jsval)) (k : string) (v : jsval) :
  first_rule_key es = Ret (Some (k, v)) -> exists l, v = JArr l.
Proof.
  induction es as [|[k' v'] t IH]; cbn [first_rule_key]; [discriminate|].
  destruct (rule_array v') as [b|] eqn:R; cbn [bind]; [|discriminate].
  destruct b; [|exact IH]. intros H. injection H as <- <-.
  destruct v' as [| | | | | [|x l] | |]; try discriminate R. eauto.
Qed.

Lemma doc_with_source_rules (v p d : jsval) (k : string) (l : list jsval) :
  v = JArr l -> doc_with_source v p k = Ret d ->
  exists ps rs, d = JObj ps /\ assoc "rules" ps = Some (JArr rs).
Proof.
  intros -> H. unfold doc_with_source in H.
  destruct (get_prop p "source"); cbn [bind] in H; [|discriminate].
  injection H as <-. eexists _, l. split; reflexivity.
Qed.


Lemma direct_step_rules (s : string) (doc : option jsval) :
  has_rules_array doc -> has_rules_array (fst (direct_step s doc)).
Proof.
  intros H. unfold direct_step.
  destruct (JSON_parse s) as [p|]; [|exact H].
  destruct (truthy p && is_object p); [|exact H].
  destruct (get_prop p "rules") as [x|] eqn:G.
  - destruct x as [| | | | | l | |];
      try (intros d E; cbn [fst] in E; injection E as <-;
           destruct (get_prop_rules_arr p l G) as [ps [-> A]]; eauto);
      (destruct (match p with JArr (x :: _) => is_object x | _ => false end) eqn:M;
       [intros d E; cbn [fst] in E; injection E as <-;
        destruct p as [| | | | | [|y t] | |]; try discriminate M;
        eexists _, _; split; reflexivity|]);
      (destruct (first_rule_key (own_entries p)) as [[[k v]|]|] eqn:F; try exact H;
       destruct (doc_with_source v p k) as [d0|] eqn:D; [|exact H];
       intros d E; cbn [fst] in E; injection E as <-;
       destruct (first_rule_key_arr _ _ _ F) as [l' ->];
       exact (doc_with_source_rules _ _ _ _ l' eq_refl D)).
  - destruct (match p with JArr (x :: _) => is_object x | _ => false end) eqn:M;
      [intros d E; cbn [fst] in E; injection E as <-;
       destruct p as [| | | | | [|y t] | |]; try discriminate M;
       eexists _, _; split; reflexivity|].
    destruct (first_rule_key (own_entries p)) as [[[k v]|]|] eqn:F; try exact H.
    destruct (doc_with_source v p k) as [d0|] eqn:D; [|exact H].
    intros d E; cbn [fst] in E; injection E as <-.
    destruct (first_rule_key_arr _ _ _ F) as [l' ->].
    exact (doc_with_source_rules _ _ _ _ l' eq_refl D).
Qed.

Lemma substring_step_rules (s : string) (doc : option jsval) :
  has_rules_array doc -> has_rules_array (fst (substring_step s doc)).
Proof.
  intros H. unfold substring_step.
  destruct (brace_span s) as [m|]; [|exact H].
  destruct (JSON_parse m) as [p|]; [|exact H].
  destruct (truthy p); [|exact H].
  destruct (get_prop p "rules") as [x|] eqn:G.
  - destruct x as [| | | | | l | |];
      try (intros d E; cbn [fst] in E; injection E as <-;
           destruct (get_prop_rules_arr p l G) as [ps [-> A]]; eauto);
      (destruct (is_array p) eqn:IA; [|exact H];
       intros d E; cbn [fst] in E; injection E as <-;
       destruct p as [| | | | | l0 | |]; try discriminate IA; eexists _, _; split; reflexivity).
  - destruct (is_array p) eqn:IA; [|exact H].
    intros d E; cbn [fst] in E; injection E as <-.
    destruct p as [| | | | | l0 | |]; try discriminate IA; eexists _, _; split; reflexivity.
Qed.

Lemma candidate_loop_rules (cands : list string) (doc : option jsval) :
  has_rules_array doc -> has_rules_array (candidate_loop cands doc).
Proof.
  revert doc. induction cands as [|s t IH]; intros doc H; cbn [candidate_loop]; [exact H|].
  destruct (String.eqb s ""); [exact (IH doc H)|].
  pose proof (direct_step_rules s doc H) as H1.
  destruct (direct_step s doc) as [doc1 brk1]. cbn [fst] in H1.
  destruct brk1; [exact H1|].
  pose proof (substring_step_rules s doc1 H1) as H2.
  destruct (substring_step s doc1) as [doc2 brk2]. cbn [fst] in H2.
  destruct brk2; [exact H2|exact (IH doc2 H2)].
Qed.

Lemma shape_of_response_rules (resp doc : jsval) (o : origin) :
  shape_of_response resp = Ret (Some (doc, o)) ->
  exists ps rs, doc = JObj ps /\ assoc "rules" ps = Some (JArr rs).
Proof.
  unfold shape_of_response. destruct (is_object resp); [|discriminate].
  destruct (get_prop resp "rules") as [rs|] eqn:G; cbn [bind]; [|discriminate].
  destruct (is_array rs) eqn:IA.
  - intros E. injection E as <- _.
    destruct rs as [| | | | | l | |]; try discriminate IA.
    destruct (get_prop_rules_arr resp l G) as [ps [-> A]]. eauto.
  - destruct (first_rule_key (own_entries resp)) as [[[k v]|]|] eqn:F; cbn [bind];
      [| |discriminate].
    + destruct (doc_with_source v resp k) as [d|] eqn:D; cbn [bind]; [|discriminate].
      intros E. injection E as <- _.
      destruct (first_rule_key_arr _ _ _ F) as [l ->].
      exact (doc_with_source_rules _ _ _ _ l eq_refl D).
    + destruct (if is_array resp then rule_array resp else Ret false) as [b|] eqn:B;
        cbn [bind]; [|discriminate].
      destruct b; [|discriminate]. intros E. injection E as <- _.
      destruct (is_array resp) eqn:IA2; [|discriminate B].
      destruct resp as [| | | | | l | |]; try discriminate IA2.
      eexists _, _. split; reflexivity.
Qed.

(** X8: whenever [normalizeParserResponse] returns a document, that
    document is an object whose own [rules] member is an array. *)
Theorem normalize_doc_has_rules (resp doc resp' : jsval) :
  normalizeParserResponse resp = (Ret (NormDoc doc), resp') ->
  exists ps rs, doc = JObj ps /\ assoc "rules" ps = Some (JArr rs).
Proof.
  unfold normalizeParserResponse.
  destruct (negb (truthy resp)); [intros E; injection E as E; discriminate E|].
  destruct (shape_of_response resp) as [found|] eqn:S; [|intros E; discriminate E].
  assert (Hf : forall x, match found with
                         | Some x => Some x
                         | None => option_map (fun d => (d, Fresh))
                                              (candidate_loop (string_candidates resp) None)
                         end = Some x ->
                 exists ps rs, fst x = JObj ps /\ assoc "rules" ps = Some (JArr rs)).
  { intros [d o] E. destruct found as [[d' o']|].
    - injection E as -> ->. exact (shape_of_response_rules _ _ _ S).
    - destruct (candidate_loop (string_candidates resp) None) as [d'|] eqn:C;
        [|discriminate E].
      injection E as <- <-.
      apply (candidate_loop_rules (string_candidates resp) None); [|exact C].
      intros d0 E0. discriminate E0. }
  destruct (match found with
            | Some x => Some x
            | None => option_map (fun d => (d, Fresh))
                                 (candidate_loop (string_candidates resp) None)
            end) as [[d o]|] eqn:F; [|intros E; injection E as E; discriminate E].
  destruct (Hf (d, o) eq_refl) as (ps & rs & Ed & A). cbn [fst] in Ed. subst d.
  cbn [get_prop]. rewrite A.
  destruct (synth_loop rs) as [rs' threw]. destruct threw; intros E; injection E as E _;
    [discriminate E|].
  subst doc. cbn [replace_rules]. eexists _, rs'. split; [reflexivity|].
  apply assoc_set_assoc.
Qed.

Lemma normalize_doc_has_rules_witness :
  exists ps rs,
    JObj [("rules", JArr [JObj [("name", JStr "R1"); ("condition", JStr "amount > 50")]]);
          ("source", JStr "parsed")]
    = JObj ps /\ assoc "rules" ps = Some (JArr rs).
Proof.
  apply (normalize_doc_has_rules
    (JObj [("parsed", JArr [JObj [("name", JStr "R1"); ("condition", JStr "amount > 50")]])])
    (JObj [("rules", JArr [JObj [("name", JStr "R1"); ("condition", JStr "amount > 50")]]);
           ("source", JStr "parsed")])
    (JObj [("parsed", JArr [JObj [("name", JStr "R1"); ("condition", JStr "amount > 50")]])])).
  vm_compute. reflexivity.
Defined.

(** ** Extras: the completion token budget control *)

Lemma Qcompare_int (a b : Z) : Qcompare (Qmake a 1) (Qmake b 1) = Z.compare a b.
Proof. unfold Qcompare. cbn [Qnum Qden]. rewrite !Z.mul_1_r. reflexivity. Qed.

Lemma clamp_thousands (q : Z) :
  num_max (int_num 1000) (num_min (int_num 50000) (int_num (q * 1000)))
  = int_num (Z.max 1 (Z.min 50 q) * 1000).
Proof.
  unfold num_min, num_cmp, int_num, dec_Q. cbn [dmant dscale pow10].
  rewrite Qcompare_int.
  case (Z.compare_spec 50000 (q * 1000)); intros C;
    unfold num_max, num_cmp, dec_Q; cbn [dmant dscale pow10]; rewrite Qcompare_int;
    (case (Z.compare_spec 1000 _); intros D; f_equal; f_equal; lia).
Qed.

Lemma num_or_zero_not_nan (n : jsnum) : num_isNaN (num_or_zero n) = false.
Proof. unfold num_or_zero. destruct n; cbn; try destruct (negb _); reflexivity. Qed.

Lemma slider_value_ret (ev : jsval) : exists v, slider_value ev = Ret v.
Proof.
  unfold slider_value. destruct (truthy ev) eqn:T; [|eauto].
  destruct (truthy_get_prop ev "value" T) as [x ->]. cbn [bind]. eauto.
Qed.

Lemma Zpow10_thousand (sc : nat) :
  (10 ^ Z.of_nat (sc + 3) = 10 ^ Z.of_nat sc * 1000)%Z.
Proof. rewrite Nat2Z.inj_add, Z.pow_add_r by lia. reflexivity. Qed.

Lemma slider_tokens_range (n : jsnum) :
  num_isNaN n = false ->
  exists k, (1 <= k <= 50)%Z /\ slider_tokens n = int_num (k * 1000).
Proof.
  intros Hn. destruct n as [[m sc]|[|]|];
    [|exists 1%Z; split; [lia|reflexivity]|exists 50%Z; split; [lia|reflexivity]
     |discriminate Hn].
  unfold slider_tokens. cbn [num_div_1000 num_floor num_mul_1000 num_truthy dmant].
  set (q := (m / 10 ^ Z.of_nat (sc + 3))%Z).
  assert (E : exists q', (if negb (q * 1000 =? 0)%Z then NFin (Dec (q * 1000) 0)
                          else int_num 1000) = int_num (q' * 1000)).
  { destruct (negb _); [exists q; reflexivity|exists 1%Z; reflexivity]. }
  destruct E as [q' E]. rewrite E, clamp_thousands.
  exists (Z.max 1 (Z.min 50 q')). split; [lia|reflexivity].
Qed.

(** X9: [onSliderChange] never throws, and sets [selectedMaxTokens] to a
    multiple of 1000 between 1000 and 50000, which it hands to
    [saveSelectedMaxTokens]. *)
Theorem onSliderChange_range (storage_ok : bool) (ev : jsval) (st : storage) :
  exists k, (1 <= k <= 50)%Z /\
  onSliderChange storage_ok ev st
  = Ret (int_num (k * 1000), saveSelectedMaxTokens storage_ok st (int_num (k * 1000))).
Proof.
  unfold onSliderChange. destruct (slider_value_ret ev) as [v ->]. cbn [bind].
  destruct (slider_tokens_range _ (num_or_zero_not_nan (to_number v))) as [k [Hk ->]].
  exists k. split; [exact Hk|reflexivity].
Qed.

Lemma dec_bounds (m : Z) (sc : nat) (lo hi : Z) :
  (inject_Z lo <= dec_Q (Dec m sc) <= inject_Z hi)%Q ->
  (lo * 10 ^ Z.of_nat sc <= m <= hi * 10 ^ Z.of_nat sc)%Z.
Proof.
  unfold Qle, dec_Q, inject_Z. cbn [Qnum Qden dmant dscale]. rewrite pow10_Z. lia.
Qed.

Lemma dec_bounds_lt (m : Z) (sc : nat) (lo hi : Z) :
  (lo * 10 ^ Z.of_nat sc <= m < hi * 10 ^ Z.of_nat sc)%Z ->
  (inject_Z lo <= dec_Q (Dec m sc) /\ dec_Q (Dec m sc) < inject_Z hi)%Q.
Proof.
  unfold Qle, Qlt, dec_Q, inject_Z. cbn [Qnum Qden dmant dscale]. rewrite pow10_Z. lia.
Qed.

(** X10: when [Number(v) || 0] of the slider's value is a number between
    1000 and 50000, [onSliderChange] rounds it down to a multiple of 1000. *)
Theorem onSliderChange_floor (storage_ok : bool) (ev v : jsval) (st : storage) (d : dec) :
  slider_value ev = Ret v -> num_or_zero (to_number v) = NFin d ->
  (inject_Z 1000 <= dec_Q d <= inject_Z 50000)%Q ->
  exists k, onSliderChange storage_ok ev st
            = Ret (int_num (k * 1000), saveSelectedMaxTokens storage_ok st (int_num (k * 1000)))
         /\ (inject_Z (k * 1000) <= dec_Q d /\ dec_Q d < inject_Z (k * 1000 + 1000))%Q.
Proof.
  intros Hv Hn Hd. unfold onSliderChange. rewrite Hv. cbn [bind]. rewrite Hn.
  destruct d as [m sc]. apply dec_bounds in Hd.
  unfold slider_tokens. cbn [num_div_1000 num_floor num_mul_1000 num_truthy dmant].
  rewrite Zpow10_thousand.
  set (p := (10 ^ Z.of_nat sc)%Z) in *.
  assert (Hp : (0 < p)%Z) by (apply Z.pow_pos_nonneg; lia).
  set (q := (m / (p * 1000))%Z).
  assert (Q1 : (p * 1000 * q <= m)%Z) by (apply Z.mul_div_le; lia).
  assert (Q2 : (m < p * 1000 * Z.succ q)%Z) by (apply Z.mul_succ_div_gt; lia).
  assert (Hq : (1 <= q <= 50)%Z) by nia.
  replace (negb (q * 1000 =? 0)%Z) with true by (symmetry; apply negb_true_iff, Z.eqb_neq; lia).
  cbv iota. change (NFin (Dec (q * 1000) 0)) with (int_num (q * 1000)).
  rewrite clamp_thousands.
  replace (Z.max 1 (Z.min 50 q)) with q by lia.
  exists q. split; [reflexivity|]. apply dec_bounds_lt. fold p. nia.
Qed.

Lemma onSliderChange_floor_witness :
  exists k, onSliderChange true (JObj [("value", JNum (NFin (Dec 123456 1)))]) []
            = Ret (int_num (k * 1000), saveSelectedMaxTokens true [] (int_num (k * 1000)))
         /\ (inject_Z (k * 1000) <= dec_Q (Dec 123456 1) /\
             dec_Q (Dec 123456 1) < inject_Z (k * 1000 + 1000))%Q.
Proof.
  apply (onSliderChange_floor true _ (JNum (NFin (Dec 123456 1))) [] (Dec 123456 1)).
  - reflexivity.
  - reflexivity.
  - split; vm_compute; discriminate.
Defined.

Lemma num_lt_fin (x y : dec) : num_lt (NFin x) (NFin y) = true <-> (dec_Q x < dec_Q y)%Q.
Proof.
  unfold num_lt, num_cmp. rewrite Qlt_alt.
  destruct (dec_Q x ?= dec_Q y)%Q; split; congruence.
Qed.

Lemma number_clamp (n0 : jsnum) :
  num_isNaN n0 = false ->
  let n1 := if num_lt n0 (int_num 1000) then int_num 1000 else n0 in
  let n2 := if num_gt n1 (int_num 50000) then int_num 50000 else n1 in
  exists d, n2 = NFin d /\ (inject_Z 1000 <= dec_Q d <= inject_Z 50000)%Q /\
            (forall d0, n0 = NFin d0 -> (inject_Z 1000 <= dec_Q d0 <= inject_Z 50000)%Q -> d = d0).
Proof.
  intros Hn n1 n2. subst n1 n2.
  destruct n0 as [d0|[|]|]; [| | |discriminate Hn].
  - destruct (num_lt (NFin d0) (int_num 1000)) eqn:L.
    + exists (Dec 1000 0). split; [reflexivity|]. split; [split; vm_compute; discriminate|].
      intros d1 E [H1 _]. injection E as <-. apply num_lt_fin in L.
      exfalso. exact (Qlt_not_le _ _ L H1).
    + assert (H1 : ~ (dec_Q d0 < dec_Q (Dec 1000 0))%Q)
        by (rewrite <- num_lt_fin; unfold int_num in L; congruence).
      apply Qnot_lt_le in H1. change (dec_Q (Dec 1000 0)) with (inject_Z 1000) in H1.
      unfold num_gt. destruct (num_lt (int_num 50000) (NFin d0)) eqn:G.
      * exists (Dec 50000 0). split; [reflexivity|]. split; [split; vm_compute; discriminate|].
        intros d1 E [_ H2]. injection E as <-. apply num_lt_fin in G.
        exfalso. exact (Qlt_not_le _ _ G H2).
      * exists d0. split; [reflexivity|]. split; [split; [exact H1|]|].
        -- apply Qnot_lt_le. change (inject_Z 50000) with (dec_Q (Dec 50000 0)).
           rewrite <- num_lt_fin. unfold int_num in G. congruence.
        -- intros d1 E _. injection E as <-. reflexivity.
  - exists (Dec 1000 0). split; [reflexivity|]. split; [split; vm_compute; discriminate|].
    intros d1 E. discriminate E.
  - exists (Dec 50000 0). split; [reflexivity|]. split; [split; vm_compute; discriminate|].
    intros d1 E. discriminate E.
Qed.

Lemma round_thousands (d : dec) :
  (inject_Z 1000 <= dec_Q d <= inject_Z 50000)%Q ->
  exists k, (1 <= k <= 50)%Z /\
    num_mul_1000 (num_round (num_div_1000 (NFin d))) = int_num (k * 1000) /\
    (inject_Z (k * 1000 - 500) <= dec_Q d /\ dec_Q d < inject_Z (k * 1000 + 500))%Q.
Proof.
  destruct d as [m sc]. intros Hd. apply dec_bounds in Hd.
  cbn [num_div_1000 num_round num_mul_1000]. rewrite Zpow10_thousand.
  set (p := (10 ^ Z.of_nat sc)%Z) in *.
  assert (Hp : (0 < p)%Z) by (apply Z.pow_pos_nonneg; lia).
  set (k := ((2 * m + p * 1000) / (2 * (p * 1000)))%Z).
  assert (K1 : (2 * (p * 1000) * k <= 2 * m + p * 1000)%Z) by (apply Z.mul_div_le; lia).
  assert (K2 : (2 * m + p * 1000 < 2 * (p * 1000) * Z.succ k)%Z)
    by (apply Z.mul_succ_div_gt; lia).
  exists k. split; [nia|]. split; [reflexivity|].
  apply dec_bounds_lt. fold p. nia.
Qed.

(** X11: [onNumberChange] sets [selectedMaxTokens] to a multiple of 1000
    between 1000 and 50000, which it hands to [saveSelectedMaxTokens]; when
    [Number(v) || 0] is already between 1000 and 50000 that multiple is the
    nearest one to it (a value halfway between two rounds up). *)
Theorem onNumberChange_nearest (storage_ok : bool) (v : jsval) (st : storage) :
  exists k, (1 <= k <= 50)%Z /\
    onNumberChange storage_ok v st
    = (int_num (k * 1000), saveSelectedMaxTokens storage_ok st (int_num (k * 1000))) /\
    (forall d, num_or_zero (to_number v) = NFin d ->
       (inject_Z 1000 <= dec_Q d <= inject_Z 50000)%Q ->
       (inject_Z (k * 1000 - 500) <= dec_Q d /\ dec_Q d < inject_Z (k * 1000 + 500))%Q).
Proof.
  unfold onNumberChange.
  destruct (number_clamp _ (num_or_zero_not_nan (to_number v))) as (d & E & Hd & Hsame).
  cbv zeta. rewrite E.
  destruct (round_thousands d Hd) as (k & Hk & R & B). rewrite R.
  exists k. split; [exact Hk|]. split; [reflexivity|].
  intros d0 E0 Hd0. rewrite <- (Hsame d0 E0 Hd0). exact B.
Qed.

Lemma init_after_save (st : storage) (k : Z) :
  (1 <= k <= 50)%Z ->
  init_selectedMaxTokens true (saveSelectedMaxTokens true st (int_num (k * 1000)))
  = int_num (k * 1000).
Proof.
  intros Hk. unfold init_selectedMaxTokens, saveSelectedMaxTokens.
  rewrite assoc_set_assoc.
  assert (E : exists n, k = Z.of_nat n /\ 1 <= n <= 50) by (exists (Z.to_nat k); lia).
  destruct E as [n [-> Hn]]. clear Hk.
  do 51 (destruct n as [|n]; [first [lia | vm_compute; reflexivity]|]). lia.
Qed.

(** X12: with [localStorage] available, the budget set by the slider or
    by the number input is read back unchanged by the field initialiser of
    [selectedMaxTokens] on the next load (the slider handler does not
    throw). *)
Theorem tokens_persist_roundtrip (ev v : jsval) (st : storage) :
  match onSliderChange true ev st with
  | Ret (t, st') => init_selectedMaxTokens true st' = t
  | Exc => False
  end /\
  init_selectedMaxTokens true (snd (onNumberChange true v st)) = fst (onNumberChange true v st).
Proof.
  split.
  - destruct (onSliderChange_range true ev st) as [k [Hk ->]]. exact (init_after_save st k Hk).
  - destruct (onNumberChange_nearest true v st) as (k & Hk & -> & _).
    exact (init_after_save st k Hk).
Qed.

(** ** Extras: paging, sorting and selection of the score table *)

Lemma pages_concat {A : Type} (n : nat) (l : list A) :
  length l <= n * pageSize ->
  concat (map (page_slice l) (seq 0 n)) = l.
Proof.
  revert l. induction n as [|n IH]; intros l Hl.
  - cbn. destruct l; [reflexivity|cbn in Hl; lia].
  - rewrite <- (firstn_skipn pageSize l) at 2.
    cbn [seq map concat]. unfold page_slice at 1. cbn [Nat.mul skipn]. f_equal.
    rewrite <- seq_shift, map_map.
    rewrite <- (IH (skipn pageSize l)) by (rewrite length_skipn; unfold pageSize in *; lia).
    f_equal. apply map_ext. intros i. unfold page_slice.
    rewrite skipn_skipn. f_equal. f_equal. cbn [Nat.mul]. lia.
Qed.

Lemma totalPages_cover (total : nat) : total <= totalPages total * pageSize.
Proof.
  unfold totalPages, pageSize.
  pose proof (Nat.div_mod_eq (total + 50 - 1) 50).
  pose proof (Nat.mod_upper_bound (total + 50 - 1) 50 ltac:(lia)). lia.
Qed.

(** X13: the pages [0 .. totalPages() - 1] of [pagedScores] list, one
    after the other, every row of the sorted copy of [scores()] exactly
    once, in order. *)
Theorem pages_partition_rows {A : Type} (items : list A) :
  concat (map (page_slice items) (seq 0 (totalPages (length items)))) = items.
Proof. apply pages_concat, totalPages_cover. Qed.

Lemma page_clicks_bound (total i : nat) (cs : list bool) :
  i < totalPages total -> page_clicks total i cs < totalPages total.
Proof.
  revert i. induction cs as [|c cs IH]; intros i Hi; [exact Hi|].
  cbn [page_clicks]. apply IH. destruct c.
  - unfold nextPage. destruct (Nat.ltb (i + 1) (totalPages total)) eqn:L; [|exact Hi].
    apply Nat.ltb_lt in L. lia.
  - unfold prevPage. destruct (Nat.ltb 0 i); lia.
Qed.

Lemma page_nonempty {A : Type} (items : list A) (i : nat) :
  items <> [] -> i < totalPages (length items) -> page_slice items i <> [].
Proof.
  intros Hne Hi. unfold page_slice.
  assert (Hlt : i * pageSize < length items).
  { destruct items as [|x t]; [contradiction|]. cbn [length] in *.
    unfold totalPages, pageSize in *.
    pose proof (Nat.div_mod_eq (S (length t) + 50 - 1) 50).
    pose proof (Nat.mod_upper_bound (S (length t) + 50 - 1) 50 ltac:(lia)). lia. }
  destruct (skipn (i * pageSize) items) as [|x r] eqn:S.
  - apply (f_equal (@length A)) in S. rewrite length_skipn in S. cbn in S. lia.
  - cbn. discriminate.
Qed.

(** X14: from the first page, any sequence of [nextPage] and [prevPage]
    clicks keeps [pageIndex] below [totalPages()], so while [scores()] is
    not empty (and unchanged) the page [pagedScores] shows is never
    empty. *)
Theorem page_clicks_in_range {A : Type} (items : list A) (clicks : list bool) :
  page_clicks (length items) 0 clicks < totalPages (length items) /\
  (items <> [] -> page_slice items (page_clicks (length items) 0 clicks) <> []).
Proof.
  assert (H : page_clicks (length items) 0 clicks < totalPages (length items)).
  { apply page_clicks_bound. unfold totalPages. lia. }
  split; [exact H|]. intros Hne. exact (page_nonempty items _ Hne H).
Qed.

Lemma page_clicks_in_range_witness :
  page_clicks (length (seq 0 120)) 0 [true; true; true; false] < totalPages (length (seq 0 120)) /\
  page_slice (seq 0 120) (page_clicks (length (seq 0 120)) 0 [true; true; true; false]) <> [].
Proof.
  destruct (page_clicks_in_range (seq 0 120) [true; true; true; false]) as [H1 H2].
  split; [exact H1|]. apply H2. discriminate.
Defined.

(** X15: clicking the same column header twice restores the sort state
    when that column was already the sorted one, and otherwise leaves that
    column sorted descending. *)
Theorem sortBy_twice (s : sort_state) (field : string) :
  sortBy (sortBy s field) field
  = if String.eqb (sortField s) field then s else {| sortField := field; sortDir := Desc |}.
Proof.
  destruct s as [f d]. unfold sortBy. cbn [sortField sortDir].
  destruct (String.eqb f field) eqn:E; cbn [sortField sortDir].
  - rewrite E. destruct d; reflexivity.
  - rewrite String.eqb_refl. reflexivity.
Qed.

Lemma set_has_app (x : string) (a b : list string) :
  set_has x (a ++ b) = set_has x a || set_has x b.
Proof. unfold set_has. apply existsb_app. Qed.

Lemma set_has_add (x y : string) (s : list string) :
  set_has x (set_add y s) = String.eqb x y || set_has x s.
Proof.
  unfold set_add. destruct (set_has y s) eqn:H.
  - destruct (String.eqb x y) eqn:E; [|reflexivity].
    apply String.eqb_eq in E. subst x. rewrite H. reflexivity.
  - rewrite set_has_app. cbn. rewrite orb_false_r, orb_comm. reflexivity.
Qed.

Lemma set_has_delete (x y : string) (s : list string) :
  set_has x (set_delete y s) = negb (String.eqb x y) && set_has x s.
Proof.
  induction s as [|z t IH]; [cbn; destruct (String.eqb x y); reflexivity|].
  unfold set_delete in *. cbn [filter].
  destruct (String.eqb y z) eqn:E; cbn [negb].
  - apply String.eqb_eq in E. subst z. rewrite IH. unfold set_has. cbn [existsb].
    destruct (String.eqb x y); reflexivity.
  - unfold set_has in *. cbn [existsb]. rewrite IH.
    destruct (String.eqb x z) eqn:Exz; [|reflexivity].
    apply String.eqb_eq in Exz. subst z.
    destruct (String.eqb x y) eqn:Exy; [|reflexivity].
    apply String.eqb_eq in Exy. subst y. rewrite String.eqb_refl in E. discriminate E.
Qed.

(** X16: toggling the same transaction twice without [checked] gives back
    the selection: every id is selected afterwards exactly when it was
    before. *)
Theorem toggleSelect_twice (sel : list string) (txnId x : string) :
  set_has x (toggleSelect (toggleSelect sel txnId None) txnId None) = set_has x sel.
Proof.
  unfold toggleSelect. destruct (set_has txnId sel) eqn:H; cbn [negb].
  - rewrite set_has_delete, String.eqb_refl. cbn [negb andb].
    rewrite set_has_add, set_has_delete.
    destruct (String.eqb x txnId) eqn:E; [|reflexivity].
    apply String.eqb_eq in E. subst x. rewrite H. reflexivity.
  - rewrite set_has_add, String.eqb_refl. cbn [negb orb].
    rewrite set_has_delete, set_has_add.
    destruct (String.eqb x txnId) eqn:E; [|reflexivity].
    apply String.eqb_eq in E. subst x. rewrite H. reflexivity.
Qed.

Lemma toggleSelectAll_has (sel visible : list string) (checked : bool) (x : string) :
  set_has x (toggleSelectAll sel visible checked)
  = if checked then set_has x sel || set_has x visible
    else set_has x sel && negb (set_has x visible).
Proof.
  unfold toggleSelectAll. revert sel. induction visible as [|y t IH]; intros sel.
  - cbn. destruct checked; [rewrite orb_false_r|rewrite andb_true_r]; reflexivity.
  - cbn [fold_left]. rewrite IH.
    change (set_has x (y :: t)) with (String.eqb x y || set_has x t).
    destruct checked; cbv beta iota; [rewrite set_has_add|rewrite set_has_delete];
      destruct (String.eqb x y), (set_has x sel), (set_has x t); reflexivity.
Qed.

(** X17: [toggleSelectAll(checked)] adds ([true]) or removes ([false])
    exactly the visible ids and keeps the selection of every other id;
    after [toggleSelectAll(true)], [areAllVisibleSelected()] holds whenever
    the page shows a row. *)
Theorem toggleSelectAll_spec (sel visible : list string) (checked : bool) :
  (forall x, set_has x (toggleSelectAll sel visible checked)
             = if checked then set_has x sel || set_has x visible
               else set_has x sel && negb (set_has x visible)) /\
  areAllVisibleSelected (toggleSelectAll sel visible true) visible
  = match visible with [] => false | _ => true end.
Proof.
  split; [apply toggleSelectAll_has|].
  unfold areAllVisibleSelected. destruct visible as [|y t] eqn:V; [reflexivity|].
  rewrite <- V. apply forallb_forall. intros id Hid.
  rewrite toggleSelectAll_has.
  assert (Hv : set_has id visible = true).
  { unfold set_has. apply existsb_exists. exists id. split; [exact Hid|apply String.eqb_refl]. }
  rewrite Hv, orb_true_r. reflexivity.
Qed.

(** X18: [normList] never yields an empty array: its result is
    [undefined] or a non-empty array, and applying it again changes
    nothing. *)
Theorem normList_nonempty_idempotent (v : jsval) :
  (normList v = JUndef \/ exists x l, normList v = JArr (x :: l)) /\
  normList (normList v) = normList v.
Proof.
  destruct v as [| | b | n | s | [|y l] | ps | f]; cbn [normList];
    try (split; [left; reflexivity|reflexivity]);
    try (split; [right; eexists _, _; reflexivity|reflexivity]);
    (destruct (String.eqb _ "");
     [split; [left; reflexivity|reflexivity]|split; [right; eexists _, _; reflexivity|reflexivity]]).
Qed.

(** ** Extras: the score filters *)

Lemma filter_js_obj (p : jsval -> outcome bool) (q : list (string * jsval) -> bool)
  (rows : list (list (string * jsval))) :
  (forall r, p (JObj r) = Ret (q r)) ->
  filter_js p (map JObj rows) = Ret (map JObj (filter q rows)).
Proof.
  intros H. induction rows as [|r t IH]; [reflexivity|].
  cbn [map filter_js]. rewrite H. cbn [bind]. rewrite IH. cbn [bind].
  cbn [filter]. destruct (q r); reflexivity.
Qed.

Lemma fraud_high_obj (r : list (string * jsval)) :
  fraud_high (JObj r) = Ret (num_gt (row_fraud r) num_half).
Proof. unfold fraud_high, row_fraud. rewrite get_prop_obj. reflexivity. Qed.

Lemma fraud_med_obj (r : list (string * jsval)) :
  fraud_med (JObj r) = Ret (num_gt (row_fraud r) num_fifth && num_le (row_fraud r) num_half).
Proof.
  unfold fraud_med, row_fraud. rewrite get_prop_obj. cbn [bind].
  change (proto_prop "fraud_score") with JUndef.
  destruct (num_gt _ num_fifth); reflexivity.
Qed.

Lemma fraud_low_obj (r : list (string * jsval)) :
  fraud_low (JObj r) = Ret (num_le (row_fraud r) num_fifth).
Proof. unfold fraud_low, row_fraud. rewrite get_prop_obj. reflexivity. Qed.

(** The three fraud bands of a number: none for NaN, exactly one
    otherwise. *)
Lemma fraud_bands (x : jsnum) :
  negb (num_isNaN x) = num_gt x num_half || (num_gt x num_fifth && num_le x num_half)
                       || num_le x num_fifth /\
  num_gt x num_half && (num_gt x num_fifth && num_le x num_half) = false /\
  num_gt x num_half && num_le x num_fifth = false /\
  (num_gt x num_fifth && num_le x num_half) && num_le x num_fifth = false.
Proof.
  destruct x as [[m sc]|[|]|]; [|vm_compute; tauto|vm_compute; tauto|vm_compute; tauto].
  unfold num_gt, num_lt, num_le, num_cmp, num_half, num_fifth, dec_Q, Qcompare.
  cbn [Qnum Qden dmant dscale num_isNaN negb pow10].
  set (P := Zpos (pow10 sc)).
  assert (HP : (0 < P)%Z) by (unfold P; lia).
  case (Z.compare_spec (5 * P) (m * Zpos (10 * 1))); intros C1;
  case (Z.compare_spec (2 * P) (m * Zpos (10 * 1))); intros C2;
  case (Z.compare_spec (m * Zpos (10 * 1)) (5 * P)); intros C3;
  case (Z.compare_spec (m * Zpos (10 * 1)) (2 * P)); intros C4;
  cbn; (split; [|split; [|split]]); first [reflexivity | exfalso; lia].
Qed.

Lemma fraud_filters_perm (rows : list (list (string * jsval))) :
  Permutation
    (filter (fun r => num_gt (row_fraud r) num_half) rows ++
     filter (fun r => num_gt (row_fraud r) num_fifth && num_le (row_fraud r) num_half) rows ++
     filter (fun r => num_le (row_fraud r) num_fifth) rows)
    (filter (fun r => negb (num_isNaN (row_fraud r))) rows).
Proof.
  induction rows as [|r t IH]; [constructor|]. cbn [filter].
  destruct (fraud_bands (row_fraud r)) as (E & D1 & D2 & D3). rewrite E.
  destruct (num_gt (row_fraud r) num_half);
  destruct (num_gt (row_fraud r) num_fifth && num_le (row_fraud r) num_half);
  destruct (num_le (row_fraud r) num_fifth);
    try discriminate D1; try discriminate D2; try discriminate D3; cbn [orb app].
  - apply perm_skip, IH.
  - eapply perm_trans; [apply Permutation_sym, Permutation_middle|]. apply perm_skip, IH.
  - rewrite app_assoc. eapply perm_trans; [apply Permutation_sym, Permutation_middle|].
    rewrite <- app_assoc. apply perm_skip, IH.
  - exact IH.
Qed.

(** X19: over row objects, the fraud views [high], [med] and [low] of
    [applyScoreFilters] (no other filter set) never throw and together
    hold every row whose [Number(fraud_score)] is not NaN exactly once,
    and no other row: a row without a numeric score is in none of them. *)
Theorem fraud_views_partition (rows : list (list (string * jsval))) :
  exists h m l,
    applyScoreFilters "" "high" "" (map JObj rows) = Ret h /\
    applyScoreFilters "" "med" "" (map JObj rows) = Ret m /\
    applyScoreFilters "" "low" "" (map JObj rows) = Ret l /\
    Permutation (h ++ m ++ l) (map JObj (filter (fun r => negb (num_isNaN (row_fraud r))) rows)).
Proof.
  unfold applyScoreFilters. cbn [String.eqb negb Ascii.eqb Bool.eqb andb bind].
  rewrite (filter_js_obj _ _ rows fraud_high_obj).
  rewrite (filter_js_obj _ _ rows fraud_med_obj).
  rewrite (filter_js_obj _ _ rows fraud_low_obj). cbn [bind].
  eexists _, _, _. split; [reflexivity|]. split; [reflexivity|]. split; [reflexivity|].
  rewrite <- !map_app. apply Permutation_map, fraud_filters_perm.
Qed.

Lemma policy_is_verdict (b c : bool) (vs : list jsval) (r : list (string * jsval)) (v : jsval) :
  verdict c vs = Ret v -> policy_is b (with_policy r v) = Ret (Bool.eqb c b).
Proof.
  unfold verdict. destruct (js_join "; " vs); cbn [bind]; intros H;
    [injection H as <-|discriminate].
  unfold policy_is, with_policy. rewrite get_prop_obj, assoc_set_assoc. reflexivity.
Qed.

Lemma filter_policy_verdicts (doc : jsval) (b : bool) (rows : list (list (string * jsval)))
  (out : list jsval) :
  Forall2 (fun r o => exists vs v,
             Forall2 (fun rule x => rule_label rule = Ret x) (rule_hits (doc_rules doc) r) vs
             /\ verdict (match vs with [] => true | _ => false end) vs = Ret v
             /\ o = with_policy r v)
          rows out ->
  filter_js (policy_is b) out
  = Ret (map snd (filter (fun p => Bool.eqb (negb (has_hits doc (fst p))) b) (combine rows out))).
Proof.
  induction 1 as [|r o rows out (vs & v & Hvs & V & ->) _ IH]; [reflexivity|].
  cbn [filter_js]. rewrite (policy_is_verdict b _ vs r v V). cbn [bind]. rewrite IH.
  cbn [bind]. cbn [combine filter fst]. unfold has_hits.
  destruct Hvs; cbn [negb]; destruct b; reflexivity.
Qed.

(** X20: the [violation] and [ok] views of [applyScoreFilters] (no other
    filter set) over the rows [applyPolicyToRows] returns, when it returns,
    split them: the [violation] view keeps, in order, the output rows of
    the input rows on which some rule of [doc.rules] evaluates to true,
    the [ok] view the others. *)
Theorem policy_views_split (doc : jsval) (rows : list (list (string * jsval)))
  (out : list jsval) :
  applyPolicyToRows doc rows = Ret out ->
  applyScoreFilters "" "" "violation" out
  = Ret (map snd (filter (fun p => has_hits doc (fst p)) (combine rows out))) /\
  applyScoreFilters "" "" "ok" out
  = Ret (map snd (filter (fun p => negb (has_hits doc (fst p))) (combine rows out))).
Proof.
  intros E. pose proof (apply_policy_verdicts doc rows) as F. rewrite E in F.
  unfold applyScoreFilters. cbn [String.eqb negb Ascii.eqb Bool.eqb andb bind].
  rewrite !(filter_policy_verdicts doc _ rows out F). cbn [bind].
  split; do 2 f_equal; apply filter_ext; intros [r o]; cbn [fst];
    destruct (has_hits doc r); reflexivity.
Qed.

Lemma policy_views_split_witness :
  let doc := JObj [("rules", JArr [JObj [("name", JStr "Big");
                                         ("condition", JStr "amount > 100")]])] in
  let rows := [[("amount", JNum (NFin (Dec 200 0)))]; [("amount", JNum (NFin (Dec 50 0)))]] in
  let out := match applyPolicyToRows doc rows with Ret o => o | Exc => [] end in
  applyPolicyToRows doc rows = Ret out /\
  applyScoreFilters "" "" "violation" out
  = Ret (map snd (filter (fun p => has_hits doc (fst p)) (combine rows out))) /\
  applyScoreFilters "" "" "ok" out
  = Ret (map snd (filter (fun p => negb (has_hits doc (fst p))) (combine rows out))).
Proof.
  cbv zeta. split; [vm_compute; reflexivity|].
  apply policy_views_split. vm_compute. reflexivity.
Defined.

(** ** Extras: [formatLogPayload] *)

Lemma substring0_length (n : nat) (s : string) : String.length (substring 0 n s) <= n.
Proof.
  revert n. induction s as [|c s IH]; intros [|n]; cbn; try lia.
  specialize (IH n). lia.
Qed.

(** X21: the text [formatLogPayload] shows for a log entry whose [type]
    ends with [openai_response_received] is at most 1004 characters long:
    the serialized payload cut after 1000 characters, followed by
    [" ..."]. *)
Theorem formatLogPayload_openai_bound (l t : jsval) :
  get_prop l "type" = Ret t ->
  ends_with "openai_response_received" (js_to_string t) = true ->
  String.length (formatLogPayload l) <= 1004.
Proof.
  intros Ht He. unfold formatLogPayload, formatLogPayload_body.
  destruct (get_prop l "payload") as [p|]; cbn [bind]; [|cbn; lia].
  destruct (negb (truthy p)); [cbn; lia|]. rewrite Ht. cbn [bind]. rewrite He.
  destruct (json_stringify p) as [s|]; [|cbn; lia].
  destruct (Nat.ltb 1000 (String.length s)) eqn:L.
  - rewrite str_length_app. pose proof (substring0_length 1000 s). cbn [String.length]. lia.
  - apply Nat.ltb_ge in L. lia.
Qed.

Lemma formatLogPayload_openai_bound_witness :
  String.length (formatLogPayload
    (JObj [("type", JStr "parser.openai_response_received");
           ("payload", JObj [("id", JStr "resp_1")])])) <= 1004.
Proof.
  apply (formatLogPayload_openai_bound _ (JStr "parser.openai_response_received")).
  - reflexivity.
  - vm_compute. reflexivity.
Defined.

(** ** Extras: [applyParsedJson] *)

Lemma rules_named_spec (rs : list jsval) :
  match rules_named rs with
  | Ret true => Forall rule_has_name_condition rs
  | _ => ~ Forall rule_has_name_condition rs
  end.
Proof.
  induction rs as [|r t IH]; cbn [rules_named]; [constructor|].
  destruct (get_prop r "name") as [n|] eqn:N; cbn [bind];
    [|intros F; apply Forall_inv in F; destruct F as (n' & c' & Hn & _); congruence].
  destruct (truthy n) eqn:Tn; cbn [negb];
    [|intros F; apply Forall_inv in F; destruct F as (n' & c' & Hn & Tn' & _); congruence].
  destruct (get_prop r "condition") as [c|] eqn:C; cbn [bind];
    [|intros F; apply Forall_inv in F; destruct F as (n' & c' & _ & _ & Hc & _); congruence].
  destruct (truthy c) eqn:Tc; cbn [negb];
    [|intros F; apply Forall_inv in F; destruct F as (n' & c' & _ & _ & Hc & Tc'); congruence].
  destruct (rules_named t) as [[|]|].
  - constructor; [exists n, c; tauto|exact IH].
  - intros F. apply Forall_inv_tail in F. exact (IH F).
  - intros F. apply Forall_inv_tail in F. exact (IH F).
Qed.

(** X22: [applyParsedJson] either clears [parsedJsonError] and sets
    [rulesDoc] to the parsed object, which happens exactly when the text
    parses to an object whose [rules] member is an array of rules each
    with a truthy [name] and a truthy [condition]; or it sets an error and
    leaves [rulesDoc] unchanged. *)
Theorem applyParsedJson_effect (text : string) (st : editor_state) :
  (exists ps, rules_doc_ok text ps /\
     applyParsedJson text st = {| parsedJsonError := None; rulesDoc := JObj ps |}) \/
  ((forall ps, ~ rules_doc_ok text ps) /\
   parsedJsonError (applyParsedJson text st) <> None /\
   rulesDoc (applyParsedJson text st) = rulesDoc st).
Proof.
  unfold applyParsedJson, applyParsedJson_body.
  destruct (JSON_parse text) as [p|] eqn:J; cbn [bind].
  2: { right. split; [intros ps [E _]; congruence|]. split; [discriminate|reflexivity]. }
  destruct (negb (truthy p) || negb (is_object p)) eqn:B.
  { right. split; [|split; [discriminate|reflexivity]].
    intros ps [E _]. rewrite J in E. injection E as ->. discriminate B. }
  destruct (get_prop p "rules") as [rules|] eqn:G; cbn [bind].
  2: { right. split; [|split; [discriminate|reflexivity]].
       intros ps [E [rs [G' _]]]. rewrite J in E. injection E as ->. congruence. }
  destruct rules as [| | | | | rs | |];
    try (right; split; [|split; [discriminate|reflexivity]];
         intros ps [E [rs' [G' _]]]; rewrite J in E; injection E as ->; congruence).
  pose proof (rules_named_spec rs) as RS.
  destruct (rules_named rs) as [[|]|]; cbn [bind].
  - left. destruct (get_prop_rules_arr p rs G) as [ps [-> A]].
    exists ps. split; [|reflexivity]. split; [exact J|]. exists rs. split; [exact G|exact RS].
  - right. split; [|split; [discriminate|reflexivity]].
    intros ps [E [rs' [G' F]]]. rewrite J in E. injection E as ->.
    rewrite G in G'. injection G' as <-. exact (RS F).
  - right. split; [|split; [discriminate|reflexivity]].
    intros ps [E [rs' [G' F]]]. rewrite J in E. injection E as ->.
    rewrite G in G'. injection G' as <-. exact (RS F).
Qed.
